(** * er-tubule-sim: the substrate engine of [TubulePhysicsPBC.py]

    A shallow embedding of the junction/tubule engine and the properties
    of it that the specification states.

    - Numbers are the program's own: [numpy.float64] is IEEE binary64,
      modelled by Rocq's primitive [float]; the integer fields
      ([cross], [crossover]) are Python integers, modelled by [Z].
      Coordinates and widths are floats throughout, as they are in the
      program: every junction it creates has a coordinate drawn by
      [random.uniform] or computed from a unit vector, so that
      [np.array([x, y])] is a float64 array. A width given as the whole
      number 400 takes part in the same arithmetic as 400.0.
    - numpy does not raise on a division by zero or on NaN: it returns
      the IEEE result, as the primitive operations do.
    - Junction and tubule objects are shared and mutated in place, so they
      live in an object store addressed by reference; [adjacent], [j1] and
      [j2] hold references, and the substrate's collections are lists of
      references in insertion order.
    - The two draws of [random] in [splitTubule] and the four of
      [initSubstrate] are explicit arguments.
    - Of the driver [TubuleMainSimPBC.py], the loop is embedded as far as
      it writes the simulation: the clicks, the removal of what is marked
      and the tick; the drawing calls are not. *)

From Stdlib Require Import ZArith Bool String Lia.
From Stdlib Require Import Floats.PrimFloat Floats.SpecFloat Floats.FloatOps
  Floats.FloatAxioms.
From stdpp Require Import base option list relations.

Set Warnings "-inexact-float".
Local Open Scope Z_scope.

(** ** numpy arithmetic on [float64] and on arrays of two of them *)

Module Np.

(** A Python integer used where a float64 is expected (exact below 2^53). *)
Definition of_int (z : Z) : float :=
  match z with
  | Z0 => PrimFloat.zero
  | Zpos _ => PrimFloat.of_uint63 (Uint63Axioms.of_Z z)
  | Zneg p => PrimFloat.opp (PrimFloat.of_uint63 (Uint63Axioms.of_Z (Zpos p)))
  end.

(** [a > b] on floats is [b < a]; false when either is NaN. *)
Definition gtb (a b : float) : bool := PrimFloat.ltb b a.

(** The magnitude of a finite nonzero float as [m * 2^e]. *)
Definition magnitude (x : float) : option (Z * Z) :=
  match Prim2SF x with
  | S754_finite _ m e => Some (Zpos m, e)
  | _ => None
  end.

(** C [fmod]: the remainder has the sign of the dividend and is exact. *)
Definition c_fmod (a b : float) : float :=
  if PrimFloat.is_nan a || PrimFloat.is_nan b then PrimFloat.nan
  else if PrimFloat.is_infinity a || PrimFloat.is_zero b then PrimFloat.nan
  else if PrimFloat.is_infinity b || PrimFloat.is_zero a then a
  else
    match magnitude a, magnitude b with
    | Some (ma, ea), Some (mb, eb) =>
        let e := Z.min ea eb in
        let r := (ma * 2 ^ (ea - e)) mod (mb * 2 ^ (eb - e)) in
        match r with
        | Zpos p => SF2Prim (S754_finite (PrimFloat.get_sign a) p e)
        | _ => SF2Prim (S754_zero (PrimFloat.get_sign a))
        end
    | _, _ => PrimFloat.nan
    end.

(** [a % b] on float64 (numpy's [npy_remainder]): the result takes the
    sign of the divisor. *)
Definition remainder (a b : float) : float :=
  let m := c_fmod a b in
  if PrimFloat.is_zero b then m
  else if PrimFloat.is_nan m then m
  else if PrimFloat.is_zero m
       then (if PrimFloat.get_sign b then PrimFloat.neg_zero else PrimFloat.zero)
       else if Bool.eqb (PrimFloat.ltb b PrimFloat.zero)
                        (PrimFloat.ltb m PrimFloat.zero)
            then m else PrimFloat.add m b.

(** An array [np.array([x, y])]. *)
Definition vec : Type := float * float.

Definition zeros : vec := (PrimFloat.zero, PrimFloat.zero).
Definition add (u v : vec) : vec :=
  (PrimFloat.add (fst u) (fst v), PrimFloat.add (snd u) (snd v)).
Definition sub (u v : vec) : vec :=
  (PrimFloat.sub (fst u) (fst v), PrimFloat.sub (snd u) (snd v)).
(** [k * v] and [v * k] for a scalar [k]. *)
Definition scale (k : float) (v : vec) : vec :=
  (PrimFloat.mul k (fst v), PrimFloat.mul k (snd v)).
Definition rscale (v : vec) (k : float) : vec :=
  (PrimFloat.mul (fst v) k, PrimFloat.mul (snd v) k).
(** [v / k] for a scalar [k]; numpy divides without raising. *)
Definition divs (v : vec) (k : float) : vec :=
  (PrimFloat.div (fst v) k, PrimFloat.div (snd v) k).
(** [v[0] += k]. *)
Definition add0 (v : vec) (k : float) : vec :=
  (PrimFloat.add (fst v) k, snd v).
Definition set0 (v : vec) (k : float) : vec := (k, snd v).
Definition set1 (v : vec) (k : float) : vec := (fst v, k).

(** [np.dot] of two arrays of two elements, each product and the sum
    rounded (no fused multiply-add). *)
Definition dot (u v : vec) : float :=
  PrimFloat.add (PrimFloat.mul (fst u) (fst v)) (PrimFloat.mul (snd u) (snd v)).
(** [np.linalg.norm] of a one-dimensional array: the square root of the
    array dotted with itself. *)
Definition norm (v : vec) : float := PrimFloat.sqrt (dot v v).

End Np.


(** ** Python objects, references and exceptions *)

(** References to junction and tubule objects: positions in the store. *)
Abbreviation jref := nat (only parsing).
Abbreviation tref := nat (only parsing).

Inductive exn : Type :=
| ValueError   (* [list.remove(x)]: x not in list *)
| BadRef.      (* a reference to no object; no Python program has one *)

Inductive result (A : Type) : Type :=
| Ok (a : A)
| Raise (e : exn).
Arguments Ok {A} a.
Arguments Raise {A} e.

#[global] Instance result_ret : MRet result := fun A a => Ok a.
#[global] Instance result_bind : MBind result := fun A B f m =>
  match m with
  | Ok a => f a
  | Raise e => Raise e
  end.

Definition deref {A : Type} (l : list A) (r : nat) : result A :=
  match l !! r with
  | Some a => Ok a
  | None => Raise BadRef
  end.

(** [l.remove(x)]: drops the first occurrence of [x]. *)
Fixpoint list_remove (x : jref) (l : list jref) : result (list jref) :=
  match l with
  | [] => Raise ValueError
  | y :: l' => if decide (x = y) then Ok l'
               else match list_remove x l' with
                    | Ok r => Ok (y :: r)
                    | Raise e => Raise e
                    end
  end.

(** [try: l.remove(x) except ValueError: pass]. *)
Definition try_remove (x : jref) (l : list jref) : list jref :=
  match list_remove x l with
  | Ok r => r
  | Raise _ => l
  end.

(** [x in l], by object identity. *)
Definition contains (x : jref) (l : list jref) : bool := bool_decide (x ∈ l).

(** ** class Junction *)

Module Junction.

Record t : Type := mk {
  position : Np.vec;
  velocity : Np.vec;
  vector : Np.vec;
  flowing : bool;
  growing : bool;
  anchor : bool;
  flowrate : Np.vec;
  dragrate : float;
  cross : Z;
  width : float;
  adjacent : list jref;
  just_split : bool
}.

(** [Junction(x, y)]. *)
Definition init (x y : float) : t :=
  {| position := (x, y);
     velocity := (0%float, 0%float);
     vector := (Np.of_int 0, Np.of_int 0);
     flowing := false;
     growing := false;
     anchor := false;
     flowrate := (0%float, 0%float);
     dragrate := Np.of_int 1;
     cross := 0;
     width := Np.of_int 0;
     adjacent := [];
     just_split := true |}.

Definition set_position (p : Np.vec) (j : t) : t :=
  mk p (velocity j) (vector j) (flowing j) (growing j) (anchor j)
     (flowrate j) (dragrate j) (cross j) (width j) (adjacent j) (just_split j).
Definition set_velocity (v : Np.vec) (j : t) : t :=
  mk (position j) v (vector j) (flowing j) (growing j) (anchor j)
     (flowrate j) (dragrate j) (cross j) (width j) (adjacent j) (just_split j).
Definition set_vector (v : Np.vec) (j : t) : t :=
  mk (position j) (velocity j) v (flowing j) (growing j) (anchor j)
     (flowrate j) (dragrate j) (cross j) (width j) (adjacent j) (just_split j).
Definition set_growing (b : bool) (j : t) : t :=
  mk (position j) (velocity j) (vector j) (flowing j) b (anchor j)
     (flowrate j) (dragrate j) (cross j) (width j) (adjacent j) (just_split j).
Definition set_anchor (b : bool) (j : t) : t :=
  mk (position j) (velocity j) (vector j) (flowing j) (growing j) b
     (flowrate j) (dragrate j) (cross j) (width j) (adjacent j) (just_split j).
Definition set_cross (c : Z) (j : t) : t :=
  mk (position j) (velocity j) (vector j) (flowing j) (growing j) (anchor j)
     (flowrate j) (dragrate j) c (width j) (adjacent j) (just_split j).
Definition set_adjacent (a : list jref) (j : t) : t :=
  mk (position j) (velocity j) (vector j) (flowing j) (growing j) (anchor j)
     (flowrate j) (dragrate j) (cross j) (width j) a (just_split j).
Definition set_just_split (b : bool) (j : t) : t :=
  mk (position j) (velocity j) (vector j) (flowing j) (growing j) (anchor j)
     (flowrate j) (dragrate j) (cross j) (width j) (adjacent j) b.

(** [self.position[0] %= self.width; self.cross = 0]. *)
Definition wrap (self : t) : t :=
  set_cross 0
    (set_position
       (Np.set0 (position self) (Np.remainder (fst (position self)) (width self)))
       self).

Definition moveJunction (self : t) : t :=
  let self :=
    if negb (anchor self) then
      let self := if 0 <? cross self then wrap self else self in
      if cross self <? 0 then wrap self else self
    else self in
  let self :=
    if flowing self
    then set_position (Np.add (position self) (flowrate self)) self
    else self in
  if negb (anchor self) then
    let self := set_position (Np.add (position self) (velocity self)) self in
    set_velocity (Np.rscale (velocity self) (dragrate self)) self
  else self.

End Junction.

(** ** class Tubule *)

Module Tubule.

Record t : Type := mk {
  j1 : jref;
  j2 : jref;
  width : float;
  crossover : Z;
  vector : Np.vec;
  norm : float;
  unit : Np.vec;
  hookes : float;
  growth : float;
  contracting : bool;
  to_remove : bool     (* the attribute [to_remove] is present *)
}.

Definition set_geometry (v : Np.vec) (n : float) (u : Np.vec) (s : t) : t :=
  mk (j1 s) (j2 s) (width s) (crossover s) v n u
     (hookes s) (growth s) (contracting s) (to_remove s).
Definition set_crossover (c : Z) (s : t) : t :=
  mk (j1 s) (j2 s) (width s) c (vector s) (norm s) (unit s)
     (hookes s) (growth s) (contracting s) (to_remove s).
Definition set_to_remove (s : t) : t :=
  mk (j1 s) (j2 s) (width s) (crossover s) (vector s) (norm s) (unit s)
     (hookes s) (growth s) (contracting s) true.

(** [self.width * self.crossover], the x correction of a wrapped tubule. *)
Definition correction (w : float) (c : Z) : float :=
  PrimFloat.mul w (Np.of_int c).

(** [Tubule(j1, j2)], given the positions of the two junctions. *)
Definition init (r1 r2 : jref) (p1 p2 : Np.vec) : t :=
  let v := Np.sub p2 p1 in
  let v := Np.add0 v (correction (Np.of_int 0) 0) in
  {| j1 := r1; j2 := r2;
     width := Np.of_int 0;
     crossover := 0;
     vector := v;
     norm := Np.norm v;
     unit := Np.divs v (Np.norm v);
     hookes := Np.of_int 0;
     growth := Np.of_int 0;
     contracting := true;
     to_remove := false |}.

(** The array [updateTubule] leaves in [self.vector]. *)
Definition updated_vector (self : t) (p1 p2 : Np.vec) : Np.vec :=
  let v := Np.sub (vector self) (vector self) in
  let v := Np.add v p2 in
  let v := Np.add0 v (correction (width self) (crossover self)) in
  Np.sub v p1.

End Tubule.

(** ** class Substrate *)

(** The operations of [function_dict], by the collection they run over. *)
Inductive jfunction : Type := MoveJunction | BoundSubstrate | MergeTubule.
Inductive tfunction : Type :=
  UpdateTubule | ContractTubule | GrowTubule | PruneTubule | WrapSubstrate.

Module Substrate.

Record t : Type := mk {
  width : float;
  height : float;
  bound_x : bool;
  wrap_x : bool;
  flowing : bool;
  flowrate : Np.vec;
  dragrate : float;
  hookes : float;
  growth : float;
  contracting : bool;
  junctions : list jref;
  tubules : list tref;
  j_functions : list jfunction;
  t_functions : list tfunction
}.

(** The keyword arguments of [Substrate(width, height, **kargs)]. *)
Record kargs : Type := mk_kargs {
  k_bound_x : option bool;
  k_wrap_x : option bool;
  k_flowing : option bool;
  k_flowrate : option Np.vec;
  k_dragrate : option float;
  k_hookes : option float;
  k_growth : option float;
  k_contracting : option bool
}.
Definition no_kargs : kargs := mk_kargs None None None None None None None None.

Definition init (w h : float) (k : kargs) : t :=
  {| width := w;
     height := h;
     bound_x := default false (k_bound_x k);
     wrap_x := default true (k_wrap_x k);
     flowing := default false (k_flowing k);
     flowrate := default (0%float, (-0.0000001)%float) (k_flowrate k);
     dragrate := default 0.99%float (k_dragrate k);
     hookes := default 0.00005%float (k_hookes k);
     growth := default 0.5%float (k_growth k);
     contracting := default true (k_contracting k);
     junctions := [];
     tubules := [];
     j_functions := [];
     t_functions := [] |}.

Definition set_junctions (l : list jref) (s : t) : t :=
  mk (width s) (height s) (bound_x s) (wrap_x s) (flowing s) (flowrate s)
     (dragrate s) (hookes s) (growth s) (contracting s)
     l (tubules s) (j_functions s) (t_functions s).
Definition set_tubules (l : list tref) (s : t) : t :=
  mk (width s) (height s) (bound_x s) (wrap_x s) (flowing s) (flowrate s)
     (dragrate s) (hookes s) (growth s) (contracting s)
     (junctions s) l (j_functions s) (t_functions s).
Definition set_functions (jf : list jfunction) (tf : list tfunction) (s : t) : t :=
  mk (width s) (height s) (bound_x s) (wrap_x s) (flowing s) (flowrate s)
     (dragrate s) (hookes s) (growth s) (contracting s)
     (junctions s) (tubules s) jf tf.

Definition function_dict (name : string) : option (jfunction + tfunction) :=
  if String.eqb name "moveJunction" then Some (inl MoveJunction)
  else if String.eqb name "boundSubstrate" then Some (inl BoundSubstrate)
  else if String.eqb name "mergeTubule" then Some (inl MergeTubule)
  else if String.eqb name "updateTubule" then Some (inr UpdateTubule)
  else if String.eqb name "contractTubule" then Some (inr ContractTubule)
  else if String.eqb name "growTubule" then Some (inr GrowTubule)
  else if String.eqb name "pruneTubule" then Some (inr PruneTubule)
  else if String.eqb name "wrapSubstrate" then Some (inr WrapSubstrate)
  else None.

(** Unknown names are reported on the console and skipped. *)
Fixpoint addFunctions (function_list : list string) (self : t) : t :=
  match function_list with
  | [] => self
  | func :: rest =>
      addFunctions rest
        match function_dict func with
        | Some (inl f) => set_functions (j_functions self ++ [f]) (t_functions self) self
        | Some (inr f) => set_functions (j_functions self) (t_functions self ++ [f]) self
        | None => self
        end
  end.

End Substrate.

(** ** The running program: the object store and the substrate *)

Record World : Type := mkWorld {
  jstore : list Junction.t;
  tstore : list Tubule.t;
  substrate : Substrate.t
}.

Definition set_jstore (l : list Junction.t) (w : World) : World :=
  mkWorld l (tstore w) (substrate w).
Definition set_tstore (l : list Tubule.t) (w : World) : World :=
  mkWorld (jstore w) l (substrate w).
Definition set_substrate (s : Substrate.t) (w : World) : World :=
  mkWorld (jstore w) (tstore w) s.

Definition junction (w : World) (r : jref) : result Junction.t := deref (jstore w) r.
Definition tubule (w : World) (r : tref) : result Tubule.t := deref (tstore w) r.

(** In-place mutation of the object behind a reference. *)
Definition put_junction (r : jref) (j : Junction.t) (w : World) : World :=
  set_jstore (<[r := j]> (jstore w)) w.
Definition put_tubule (r : tref) (t : Tubule.t) (w : World) : World :=
  set_tstore (<[r := t]> (tstore w)) w.

Definition modify_junction (r : jref) (f : Junction.t → Junction.t) (w : World)
  : result World :=
  j ← junction w r; mret (put_junction r (f j) w).

(** *** The methods of Tubule, which reach into both endpoints *)

Definition updateTubule (t : tref) (w : World) : result World :=
  self ← tubule w t;
  e1 ← junction w (Tubule.j1 self);
  e2 ← junction w (Tubule.j2 self);
  let v := Tubule.updated_vector self (Junction.position e1) (Junction.position e2) in
  mret (put_tubule t (Tubule.set_geometry v (Np.norm v) (Np.divs v (Np.norm v)) self) w).

Definition contractTubule (t : tref) (w : World) : result World :=
  self ← tubule w t;
  let pull := Np.scale (Tubule.hookes self) (Tubule.vector self) in
  e1 ← junction w (Tubule.j1 self);
  w ← (if negb (Junction.anchor e1) && Tubule.contracting self
       then modify_junction (Tubule.j1 self)
              (fun j => Junction.set_velocity (Np.add (Junction.velocity j) pull) j) w
       else mret w);
  e2 ← junction w (Tubule.j2 self);
  if negb (Junction.anchor e2) && Tubule.contracting self
  then modify_junction (Tubule.j2 self)
         (fun j => Junction.set_velocity (Np.sub (Junction.velocity j) pull) j) w
  else mret w.

Definition growTubule (t : tref) (w : World) : result World :=
  self ← tubule w t;
  let pull := Np.scale (Tubule.hookes self) (Tubule.vector self) in
  let step := Np.divs (Np.scale (Tubule.growth self) (Tubule.vector self))
                      (Tubule.norm self) in
  e1 ← junction w (Tubule.j1 self);
  w ← (if Junction.growing e1
       then modify_junction (Tubule.j1 self)
              (fun j =>
                 let j := Junction.set_velocity (Np.sub (Junction.velocity j) pull) j in
                 Junction.set_position (Np.sub (Junction.position j) step) j) w
       else mret w);
  e2 ← junction w (Tubule.j2 self);
  if Junction.growing e2
  then modify_junction (Tubule.j2 self)
         (fun j =>
            let j := Junction.set_velocity (Np.add (Junction.velocity j) pull) j in
            Junction.set_position (Np.add (Junction.position j) step) j) w
  else mret w.

(** *** The methods of Substrate *)

Record junction_kargs : Type := mk_junction_kargs {
  ka_anchor : option bool;
  ka_growing : option bool;
  ka_flowing : option bool;
  ka_flowrate : option Np.vec;
  ka_dragrate : option float;
  ka_width : option float;
  ka_cross : option Z
}.
Definition no_junction_kargs : junction_kargs :=
  mk_junction_kargs None None None None None None None.
Definition kw_anchor (b : bool) : junction_kargs :=
  mk_junction_kargs (Some b) None None None None None None.
Definition kw_growing (b : bool) : junction_kargs :=
  mk_junction_kargs None (Some b) None None None None None.

Record tubule_kargs : Type := mk_tubule_kargs {
  ka_hookes : option float;
  ka_growth : option float;
  ka_twidth : option float;    (* the keyword [width] *)
  ka_crossover : option Z
}.
Definition no_tubule_kargs : tubule_kargs := mk_tubule_kargs None None None None.
Definition kw_crossover (c : Z) : tubule_kargs :=
  mk_tubule_kargs None None None (Some c).

Definition addJunction (x y : float) (k : junction_kargs) (w : World)
  : World * jref :=
  let self := substrate w in
  let j := Junction.init x y in
  let j :=
    Junction.mk (Junction.position j) (Junction.velocity j) (Junction.vector j)
      (default (Substrate.flowing self) (ka_flowing k))
      (default false (ka_growing k))
      (default false (ka_anchor k))
      (default (Substrate.flowrate self) (ka_flowrate k))
      (default (Substrate.dragrate self) (ka_dragrate k))
      (default 0 (ka_cross k))
      (default (Substrate.width self) (ka_width k))
      (Junction.adjacent j) (Junction.just_split j) in
  let r := length (jstore w) in
  (mkWorld (jstore w ++ [j]) (tstore w)
     (Substrate.set_junctions (Substrate.junctions self ++ [r]) self), r).

Definition append_adjacent (r : jref) (j : Junction.t) : Junction.t :=
  Junction.set_adjacent (Junction.adjacent j ++ [r]) j.

Definition addTubule (r1 r2 : jref) (k : tubule_kargs) (w : World)
  : result (World * tref) :=
  let self := substrate w in
  e1 ← junction w r1;
  e2 ← junction w r2;
  let t0 := Tubule.init r1 r2 (Junction.position e1) (Junction.position e2) in
  let t1 :=
    Tubule.mk (Tubule.j1 t0) (Tubule.j2 t0)
      (default (Substrate.width self) (ka_growth k))
      (default 0 (ka_crossover k))
      (Tubule.vector t0) (Tubule.norm t0) (Tubule.unit t0)
      (default (Substrate.hookes self) (ka_hookes k))
      (default (Substrate.growth self) (ka_growth k))
      (Tubule.contracting t0) (Tubule.to_remove t0) in
  w ← modify_junction r1 (append_adjacent r2) w;
  w ← modify_junction r2 (append_adjacent r1) w;
  let r := length (tstore w) in
  mret (mkWorld (jstore w) (tstore w ++ [t1])
          (Substrate.set_tubules (Substrate.tubules self ++ [r]) self), r).

(** [sum(t.norm for t in self.tubules)], starting from the integer 0. *)
Fixpoint sum_norms (w : World) (acc : float) (ts : list tref) : result float :=
  match ts with
  | [] => mret acc
  | t :: rest => self ← tubule w t; sum_norms w (PrimFloat.add acc (Tubule.norm self)) rest
  end.

(** [random.uniform(a, b)] is [a + (b - a) * random()]. *)
Definition uniform (a b : float) (rnd : float) : float :=
  PrimFloat.add a (PrimFloat.mul (PrimFloat.sub b a) rnd).

(** The crossovers that split and merge give the tubules to [t.j1] and
    [t.j2], from where the new point [x] lies. *)
Definition end_crossovers (c : Z) (x x1 x2 : float) : Z * Z :=
  if 0 <? c then
    if PrimFloat.ltb x x2 then (-1, 0)
    else if Np.gtb x x1 then (0, 1)
    else (0, 0)
  else if c <? 0 then
    if PrimFloat.ltb x x1 then (0, -1)
    else if Np.gtb x x2 then (1, 0)
    else (0, 0)
  else (0, 0).

(** The body of the [else] branch of [splitTubule]: split [t] at arc
    length [split_len]; [negative] is the draw of [random.choice([-1, 1])]. *)
Definition split_at (t : tref) (split_len : float) (negative : bool) (w : World)
  : result World :=
  let self := substrate w in
  tb ← tubule w t;
  e1 ← junction w (Tubule.j1 tb);
  e2 ← junction w (Tubule.j2 tb);
  let s2_vec := (PrimFloat.opp (snd (Tubule.unit tb)), fst (Tubule.unit tb)) in
  let s2_vec := Np.rscale s2_vec (Np.of_int (if negative then -1 else 1)) in
  let s1_pos := Np.add (Junction.position e1) (Np.scale split_len (Tubule.unit tb)) in
  let s2_pos := Np.add s1_pos (Np.scale 0.1%float s2_vec) in
  let '(s_j1_crossover, s_j2_crossover) :=
    end_crossovers (Tubule.crossover tb) (fst s1_pos)
      (fst (Junction.position e1)) (fst (Junction.position e2)) in
  let sp_crossover :=
    if Np.gtb (fst s2_pos) (Substrate.width self)
       && PrimFloat.ltb (fst s1_pos) (Substrate.width self) then 0 + 1
    else if PrimFloat.ltb (fst s2_pos) (Np.of_int 0)
            && Np.gtb (fst s1_pos) (Np.of_int 0) then 0 - 1
    else 0 in
  let '(w, s1) := addJunction (fst s1_pos) (snd s1_pos) no_junction_kargs w in
  let '(w, s2) := addJunction (fst s2_pos) (snd s2_pos) (kw_growing true) w in
  w ← modify_junction (Tubule.j1 tb)
        (fun j => Junction.set_adjacent (try_remove (Tubule.j2 tb) (Junction.adjacent j)) j) w;
  w ← modify_junction (Tubule.j2 tb)
        (fun j => Junction.set_adjacent (try_remove (Tubule.j1 tb) (Junction.adjacent j)) j) w;
  '(w, _) ← addTubule s1 (Tubule.j1 tb) (kw_crossover s_j1_crossover) w;
  '(w, _) ← addTubule s1 (Tubule.j2 tb) (kw_crossover s_j2_crossover) w;
  '(w, _) ← addTubule s1 s2 (kw_crossover sp_crossover) w;
  tb ← tubule w t;
  mret (put_tubule t (Tubule.set_to_remove tb) w).

(** The loop of [splitTubule] over the tubules still to scan. *)
Fixpoint split_scan (ts : list tref) (split_len : float) (negative : bool) (w : World)
  : result World :=
  match ts with
  | [] => mret w
  | t :: rest =>
      tb ← tubule w t;
      if Np.gtb split_len (Tubule.norm tb)
      then split_scan rest (PrimFloat.sub split_len (Tubule.norm tb)) negative w
      else split_at t split_len negative w
  end.

(** [splitTubule()]; [rnd] is the draw of [random.random()] inside
    [random.uniform], in [0, 1). *)
Definition splitTubule (rnd : float) (negative : bool) (w : World) : result World :=
  let ts := Substrate.tubules (substrate w) in
  sys_len ← sum_norms w (Np.of_int 0) ts;
  let split_len := uniform (Np.of_int 0) sys_len rnd in
  split_scan ts split_len negative w.

(** The collinearity threshold of [mergeTubule]. *)
Definition col_check (j_norm : float) : float :=
  if PrimFloat.ltb j_norm 0.1%float then Np.of_int 0
  else if PrimFloat.ltb j_norm (Np.of_int 1) then 0.9%float
  else 0.999%float.

(** What the body of the loop of [mergeTubule] decides for one tubule. *)
Inductive verdict : Type :=
| Attached                (* [j] is adjacent to an endpoint: nothing is computed *)
| Miss (v : Np.vec)        (* [j.vector] is set; no merge *)
| Hit (v : Np.vec).        (* [j.vector] is set; merge into this tubule *)

Definition merge_test (self : Substrate.t) (r : jref) (j : Junction.t)
    (tb : Tubule.t) (e1 e2 : Junction.t) : verdict :=
  if contains r (Junction.adjacent e1) then Attached
  else if contains r (Junction.adjacent e2) then Attached
  else
    let v := Np.sub (Junction.position j) (Junction.position e1) in
    let v :=
      if 0 <? Tubule.crossover tb then
        if PrimFloat.ltb (fst (Junction.position j)) (fst (Junction.position e2))
        then Np.add0 v (Substrate.width self) else v
      else if Tubule.crossover tb <? 0 then
        if Np.gtb (fst (Junction.position j)) (fst (Junction.position e2))
        then (PrimFloat.sub (fst v) (Substrate.width self), snd v) else v
      else v in
    let j_norm := Np.norm v in
    let j_unit := Np.divs v j_norm in
    if Np.gtb j_norm (Tubule.norm tb) then Miss v
    else if Np.gtb (Np.dot j_unit (Tubule.unit tb)) (col_check j_norm) then Hit v
    else Miss v.

(** The statements of [mergeTubule] once [j] has hit the tubule [t]. *)
Definition merge_into (r : jref) (t : tref) (w : World) : result World :=
  tb ← tubule w t;
  j ← junction w r;
  e1 ← junction w (Tubule.j1 tb);
  e2 ← junction w (Tubule.j2 tb);
  let '(j1_crossover, j2_crossover) :=
    end_crossovers (Tubule.crossover tb) (fst (Junction.position j))
      (fst (Junction.position e1)) (fst (Junction.position e2)) in
  '(w, _) ← addTubule r (Tubule.j1 tb) (kw_crossover j1_crossover) w;
  '(w, _) ← addTubule r (Tubule.j2 tb) (kw_crossover j2_crossover) w;
  j ← junction w r;
  a ← list_remove (Tubule.j1 tb) (Junction.adjacent j);
  let w := put_junction r (Junction.set_adjacent a j) w in
  j ← junction w r;
  a ← list_remove (Tubule.j2 tb) (Junction.adjacent j);
  let w := put_junction r (Junction.set_adjacent a j) w in
  w ← modify_junction r (Junction.set_growing false) w;
  tb ← tubule w t;
  mret (put_tubule t (Tubule.set_to_remove tb) w).

(** The loop of [mergeTubule] over the tubules still to scan. *)
Fixpoint merge_scan (r : jref) (ts : list tref) (w : World) : result World :=
  match ts with
  | [] => mret w
  | t :: rest =>
      tb ← tubule w t;
      j ← junction w r;
      e1 ← junction w (Tubule.j1 tb);
      e2 ← junction w (Tubule.j2 tb);
      match merge_test (substrate w) r j tb e1 e2 with
      | Attached => merge_scan r rest w
      | Miss v => merge_scan r rest (put_junction r (Junction.set_vector v j) w)
      | Hit v => merge_into r t (put_junction r (Junction.set_vector v j) w)
      end
  end.

Definition mergeTubule (r : jref) (w : World) : result World :=
  j ← junction w r;
  if Junction.growing j then
    if Junction.just_split j
    then mret (put_junction r (Junction.set_just_split false j) w)
    else merge_scan r (Substrate.tubules (substrate w)) w
  else mret w.

Definition pruneTubule (t : tref) (w : World) : result World := mret w.
Definition pruneJunction (r : jref) (w : World) : result World := mret w.

(** Pin a junction at a wall: clamp one coordinate, anchor, stop growing. *)
Definition pin (set : Np.vec → float → Np.vec) (k : float) (j : Junction.t)
  : Junction.t :=
  Junction.set_growing false
    (Junction.set_anchor true (Junction.set_position (set (Junction.position j) k) j)).

Definition boundSubstrate (r : jref) (w : World) : result World :=
  let self := substrate w in
  modify_junction r (fun j =>
    let j :=
      if Substrate.bound_x self then
        if Np.gtb (fst (Junction.position j)) (Substrate.width self)
        then pin Np.set0 (Substrate.width self) j
        else if PrimFloat.ltb (fst (Junction.position j)) (Np.of_int 0)
             then pin Np.set0 (Np.of_int 0) j
             else j
      else j in
    if Np.gtb (snd (Junction.position j)) (Substrate.height self)
    then pin Np.set1 (Substrate.height self) j
    else if PrimFloat.ltb (snd (Junction.position j)) (Np.of_int 0)
         then pin Np.set1 (Np.of_int 0) j
         else j) w.

(** [x += 1] clamped from above at 1, and [x -= 1] clamped from below at -1. *)
Definition bump_up (x : Z) : Z := if 1 <? x + 1 then 1 else x + 1.
Definition bump_down (x : Z) : Z := if x - 1 <? -1 then -1 else x - 1.

(** One endpoint's half of [wrapSubstrate]: [out] is what happens to the
    crossover when the endpoint leaves on the right, [back] on the left. *)
Definition wrap_end (t : tref) (e : Tubule.t → jref) (out back : Z → Z) (w : World)
  : result World :=
  let self := substrate w in
  tb ← tubule w t;
  j ← junction w (e tb);
  if Np.gtb (fst (Junction.position j)) (Substrate.width self) then
    let w := put_tubule t (Tubule.set_crossover (out (Tubule.crossover tb)) tb) w in
    modify_junction (e tb) (fun j => Junction.set_cross (bump_up (Junction.cross j)) j) w
  else if PrimFloat.ltb (fst (Junction.position j)) (Np.of_int 0) then
    let w := put_tubule t (Tubule.set_crossover (back (Tubule.crossover tb)) tb) w in
    modify_junction (e tb) (fun j => Junction.set_cross (bump_down (Junction.cross j)) j) w
  else mret w.

Definition wrapSubstrate (t : tref) (w : World) : result World :=
  if Substrate.wrap_x (substrate w) then
    w ← wrap_end t Tubule.j1 bump_down bump_up w;
    wrap_end t Tubule.j2 bump_up bump_down w
  else
    _ ← tubule w t; mret w.

(** [sorted([a, b])]. *)
Definition sorted2 (a b : float) : float * float :=
  if PrimFloat.ltb b a then (b, a) else (a, b).

(** [initSubstrate()]; the four arguments are the draws of
    [random.uniform(0, self.width)] in program order. *)
Definition initSubstrate (b1 b2 t1 t2 : float) (w : World) : result World :=
  let x_bot := sorted2 b1 b2 in
  let x_top := sorted2 t1 t2 in
  let height := Substrate.height (substrate w) in
  let '(w, jbot_1) := addJunction (fst x_bot) (Np.of_int 0) (kw_anchor true) w in
  let '(w, jbot_2) := addJunction (snd x_bot) (Np.of_int 0) (kw_anchor true) w in
  let '(w, jtop_1) := addJunction (fst x_top) height (kw_anchor true) w in
  let '(w, jtop_2) := addJunction (snd x_top) height (kw_anchor true) w in
  '(w, _) ← addTubule jbot_1 jtop_1 no_tubule_kargs w;
  '(w, _) ← addTubule jbot_2 jtop_2 no_tubule_kargs w;
  mret w.

Definition run_jfunction (f : jfunction) (r : jref) (w : World) : result World :=
  match f with
  | MoveJunction => modify_junction r Junction.moveJunction w
  | BoundSubstrate => boundSubstrate r w
  | MergeTubule => mergeTubule r w
  end.

Definition run_tfunction (f : tfunction) (t : tref) (w : World) : result World :=
  match f with
  | UpdateTubule => updateTubule t w
  | ContractTubule => contractTubule t w
  | GrowTubule => growTubule t w
  | PruneTubule => pruneTubule t w
  | WrapSubstrate => wrapSubstrate t w
  end.

(** [for x in xs: f(x)]. *)
Fixpoint for_each {A : Type} (f : A → World → result World) (xs : list A) (w : World)
  : result World :=
  match xs with
  | [] => mret w
  | x :: rest => w ← f x w; for_each f rest w
  end.

(** One tick: every junction operation over all junctions, then every
    tubule operation over all tubules, in registration order. *)
Definition updateSubstrate (w : World) : result World :=
  w ← for_each (fun f w => for_each (run_jfunction f) (Substrate.junctions (substrate w)) w)
        (Substrate.j_functions (substrate w)) w;
  for_each (fun f w => for_each (run_tfunction f) (Substrate.tubules (substrate w)) w)
    (Substrate.t_functions (substrate w)) w.

Fixpoint ticks (n : nat) (w : World) : result World :=
  match n with
  | O => mret w
  | S n => w ← updateSubstrate w; ticks n w
  end.

(** ** Predicates and scenes used by the statements *)

(** [(u == v).all()]. *)
Definition array_equal (u v : Np.vec) : bool :=
  PrimFloat.eqb (fst u) (fst v) && PrimFloat.eqb (snd u) (snd v).

(** The displacement formula as the specification writes it:
    [j2.position - j1.position + (crossover * width, 0)]. *)
Definition spec_vector (tb : Tubule.t) (p1 p2 : Np.vec) : Np.vec :=
  Np.add (Np.sub p2 p1)
         (Tubule.correction (Tubule.width tb) (Tubule.crossover tb), Np.of_int 0).

(** Every reference held by the substrate or by a tubule points to an object. *)
Record well_formed (w : World) : Prop := {
  wf_tubules : ∀ t, t ∈ Substrate.tubules (substrate w) → (t < length (tstore w))%nat;
  wf_ends : ∀ t tb, tstore w !! t = Some tb →
      (Tubule.j1 tb < length (jstore w))%nat ∧ (Tubule.j2 tb < length (jstore w))%nat
}.

(** [A in B.adjacent] exactly when [B in A.adjacent], for all junctions. *)
Definition symmetric (w : World) : Prop :=
  ∀ a b ja jb, jstore w !! a = Some ja → jstore w !! b = Some jb →
    (a ∈ Junction.adjacent jb ↔ b ∈ Junction.adjacent ja).

(** The same, decided by running over the store. *)
Definition symmetricb (w : World) : bool :=
  forallb (fun a =>
    forallb (fun b =>
      match jstore w !! a, jstore w !! b with
      | Some ja, Some jb =>
          Bool.eqb (contains a (Junction.adjacent jb)) (contains b (Junction.adjacent ja))
      | _, _ => true
      end) (seq 0%nat (length (jstore w)))) (seq 0%nat (length (jstore w))).

Definition in_unit_range (z : Z) : Prop := -1 ≤ z ≤ 1.

(** The tubule [t] runs from [r1] to [r2], and its crossover and the
    crosses of both ends are within [-1, 1]. *)
Definition wrap_inv (t : tref) (r1 r2 : jref) (w : World) : Prop :=
  ∃ tb e1 e2,
    tstore w !! t = Some tb
    ∧ Tubule.j1 tb = r1 ∧ Tubule.j2 tb = r2
    ∧ jstore w !! r1 = Some e1 ∧ jstore w !! r2 = Some e2
    ∧ in_unit_range (Tubule.crossover tb)
    ∧ in_unit_range (Junction.cross e1)
    ∧ in_unit_range (Junction.cross e2).

(** Binary64 values: finite ones, the two zeros, and the values that
    [random.random()] returns. *)
Definition finite (x : float) : Prop := PrimFloat.is_finite x = true.
Definition finite_vec (v : Np.vec) : Prop := finite (fst v) ∧ finite (snd v).
Definition zero_like (x : float) : Prop := x = PrimFloat.zero ∨ x = PrimFloat.neg_zero.
Definition draw (rnd : float) : Prop :=
  PrimFloat.leb 0 rnd = true ∧ PrimFloat.ltb rnd 1 = true.

(** What a split leaves behind: two more junctions, three more tubules,
    the split tubule marked and otherwise as it was. *)
Definition split_of (t : tref) (w w' : World) : Prop :=
  length (jstore w') = (length (jstore w) + 2)%nat
  ∧ length (tstore w') = (length (tstore w) + 3)%nat
  ∧ Substrate.junctions (substrate w')
    = Substrate.junctions (substrate w)
        ++ [length (jstore w); S (length (jstore w))]
  ∧ Substrate.tubules (substrate w')
    = Substrate.tubules (substrate w)
        ++ [length (tstore w); S (length (tstore w)); S (S (length (tstore w)))]
  ∧ ∃ tb, tstore w !! t = Some tb ∧ tstore w' !! t = Some (Tubule.set_to_remove tb).

(** The junction store after [j1.adjacent.append(j2)] and
    [j2.adjacent.append(j1)]. *)
Definition adjoin (r1 r2 : jref) (js : list Junction.t) : list Junction.t :=
  alter (append_adjacent r1) r2 (alter (append_adjacent r2) r1 js).

(** The norms of the tubules of the collection, in collection order. *)
Definition norms_of (w : World) (ts : list tref) : list float :=
  omap (fun t => Tubule.norm <$> tstore w !! t) ts.
Definition norms (w : World) : list float :=
  norms_of w (Substrate.tubules (substrate w)).

(** The scan of [splitTubule] over the norms alone: subtract each norm
    from [r] for as long as [r] is greater than it; the result is the index
    of the first tubule whose norm [r] does not exceed and the offset along
    it, or nothing when [r] is greater than every norm. *)
Fixpoint scan_target (ns : list float) (r : float) : option (nat * float) :=
  match ns with
  | [] => None
  | n :: rest =>
      if Np.gtb r n
      then prod_map S id <$> scan_target rest (PrimFloat.sub r n)
      else Some (O, r)
  end.

(** [well_formed], decided by running over the store. *)
Definition well_formedb (w : World) : bool :=
  forallb (fun t => Nat.ltb t (length (tstore w))) (Substrate.tubules (substrate w))
  && forallb (fun tb => Nat.ltb (Tubule.j1 tb) (length (jstore w))
                        && Nat.ltb (Tubule.j2 tb) (length (jstore w)))
       (tstore w).

Definition empty_world (width height : float) (k : Substrate.kargs) : World :=
  mkWorld [] [] (Substrate.init width height k).

(** A 400 x 400 substrate with a vertical tubule from a = (100, 0) to
    b = (100, 400), and a tip j = (100, 200) growing out of c = (50, 200)
    that has reached it; [mergeTubule(j)] has run once, clearing
    [just_split]. The references are a = 0, b = 1, c = 2, j = 3 and the
    tubules are 0 = (a, b) and 1 = (c, j). *)
Definition merge_scene : result World :=
  let w := empty_world 400 400 Substrate.no_kargs in
  let '(w, a) := addJunction 100 0 (kw_anchor true) w in
  let '(w, b) := addJunction 100 400 (kw_anchor true) w in
  '(w, _) ← addTubule a b no_tubule_kargs w;
  let '(w, c) := addJunction 50 200 (kw_anchor true) w in
  let '(w, j) := addJunction 100 200 (kw_growing true) w in
  '(w, _) ← addTubule c j no_tubule_kargs w;
  mergeTubule j w.

(** The scenario of the specification: 400 x 400, the two seeded strands
    with bottom ends at x = 120 and 310 and top ends at x = 95 and 340,
    and the pipeline moveJunction, updateTubule, contractTubule. *)
Definition contraction_scene : result World :=
  let w := empty_world 400 400 Substrate.no_kargs in
  let w := set_substrate
             (Substrate.addFunctions
                ["moveJunction"; "updateTubule"; "contractTubule"]%string
                (substrate w)) w in
  initSubstrate 120 310 95 340 w.

(** Two junctions at (200, 100) and (0.1, 100) joined across the periodic
    boundary by a tubule with crossover 1. *)
Definition wrapped_scene : result World :=
  let w := empty_world 400 400 Substrate.no_kargs in
  let '(w, a) := addJunction 200 100 no_junction_kargs w in
  let '(w, b) := addJunction 0.1 100 no_junction_kargs w in
  '(w, _) ← addTubule a b (kw_crossover 1) w;
  mret w.

(** Two junctions at the same point (1, 1) joined by a tubule. *)
Definition point_scene : result World :=
  let w := empty_world 400 400 Substrate.no_kargs in
  let '(w, a) := addJunction 1 1 no_junction_kargs w in
  let '(w, b) := addJunction 1 1 no_junction_kargs w in
  '(w, _) ← addTubule a b no_tubule_kargs w;
  mret w.

(** A strand from a = (100, 0) to b = (100, 400) and a tip j = (100, 0),
    at the very position of a, growing out of c = (50, 0). The references
    are a = 0, b = 1, c = 2, j = 3 and the tubules are 0 = (a, b) and
    1 = (c, j). *)
Definition tip_at_end_scene : result World :=
  let w := empty_world 400 400 Substrate.no_kargs in
  let '(w, a) := addJunction 100 0 (kw_anchor true) w in
  let '(w, b) := addJunction 100 400 (kw_anchor true) w in
  '(w, _) ← addTubule a b no_tubule_kargs w;
  let '(w, c) := addJunction 50 0 (kw_anchor true) w in
  let '(w, j) := addJunction 100 0 (kw_growing true) w in
  '(w, _) ← addTubule c j no_tubule_kargs w;
  mret w.

(** The same with a horizontal strand from a = (ax, 100) to
    b = (bx, 100) that is recorded as crossing the periodic boundary
    (crossover [c]) and has been updated, so that its vector has the
    correction in it; the tip is at the position of a and grows out of
    (ax, 50). *)
Definition tip_at_wrapped_end_scene (ax bx : float) (c : Z) : result World :=
  let w := empty_world 400 400 Substrate.no_kargs in
  let '(w, a) := addJunction ax 100 (kw_anchor true) w in
  let '(w, b) := addJunction bx 100 (kw_anchor true) w in
  '(w, t) ← addTubule a b (kw_crossover c) w;
  w ← updateTubule t w;
  let '(w, d) := addJunction ax 50 (kw_anchor true) w in
  let '(w, j) := addJunction ax 100 (kw_growing true) w in
  '(w, _) ← addTubule d j no_tubule_kargs w;
  mret w.

(** Three horizontal tubules of lengths 0.4, 0.8 and 0.3. *)
Definition three_scene : result World :=
  let w := empty_world 400 400 Substrate.no_kargs in
  let '(w, o) := addJunction 0 0 (kw_anchor true) w in
  let '(w, a) := addJunction 0.4 0 (kw_anchor true) w in
  let '(w, b) := addJunction 0.8 0 (kw_anchor true) w in
  let '(w, c) := addJunction 0.3 0 (kw_anchor true) w in
  '(w, _) ← addTubule o a no_tubule_kargs w;
  '(w, _) ← addTubule o b no_tubule_kargs w;
  '(w, _) ← addTubule o c no_tubule_kargs w;
  mret w.

(** An anchored junction in a flow. *)
Definition anchored_flowing : Junction.t :=
  Junction.mk (10, 20)%float (1, 2)%float (0, 0)%float true false true
              (0, -0.5)%float 0.99%float 1 400%float [] false.

(** An empty substrate with junctions 0 = (10, 0) and 1 = (30, 0). *)
Definition two_junctions : World :=
  fst (addJunction 30 0 no_junction_kargs
         (fst (addJunction 10 0 no_junction_kargs
                 (empty_world 400 400 Substrate.no_kargs)))).

(** A tubule whose first end has left the substrate on the right, at
    x = 402, and whose second end is inside. *)
Definition escaped_scene : result World :=
  let w := empty_world 400 400 Substrate.no_kargs in
  let '(w, a) := addJunction 402 50 no_junction_kargs w in
  let '(w, b) := addJunction 10 50 no_junction_kargs w in
  '(w, _) ← addTubule a b no_tubule_kargs w;
  mret w.

(** The largest value [random.random()] returns, 1 - 2^-53. *)
Definition largest_draw : float := 0x1.fffffffffffffp-1%float.

(** The world a scene ends in (each of the scenes returns normally). *)
Definition the (r : result World) : World :=
  match r with
  | Ok w => w
  | Raise _ => empty_world 0 0 Substrate.no_kargs
  end.


(** What a test reads off a world. *)
Definition adjacency (w : World) : list (list jref) := Junction.adjacent <$> jstore w.
Definition marked (w : World) : list bool := Tubule.to_remove <$> tstore w.

(** ** How the engine edits the world *)

(** What a statement of the engine may do to a junction it writes: it
    never clears [anchor], and it keeps [cross] within [-1, 1]. *)
Definition junction_step (j j' : Junction.t) : Prop :=
  (Junction.anchor j = true → Junction.anchor j' = true)
  ∧ (in_unit_range (Junction.cross j) → in_unit_range (Junction.cross j')).

(** What it may do to a tubule it writes: the ends stay, a mark stays, and
    [crossover] stays within [-1, 1]. *)
Definition tubule_step (tb tb' : Tubule.t) : Prop :=
  Tubule.j1 tb' = Tubule.j1 tb
  ∧ Tubule.j2 tb' = Tubule.j2 tb
  ∧ (Tubule.to_remove tb = true → Tubule.to_remove tb' = true)
  ∧ (in_unit_range (Tubule.crossover tb) → in_unit_range (Tubule.crossover tb')).

(** One write to the world during a tick: to a junction, to a tubule, or
    a call of [addTubule] with a crossover within [-1, 1]. *)
Inductive edit : World → World → Prop :=
| edit_junction (w : World) (r : jref) (j j' : Junction.t) :
    jstore w !! r = Some j → junction_step j j' →
    edit w (put_junction r j' w)
| edit_tubule (w : World) (t : tref) (tb tb' : Tubule.t) :
    tstore w !! t = Some tb → tubule_step tb tb' →
    edit w (put_tubule t tb' w)
| edit_add (w w' : World) (r1 r2 : jref) (k : tubule_kargs) (t : tref) :
    addTubule r1 r2 k w = Ok (w', t) →
    in_unit_range (default 0 (ka_crossover k)) →
    edit w w'.

Definition edits : World → World → Prop := rtc edit.

(** Every reference of the substrate and of its tubules points to an
    object. *)
Definition sound (w : World) : Prop :=
  well_formed w
  ∧ ∀ r, r ∈ Substrate.junctions (substrate w) → (r < length (jstore w))%nat.

Definition soundb (w : World) : bool :=
  well_formedb w
  && forallb (fun r => Nat.ltb r (length (jstore w))) (Substrate.junctions (substrate w)).

(** Every [cross] and every [crossover] of the store is within [-1, 1]. *)
Definition ranges_ok (w : World) : Prop :=
  (∀ r j, jstore w !! r = Some j → in_unit_range (Junction.cross j))
  ∧ (∀ t tb, tstore w !! t = Some tb → in_unit_range (Tubule.crossover tb)).

(** [ranges_ok], decided by running over the store. *)
Definition ranges_okb (w : World) : bool :=
  forallb (fun j => (-1 <=? Junction.cross j) && (Junction.cross j <=? 1)) (jstore w)
  && forallb (fun tb => (-1 <=? Tubule.crossover tb) && (Tubule.crossover tb <=? 1))
       (tstore w).

(** The simulation as the driver sets it up: a 400 x 400 substrate with
    the driver's pipeline and the two seeded strands of [initSubstrate]. *)
Definition seeded_scene : result World :=
  let w := empty_world 400 400 Substrate.no_kargs in
  let w := set_substrate
             (Substrate.addFunctions
                ["moveJunction"; "updateTubule"; "growTubule"; "contractTubule";
                 "boundSubstrate"; "mergeTubule"; "wrapSubstrate"]%string
                (substrate w)) w in
  initSubstrate 120 310 95 340 w.

(** The same after one click, which splits a strand and leaves a growing
    tip. *)
Definition main_scene : result World :=
  w ← seeded_scene; splitTubule 0.25 false w.

(** A growing junction that has passed the upper wall of a 400 x 400
    substrate. *)
Definition overshoot_scene : World :=
  fst (addJunction 50 401.5 (kw_growing true) (empty_world 400 400 Substrate.no_kargs)).

(** The objects behind two references (each is there in the scenes). *)
Definition the_junction (w : World) (r : jref) : Junction.t :=
  default (Junction.init 0 0) (jstore w !! r).
Definition the_tubule (w : World) (t : tref) : Tubule.t :=
  default (Tubule.init 0%nat 0%nat (0, 0)%float (0, 0)%float) (tstore w !! t).

(** A change is an edit or the creation of a junction by [addJunction]. *)
Inductive change : World → World → Prop :=
| change_edit (w w' : World) : edit w w' → change w w'
| change_new (w : World) (x y : float) (k : junction_kargs) :
    in_unit_range (default 0 (ka_cross k)) →
    change w (fst (addJunction x y k w)).

Definition changes : World → World → Prop := rtc change.

(** ** The driver's loop (TubuleMainSimPBC.py) *)

(** [del(t.__dict__['to_remove'])]. *)
Definition clear_to_remove (s : Tubule.t) : Tubule.t :=
  Tubule.mk (Tubule.j1 s) (Tubule.j2 s) (Tubule.width s) (Tubule.crossover s)
    (Tubule.vector s) (Tubule.norm s) (Tubule.unit s)
    (Tubule.hookes s) (Tubule.growth s) (Tubule.contracting s) false.

(** The first loop over [substrate.tubules]: every tubule that carries
    [to_remove] is collected (the attribute holds the tubule itself) and
    loses the attribute. *)
Fixpoint collect_marks (ts : list tref) (w : World) : result (list tref * World) :=
  match ts with
  | [] => mret ([], w)
  | t :: rest =>
      tb ← tubule w t;
      if Tubule.to_remove tb then
        '(doomed, w) ← collect_marks rest (put_tubule t (clear_to_remove tb) w);
        mret (t :: doomed, w)
      else collect_marks rest w
  end.

(** The second loop: [if t in substrate.tubules: substrate.tubules.remove(t)]. *)
Fixpoint remove_all (doomed : list tref) (ts : list tref) : result (list tref) :=
  match doomed with
  | [] => mret ts
  | t :: rest =>
      ts ← (if contains t ts then list_remove t ts else mret ts);
      remove_all rest ts
  end.

(** The removal of what is marked for deletion. No junction ever carries
    [to_remove] (only [splitTubule] and [mergeTubule] set it, on tubules),
    so the two loops over the junctions collect and remove nothing. *)
Definition sweep (w : World) : result World :=
  let ts := Substrate.tubules (substrate w) in
  '(doomed, w) ← collect_marks ts w;
  ts ← remove_all doomed ts;
  mret (set_substrate (Substrate.set_tubules ts (substrate w)) w).






(** What every step of a run hands on: references that point to objects,
    crosses and crossovers within [-1, 1], and each junction, never
    released from its anchor. *)
Definition carries (w w' : World) : Prop :=
  sound w'
  ∧ (ranges_ok w → ranges_ok w')
  ∧ ∀ r j, jstore w !! r = Some j →
      ∃ j', jstore w' !! r = Some j' ∧ junction_step j j'.

(** What [boundSubstrate] does to the junction it is given. *)
Definition clamp (self : Substrate.t) (j : Junction.t) : Junction.t :=
  let j :=
    if Substrate.bound_x self then
      if Np.gtb (fst (Junction.position j)) (Substrate.width self)
      then pin Np.set0 (Substrate.width self) j
      else if PrimFloat.ltb (fst (Junction.position j)) (Np.of_int 0)
           then pin Np.set0 (Np.of_int 0) j
           else j
    else j in
  if Np.gtb (snd (Junction.position j)) (Substrate.height self)
  then pin Np.set1 (Substrate.height self) j
  else if PrimFloat.ltb (snd (Junction.position j)) (Np.of_int 0)
       then pin Np.set1 (Np.of_int 0) j
       else j.

(** The junction lies between the walls that are switched on. *)
Definition inside (self : Substrate.t) (j : Junction.t) : Prop :=
  Np.gtb (snd (Junction.position j)) (Substrate.height self) = false
  ∧ PrimFloat.ltb (snd (Junction.position j)) (Np.of_int 0) = false
  ∧ (Substrate.bound_x self = true →
     Np.gtb (fst (Junction.position j)) (Substrate.width self) = false
     ∧ PrimFloat.ltb (fst (Junction.position j)) (Np.of_int 0) = false).

(** The walls are not below or left of the origin. *)
Definition walls_ok (self : Substrate.t) : Prop :=
  PrimFloat.ltb (Substrate.height self) (Np.of_int 0) = false
  ∧ (Substrate.bound_x self = true →
     PrimFloat.ltb (Substrate.width self) (Np.of_int 0) = false).

(** ** Adjacency as a multigraph *)

(** How often [a] stands in a list of references. *)
Definition occurrences (a : jref) (l : list jref) : nat := count_occ Nat.eq_dec l a.

(** [b] stands in the list of [a] as often as [a] stands in the list of
    [b], for all junctions [a] and [b]. *)
Definition balanced_store (js : list Junction.t) : Prop :=
  ∀ a b ja jb, js !! a = Some ja → js !! b = Some jb →
    occurrences b (Junction.adjacent ja) = occurrences a (Junction.adjacent jb).
Definition balanced (w : World) : Prop := balanced_store (jstore w).

(** The adjacency lists name junctions of the store only. *)
Definition closed_store (js : list Junction.t) : Prop :=
  ∀ r j a, js !! r = Some j → a ∈ Junction.adjacent j → (a < length js)%nat.
Definition closed (w : World) : Prop := closed_store (jstore w).

(** Both, decided by running over the store. *)
Definition balancedb (w : World) : bool :=
  forallb (fun a =>
    forallb (fun b =>
      Nat.eqb (occurrences b (Junction.adjacent (the_junction w a)))
              (occurrences a (Junction.adjacent (the_junction w b))))
      (seq 0%nat (length (jstore w))))
    (seq 0%nat (length (jstore w))).
Definition closedb (w : World) : bool :=
  forallb (fun j => forallb (fun a => Nat.ltb a (length (jstore w))) (Junction.adjacent j))
    (jstore w).

(** [t.j1.adjacent.remove(t.j2)] and [t.j2.adjacent.remove(t.j1)], each
    under [try ... except ValueError: pass]. *)
Definition unlink (r1 r2 : jref) (js : list Junction.t) : list Junction.t :=
  alter (fun j => Junction.set_adjacent (try_remove r1 (Junction.adjacent j)) j) r2
    (alter (fun j => Junction.set_adjacent (try_remove r2 (Junction.adjacent j)) j) r1 js).

(** What a call that returns a world and a reference returned. *)
Definition the_pair (r : result (World * nat)) : World * nat :=
  match r with
  | Ok p => p
  | Raise _ => (empty_world 0 0 Substrate.no_kargs, 0%nat)
  end.

(** A tubule whose second end has drifted to x = +infinity. *)
Definition drifted_scene : result World :=
  let w := empty_world 400 400 Substrate.no_kargs in
  let '(w, a) := addJunction 10 50 no_junction_kargs w in
  let '(w, b) := addJunction PrimFloat.infinity 50 no_junction_kargs w in
  '(w, _) ← addTubule a b no_tubule_kargs w;
  mret w.

(** A growing tip at the very point it grows from. *)
Definition tip_at_root_scene : result World :=
  let w := empty_world 400 400 Substrate.no_kargs in
  let '(w, a) := addJunction 1 1 no_junction_kargs w in
  let '(w, b) := addJunction 1 1 (kw_growing true) w in
  '(w, _) ← addTubule a b no_tubule_kargs w;
  mret w.

(** ** Properties *)

(** *** Reading and writing the store *)

Lemma deref_Ok {A : Type} (l : list A) (r : nat) (a : A) :
  deref l r = Ok a ↔ l !! r = Some a.
Proof.
  unfold deref. destruct (l !! r); split; intros H; inversion H; reflexivity.
Qed.

Lemma deref_lt {A : Type} (l : list A) (r : nat) :
  (r < length l)%nat → ∃ a, deref l r = Ok a ∧ l !! r = Some a.
Proof.
  intros H. destruct (lookup_lt_is_Some_2 l r H) as [a Ha].
  exists a. split; [apply deref_Ok|]; exact Ha.
Qed.

(** Inversion of a sequence of statements that returned normally. *)
Lemma bind_Ok {A B : Type} (m : result A) (f : A → result B) (b : B) :
  m ≫= f = Ok b → ∃ a, m = Ok a ∧ f a = Ok b.
Proof. destruct m as [a|e]; [eauto | discriminate]. Qed.

Lemma ret_Ok {A : Type} (a b : A) : mret a = Ok b → a = b.
Proof. intros H. injection H. auto. Qed.

(** Settle a conjunction of closed facts by running the program, one fact
    after the other: a later one may mention the result of an earlier one. *)
Ltac by_running :=
  repeat match goal with |- _ ∧ _ => split end;
  lazymatch goal with |- _ => vm_compute; reflexivity end.

Ltac inv_bind H :=
  repeat match type of H with
    | _ ≫= _ = Ok _ =>
        let a := fresh "a" in let E := fresh "E" in
        apply bind_Ok in H as (a & E & H)
    | mret _ = Ok _ => apply ret_Ok in H
    end.

Lemma modify_junction_Ok (r : jref) (f : Junction.t → Junction.t) (w w' : World) :
  modify_junction r f w = Ok w' →
  ∃ j, jstore w !! r = Some j ∧ w' = put_junction r (f j) w.
Proof.
  unfold modify_junction, junction. intros H. inv_bind H.
  apply deref_Ok in E. eauto.
Qed.

Lemma insert_as_alter {A : Type} (f : A → A) (l : list A) (i : nat) (x : A) :
  l !! i = Some x → <[i := f x]> l = alter f i l.
Proof.
  revert i. induction l as [|y l IH]; intros [|i] H; try discriminate; cbn in *.
  - injection H as ->. reflexivity.
  - f_equal. apply IH, H.
Qed.

Lemma modify_junction_lt (r : jref) (f : Junction.t → Junction.t) (w : World) :
  (r < length (jstore w))%nat →
  modify_junction r f w = Ok (set_jstore (alter f r (jstore w)) w).
Proof.
  intros H. destruct (deref_lt _ _ H) as (j & E & El).
  unfold modify_junction, junction, put_junction. rewrite E. cbn.
  rewrite (insert_as_alter f _ _ _ El). reflexivity.
Qed.

Ltac sizes :=
  cbn; unfold adjoin;
  repeat (progress (rewrite ?length_alter, ?length_insert, ?length_app; cbn)); lia.

(** What [addTubule] returns, given two junctions that exist. *)
Lemma addTubule_Ok (r1 r2 : jref) (k : tubule_kargs) (w : World) :
  (r1 < length (jstore w))%nat → (r2 < length (jstore w))%nat →
  ∃ tb,
    addTubule r1 r2 k w
    = Ok (mkWorld (adjoin r1 r2 (jstore w)) (tstore w ++ [tb])
            (Substrate.set_tubules
               (Substrate.tubules (substrate w) ++ [length (tstore w)])
               (substrate w)),
          length (tstore w))
    ∧ Tubule.to_remove tb = false.
Proof.
  intros L1 L2. unfold addTubule.
  destruct (deref_lt _ _ L1) as (e1 & E1 & _).
  destruct (deref_lt _ _ L2) as (e2 & E2 & _).
  unfold junction. rewrite E1, E2. cbn [mbind result_bind].
  rewrite (modify_junction_lt r1 _ w L1). cbn [mbind result_bind].
  rewrite modify_junction_lt by sizes.
  cbn. eexists. split; reflexivity.
Qed.

Lemma well_formedb_spec (w : World) : well_formedb w = true → well_formed w.
Proof.
  unfold well_formedb. rewrite andb_true_iff, !forallb_forall. intros [Ht He].
  split.
  - intros t Hin. apply Nat.ltb_lt, Ht, list_elem_of_In, Hin.
  - intros t tb Hl. specialize (He tb).
    rewrite andb_true_iff, !Nat.ltb_lt in He. apply He.
    apply list_elem_of_In. eapply list_elem_of_lookup_2, Hl.
Qed.

(** *** Facts of binary64 arithmetic *)

Lemma finite_SF (x : float) :
  finite x →
  (∃ s, Prim2SF x = S754_zero s) ∨ (∃ s m e, Prim2SF x = S754_finite s m e).
Proof.
  unfold finite, PrimFloat.is_finite, PrimFloat.is_nan, PrimFloat.is_infinity.
  rewrite !FloatAxioms.eqb_spec, FloatAxioms.abs_spec.
  change (Prim2SF infinity) with (S754_infinity false).
  destruct (Prim2SF x) as [s| [] | |s m e]; cbn; try discriminate; eauto.
Qed.

Lemma SF_zero_like (x : float) (s : bool) : Prim2SF x = S754_zero s → zero_like x.
Proof.
  intros H. destruct s; [right|left]; apply Prim2SF_inj; rewrite H; reflexivity.
Qed.

Lemma sub_self (x : float) : finite x → PrimFloat.sub x x = PrimFloat.zero.
Proof.
  intros H. apply Prim2SF_inj. rewrite sub_spec.
  destruct (finite_SF x H) as [[s E] | (s & m & e & E)]; rewrite E.
  - destruct s; reflexivity.
  - unfold SF64sub, SFsub. rewrite Z.sub_diag. reflexivity.
Qed.

Lemma add_sub_cancel (x z : float) :
  finite x → zero_like z →
  PrimFloat.sub (PrimFloat.add (PrimFloat.add 0 x) z) x = PrimFloat.zero.
Proof.
  intros H Hz. destruct (finite_SF x H) as [[s E] | (s & m & e & E)].
  - apply SF_zero_like in E. destruct E as [-> | ->], Hz as [-> | ->]; reflexivity.
  - assert (PrimFloat.add 0 x = x) as ->.
    { apply Prim2SF_inj. rewrite add_spec, E. reflexivity. }
    assert (PrimFloat.add x z = x) as ->.
    { apply Prim2SF_inj. rewrite add_spec, E. destruct Hz as [-> | ->]; reflexivity. }
    apply sub_self, H.
Qed.

Lemma mul_zero_like (w : float) : finite w → zero_like (PrimFloat.mul w PrimFloat.zero).
Proof.
  intros H.
  destruct (finite_SF w H) as [[s E] | (s & m & e & E)];
    apply (SF_zero_like _ (xorb s false)); rewrite mul_spec, E; reflexivity.
Qed.

Lemma mul_nan (y : float) : PrimFloat.mul PrimFloat.nan y = PrimFloat.nan.
Proof.
  apply Prim2SF_inj. rewrite mul_spec.
  change (Prim2SF nan) with S754_nan. reflexivity.
Qed.

Lemma ltb_nan (c : float) : PrimFloat.ltb c PrimFloat.nan = false.
Proof.
  rewrite FloatAxioms.ltb_spec. change (Prim2SF nan) with S754_nan.
  destruct (Prim2SF c); reflexivity.
Qed.

Lemma draw_of_nothing (rnd : float) :
  draw rnd → uniform (Np.of_int 0) PrimFloat.zero rnd = PrimFloat.zero.
Proof.
  intros [Hle Hlt]. unfold uniform.
  change (Np.of_int 0) with PrimFloat.zero.
  change (PrimFloat.sub PrimFloat.zero PrimFloat.zero) with PrimFloat.zero.
  assert (zero_like (PrimFloat.mul PrimFloat.zero rnd)) as [-> | ->];
    [|reflexivity|reflexivity].
  rewrite FloatAxioms.leb_spec in Hle. rewrite FloatAxioms.ltb_spec in Hlt.
  change (Prim2SF 0) with (S754_zero false) in Hle.
  change (Prim2SF 1) with (S754_finite false 4503599627370496 (-52)) in Hlt.
  destruct (Prim2SF rnd) as [s| s | |s m e] eqn:E; try discriminate.
  - apply (SF_zero_like _ (xorb false s)). rewrite mul_spec, E. reflexivity.
  - destruct s; discriminate.
  - apply (SF_zero_like _ (xorb false s)). rewrite mul_spec, E. reflexivity.
Qed.

Lemma add_sub_cancel0 (x : float) :
  finite x → PrimFloat.sub (PrimFloat.add 0 x) x = PrimFloat.zero.
Proof.
  intros H. destruct (finite_SF x H) as [[s E] | (s & m & e & E)].
  - apply SF_zero_like in E. destruct E as [-> | ->]; reflexivity.
  - assert (PrimFloat.add 0 x = x) as ->.
    { apply Prim2SF_inj. rewrite add_spec, E. reflexivity. }
    apply sub_self, H.
Qed.

Lemma sub_self_vec (v : Np.vec) : finite_vec v → Np.sub v v = Np.zeros.
Proof.
  intros [Hx Hy]. unfold Np.sub, Np.zeros. rewrite !sub_self by assumption.
  reflexivity.
Qed.

(** *** Junction.moveJunction on an anchored junction *)

(** C10. For a junction with [anchor = true], [moveJunction] leaves
    [velocity] and [cross] as they are; [position] is unchanged when
    [flowing] is false, and is [position + flowrate] when [flowing] is
    true: anchoring does not suppress the flow drift. *)
Theorem moveJunction_anchored (j : Junction.t) :
  Junction.anchor j = true →
  Junction.velocity (Junction.moveJunction j) = Junction.velocity j
  ∧ Junction.cross (Junction.moveJunction j) = Junction.cross j
  ∧ Junction.position (Junction.moveJunction j)
    = (if Junction.flowing j
       then Np.add (Junction.position j) (Junction.flowrate j)
       else Junction.position j).
Proof.
  intros Ha. unfold Junction.moveJunction. rewrite Ha. simpl.
  destruct (Junction.flowing j); simpl; rewrite Ha; auto.
Qed.

Lemma moveJunction_anchored_witness :
  Junction.anchor anchored_flowing = true
  ∧ Junction.velocity (Junction.moveJunction anchored_flowing) = (1, 2)%float
  ∧ Junction.cross (Junction.moveJunction anchored_flowing) = 1
  ∧ Junction.position (Junction.moveJunction anchored_flowing) = (10, 19.5)%float.
Proof.
  split; [reflexivity|].
  exact (moveJunction_anchored anchored_flowing eq_refl).
Defined.


(** *** Substrate.addTubule and its keyword arguments *)

(** What [addTubule] stores in the fields of the tubule it returns. *)
Lemma addTubule_fields (r1 r2 : jref) (k : tubule_kargs) (w w' : World) (t : tref) :
  addTubule r1 r2 k w = Ok (w', t) →
  ∃ tb, tubule w' t = Ok tb
    ∧ Tubule.hookes tb = default (Substrate.hookes (substrate w)) (ka_hookes k)
    ∧ Tubule.growth tb = default (Substrate.growth (substrate w)) (ka_growth k)
    ∧ Tubule.width tb = default (Substrate.width (substrate w)) (ka_growth k)
    ∧ Tubule.crossover tb = default 0 (ka_crossover k).
Proof.
  unfold addTubule. intros H. inv_bind H.
  apply modify_junction_Ok in E1 as (j1 & _ & ->).
  apply modify_junction_Ok in E2 as (j2 & _ & ->).
  injection H as <- <-.
  eexists. split.
  - apply deref_Ok. cbn. rewrite lookup_app_r by reflexivity.
    rewrite Nat.sub_diag. reflexivity.
  - cbn. auto.
Qed.

(** C9. The factory [addTubule] does not apply the [width] override: in a
    substrate of width 400, [addTubule(j1, j2, width=200)] returns a
    tubule of width 400, and [addTubule(j1, j2, growth=0.7)] one of
    width 0.7 instead of the substrate's width. *)
Theorem addTubule_width_override_ignored :
  (∃ w t tb,
      addTubule 0%nat 1%nat (mk_tubule_kargs None None (Some 200%float) None)
        two_junctions = Ok (w, t)
      ∧ tubule w t = Ok tb
      ∧ Tubule.width tb = 400%float)
  ∧ (∃ w t tb,
      addTubule 0%nat 1%nat (mk_tubule_kargs None (Some 0.7%float) None None)
        two_junctions = Ok (w, t)
      ∧ tubule w t = Ok tb
      ∧ Tubule.growth tb = 0.7%float
      ∧ Tubule.width tb = 0.7%float).
Proof.
  split; do 3 eexists; (by_running).
Qed.

(** *** Substrate.mergeTubule and the adjacency lists *)

Lemma symmetricb_spec (w : World) : symmetricb w = true ↔ symmetric w.
Proof.
  unfold symmetricb, symmetric. rewrite forallb_forall. split.
  - intros H a b ja jb Ha Hb.
    assert (La : (a < length (jstore w))%nat) by (eapply lookup_lt_Some; eauto).
    assert (Lb : (b < length (jstore w))%nat) by (eapply lookup_lt_Some; eauto).
    specialize (H a). rewrite in_seq, forallb_forall in H.
    specialize (H ltac:(lia) b). rewrite in_seq in H. specialize (H ltac:(lia)).
    rewrite Ha, Hb in H. apply eqb_prop in H. unfold contains in H.
    destruct (bool_decide_reflect (a ∈ Junction.adjacent jb));
      destruct (bool_decide_reflect (b ∈ Junction.adjacent ja));
      try discriminate; tauto.
  - intros H a _. rewrite forallb_forall. intros b _.
    destruct (jstore w !! a) as [ja|] eqn:Ha; [|reflexivity].
    destruct (jstore w !! b) as [jb|] eqn:Hb; [|reflexivity].
    specialize (H a b ja jb Ha Hb). unfold contains.
    destruct (bool_decide_reflect (a ∈ Junction.adjacent jb));
      destruct (bool_decide_reflect (b ∈ Junction.adjacent ja));
      try reflexivity; tauto.
Qed.

(** C1. In the scene where the growing tip j = 3 (just_split cleared, not
    adjacent to either end) has reached the tubule 0 from a = 0 to b = 1,
    [mergeTubule(j)] clears [j.growing] and marks the tubule, but on return
    the adjacency list of j is [c] alone: it holds neither a nor b, which
    [addTubule] appended and the two [remove] calls took out again. *)
Theorem mergeTubule_drops_tip_adjacency :
  ∃ w w' j,
    merge_scene = Ok w
    ∧ junction w 3%nat = Ok j
    ∧ Junction.growing j = true ∧ Junction.just_split j = false
    ∧ adjacency w = [[1]; [0]; [3]; [2]]%nat
    ∧ mergeTubule 3%nat w = Ok w'
    ∧ Junction.growing <$> jstore w' !! 3%nat = Some false
    ∧ marked w' = [true; false; false; false]
    ∧ Junction.adjacent <$> jstore w' !! 3%nat = Some [2%nat].
Proof.
  do 3 eexists. by_running.
Qed.

(** C2. [mergeTubule] does not restore the symmetry of [adjacent]: the
    scene is symmetric when [mergeTubule(j)] is entered, and when it
    returns j = 3 is in the lists of a = 0 and b = 1 while neither is in
    the list of j. *)
Theorem mergeTubule_breaks_symmetry :
  ∃ w w',
    merge_scene = Ok w
    ∧ symmetric w
    ∧ mergeTubule 3%nat w = Ok w'
    ∧ adjacency w' = [[1; 3]; [0; 3]; [3]; [2]]%nat
    ∧ ¬ symmetric w'.
Proof.
  do 2 eexists. split; [vm_compute; reflexivity|].
  split; [apply symmetricb_spec; vm_compute; reflexivity|].
  split; [vm_compute; reflexivity|].
  split; [vm_compute; reflexivity|].
  rewrite <- symmetricb_spec. vm_compute. discriminate.
Qed.

(** The same holds of every merge. *)

Lemma adjoin_adjacent (r1 r2 q : jref) (js : list Junction.t) :
  Junction.adjacent <$> adjoin r1 r2 js !! q
  = (fun a => (a ++ (if decide (q = r1) then [r2] else []))
                ++ (if decide (q = r2) then [r1] else []))
      <$> (Junction.adjacent <$> js !! q).
Proof.
  unfold adjoin. rewrite !list_lookup_alter.
  repeat case_decide; subst; try congruence;
    destruct (js !! q) as [j|]; cbn; rewrite ?app_nil_r; reflexivity.
Qed.

Lemma elem_of_adjoined (a q r1 r2 : jref) (l : list jref) :
  a ∈ (l ++ (if decide (q = r1) then [r2] else []))
        ++ (if decide (q = r2) then [r1] else [])
  ↔ a ∈ l ∨ (q = r1 ∧ a = r2) ∨ (q = r2 ∧ a = r1).
Proof.
  rewrite !elem_of_app.
  destruct (decide (q = r1)), (decide (q = r2));
    rewrite ?list_elem_of_singleton, ?elem_of_nil; intuition congruence.
Qed.

(** [addTubule] keeps [adjacent] symmetric. *)
Lemma addTubule_symmetric (r1 r2 : jref) (k : tubule_kargs) (w w' : World) (t : tref) :
  symmetric w → addTubule r1 r2 k w = Ok (w', t) → symmetric w'.
Proof.
  intros Hs H.
  assert ((r1 < length (jstore w))%nat ∧ (r2 < length (jstore w))%nat) as [L1 L2].
  { unfold addTubule, junction in H. inv_bind H.
    apply deref_Ok in E, E0. split; eapply lookup_lt_Some; eauto. }
  destruct (addTubule_Ok r1 r2 k w L1 L2) as (tb & E & _).
  rewrite E in H. injection H as <- _.
  intros a b ja jb Ha Hb. cbn [jstore] in Ha, Hb.
  pose proof (adjoin_adjacent r1 r2 a (jstore w)) as Aa.
  pose proof (adjoin_adjacent r1 r2 b (jstore w)) as Ab.
  rewrite Ha in Aa. rewrite Hb in Ab.
  destruct (jstore w !! a) as [ja0|] eqn:Ea; [|discriminate].
  destruct (jstore w !! b) as [jb0|] eqn:Eb; [|discriminate].
  cbn in Aa, Ab. injection Aa as ->. injection Ab as ->.
  rewrite !elem_of_adjoined. specialize (Hs a b ja0 jb0 Ea Eb). tauto.
Qed.

Lemma list_remove_app (x : jref) (l k : list jref) :
  x ∉ l → list_remove x (l ++ x :: k) = Ok (l ++ k).
Proof.
  induction l as [|y l IH]; intros H; cbn.
  - rewrite decide_True by reflexivity. reflexivity.
  - apply not_elem_of_cons in H as [N H].
    rewrite decide_False by exact N. rewrite (IH H). reflexivity.
Qed.

(** Once the tip [r] has hit the tubule [t], which it is no end of and
    whose ends are not in its list: the merge returns normally; the list
    of [r] is what it was before, so it holds neither end; [r] is in the
    list of [t.j1]; [r] has stopped growing and [t] is marked. *)
Lemma merge_into_effect (r : jref) (t : tref) (w : World)
    (tb : Tubule.t) (j e1 e2 : Junction.t) :
  tstore w !! t = Some tb →
  jstore w !! r = Some j →
  jstore w !! Tubule.j1 tb = Some e1 →
  jstore w !! Tubule.j2 tb = Some e2 →
  r ≠ Tubule.j1 tb → r ≠ Tubule.j2 tb →
  Tubule.j1 tb ∉ Junction.adjacent j →
  Tubule.j2 tb ∉ Junction.adjacent j →
  ∃ w' j' e1',
    merge_into r t w = Ok w'
    ∧ jstore w' !! r = Some j'
    ∧ Junction.adjacent j' = Junction.adjacent j
    ∧ Junction.growing j' = false
    ∧ jstore w' !! Tubule.j1 tb = Some e1'
    ∧ r ∈ Junction.adjacent e1'
    ∧ Tubule.to_remove <$> tstore w' !! t = Some true.
Proof.
  intros Ht Hj H1 H2 N1 N2 A1 A2.
  assert (Lr : (r < length (jstore w))%nat) by (eapply lookup_lt_Some; eauto).
  assert (L1 : (Tubule.j1 tb < length (jstore w))%nat) by (eapply lookup_lt_Some; eauto).
  assert (L2 : (Tubule.j2 tb < length (jstore w))%nat) by (eapply lookup_lt_Some; eauto).
  assert (Lt : (t < length (tstore w))%nat) by (eapply lookup_lt_Some; eauto).
  unfold merge_into, tubule, junction.
  rewrite (proj2 (deref_Ok _ _ _) Ht). cbn [mbind result_bind].
  rewrite (proj2 (deref_Ok _ _ _) Hj). cbn [mbind result_bind].
  rewrite (proj2 (deref_Ok _ _ _) H1). cbn [mbind result_bind].
  rewrite (proj2 (deref_Ok _ _ _) H2). cbn [mbind result_bind].
  destruct (end_crossovers _ _ _ _) as [c1 c2].
  destruct (addTubule_Ok r (Tubule.j1 tb) (kw_crossover c1) w Lr L1) as (t1 & -> & _).
  cbn [mbind result_bind].
  match goal with |- context [addTubule ?a ?b ?k ?w0] =>
    destruct (addTubule_Ok a b k w0) as (t2 & -> & _); [sizes | sizes |] end.
  cbn [mbind result_bind jstore tstore substrate].
  set (js := adjoin r (Tubule.j2 tb) (adjoin r (Tubule.j1 tb) (jstore w))).
  assert (Hr : Junction.adjacent <$> js !! r
               = Some ((Junction.adjacent j ++ [Tubule.j1 tb]) ++ [Tubule.j2 tb])).
  { unfold js. rewrite !adjoin_adjacent, Hj. cbn.
    repeat case_decide; try congruence. rewrite !app_nil_r. reflexivity. }
  assert (Ha : ∃ e, js !! Tubule.j1 tb = Some e ∧ r ∈ Junction.adjacent e).
  { assert (∃ l, Junction.adjacent <$> js !! Tubule.j1 tb = Some l ∧ r ∈ l)
      as (l & E & Hin).
    { unfold js. rewrite !adjoin_adjacent, H1. cbn. eexists. split; [reflexivity|].
      rewrite !elem_of_adjoined. left. right. right. auto. }
    destruct (js !! Tubule.j1 tb) as [e|]; [|discriminate].
    exists e. injection E as ->. auto. }
  destruct (js !! r) as [jr|] eqn:Er; [|discriminate]. cbn in Hr. injection Hr as Hr.
  destruct Ha as (e & He & Hin).
  assert (Ljs : (r < length js)%nat) by (eapply lookup_lt_Some; eauto).
  rewrite (proj2 (deref_Ok _ _ _) Er). cbn [mbind result_bind].
  rewrite Hr.
  replace ((Junction.adjacent j ++ [Tubule.j1 tb]) ++ [Tubule.j2 tb])
    with (Junction.adjacent j ++ Tubule.j1 tb :: [Tubule.j2 tb])
    by (rewrite <- app_assoc; reflexivity).
  rewrite (list_remove_app _ _ _ A1). cbn [mbind result_bind].
  cbn [put_junction set_jstore jstore tstore substrate].
  rewrite (proj2 (deref_Ok _ _ _) (list_lookup_insert_eq _ _ _ Ljs)).
  cbn [mbind result_bind Junction.adjacent Junction.set_adjacent].
  rewrite (list_remove_app _ _ _ A2), app_nil_r. cbn [mbind result_bind].
  rewrite modify_junction_lt by sizes. cbn [mbind result_bind].
  cbn [tstore set_jstore put_junction].
  assert (Hlook : ((tstore w ++ [t1]) ++ [t2]) !! t = Some tb).
  { rewrite !lookup_app_l by sizes. exact Ht. }
  rewrite (proj2 (deref_Ok _ _ _) Hlook). cbn [mbind result_bind mret result_ret].
  do 3 eexists. split; [reflexivity|].
  cbn [jstore tstore substrate put_tubule set_tstore put_junction set_jstore].
  rewrite list_lookup_alter_eq, !list_lookup_insert_eq
    by (rewrite ?length_insert; exact Ljs).
  cbn. split; [reflexivity|]. split; [reflexivity|]. split; [reflexivity|].
  rewrite list_lookup_alter_ne, !list_lookup_insert_ne by congruence.
  split; [exact He|]. split; [exact Hin|].
  rewrite list_lookup_insert_eq by sizes. reflexivity.
Qed.

(** So no merge leaves [adjacent] symmetric. *)
Lemma merge_into_asymmetric (r : jref) (t : tref) (w w' : World)
    (tb : Tubule.t) (j e1 e2 : Junction.t) :
  tstore w !! t = Some tb →
  jstore w !! r = Some j →
  jstore w !! Tubule.j1 tb = Some e1 →
  jstore w !! Tubule.j2 tb = Some e2 →
  r ≠ Tubule.j1 tb → r ≠ Tubule.j2 tb →
  Tubule.j1 tb ∉ Junction.adjacent j →
  Tubule.j2 tb ∉ Junction.adjacent j →
  merge_into r t w = Ok w' →
  ¬ symmetric w'.
Proof.
  intros Ht Hj H1 H2 N1 N2 A1 A2 Hm Hs.
  destruct (merge_into_effect r t w tb j e1 e2 Ht Hj H1 H2 N1 N2 A1 A2)
    as (w0 & j' & e1' & Hm0 & Hj' & Hadj & _ & He1' & Hin & _).
  rewrite Hm in Hm0. injection Hm0 as <-.
  apply (Hs r (Tubule.j1 tb) j' e1' Hj' He1') in Hin.
  rewrite Hadj in Hin. contradiction.
Qed.

(** *** The contraction scenario *)

(** An anchored junction outside any flow is not moved. *)
Lemma moveJunction_anchored_still (j : Junction.t) :
  Junction.anchor j = true → Junction.flowing j = false →
  Junction.moveJunction j = j.
Proof.
  intros Ha Hf. unfold Junction.moveJunction. rewrite Ha. cbn.
  rewrite Hf, Ha. reflexivity.
Qed.

(** A tubule between two anchored junctions pulls on neither. *)
Lemma contractTubule_anchored (t : tref) (w : World) (tb : Tubule.t)
    (e1 e2 : Junction.t) :
  tubule w t = Ok tb →
  junction w (Tubule.j1 tb) = Ok e1 → Junction.anchor e1 = true →
  junction w (Tubule.j2 tb) = Ok e2 → Junction.anchor e2 = true →
  contractTubule t w = Ok w.
Proof.
  intros Ht H1 A1 H2 A2. unfold contractTubule.
  rewrite Ht. cbn [mbind result_bind].
  rewrite H1. cbn [mbind result_bind]. rewrite A1.
  cbn [negb andb mbind result_bind mret result_ret].
  rewrite H2. cbn [mbind result_bind]. rewrite A2. reflexivity.
Qed.

Lemma ticks_fixed (w : World) :
  updateSubstrate w = Ok w → ∀ n, ticks n w = Ok w.
Proof.
  intros H n. induction n as [|n IH]; [reflexivity|].
  cbn [ticks]. rewrite H. exact IH.
Qed.

(** C3. In the scenario the four endpoints are anchored, so no tick moves
    them: after any number of ticks the two norms are the initial ones,
    400.78048854703491 and 401.1234224026316. *)
Theorem contraction_scene_norms_unchanged :
  ∃ w, contraction_scene = Ok w
    ∧ norms w = [400.78048854703491; 401.1234224026316]%float
    ∧ ∀ n, ∃ w', ticks n w = Ok w' ∧ norms w' = norms w.
Proof.
  eexists. split; [vm_compute; reflexivity|].
  split; [vm_compute; reflexivity|].
  intros n. eexists. split; [|reflexivity].
  apply ticks_fixed. vm_compute. reflexivity.
Qed.

(** C3, as stated, fails: after 1000 ticks neither norm is smaller than
    its initial value. *)
Lemma contraction_scene_not_shrunk :
  ∃ w w', contraction_scene = Ok w
    ∧ ticks 1000 w = Ok w'
    ∧ norms w = [400.78048854703491; 401.1234224026316]%float
    ∧ norms w' = [400.78048854703491; 401.1234224026316]%float
    ∧ PrimFloat.ltb 400.78048854703491 400.78048854703491 = false
    ∧ PrimFloat.ltb 401.1234224026316 401.1234224026316 = false.
Proof.
  do 2 eexists. by_running.
Qed.

(** *** Tubule.updateTubule *)

(** C4, as amended. When the cached vector is finite (so that
    [vector -= vector] leaves zeros), [updateTubule] returns normally,
    touches no junction and leaves in [vector] the float64 value of
    [((0 + j2.position) + (width * crossover, 0)) - j1.position], each
    operation rounded in this order. *)
Theorem updateTubule_vector (t : tref) (w : World) (tb : Tubule.t) (e1 e2 : Junction.t) :
  tubule w t = Ok tb →
  junction w (Tubule.j1 tb) = Ok e1 →
  junction w (Tubule.j2 tb) = Ok e2 →
  finite_vec (Tubule.vector tb) →
  ∃ w' tb',
    updateTubule t w = Ok w'
    ∧ tubule w' t = Ok tb'
    ∧ jstore w' = jstore w
    ∧ Tubule.j1 tb' = Tubule.j1 tb ∧ Tubule.j2 tb' = Tubule.j2 tb
    ∧ Tubule.width tb' = Tubule.width tb
    ∧ Tubule.crossover tb' = Tubule.crossover tb
    ∧ Tubule.vector tb'
      = (PrimFloat.sub
           (PrimFloat.add (PrimFloat.add 0 (fst (Junction.position e2)))
                          (Tubule.correction (Tubule.width tb') (Tubule.crossover tb')))
           (fst (Junction.position e1)),
         PrimFloat.sub (PrimFloat.add 0 (snd (Junction.position e2)))
                       (snd (Junction.position e1)))
    ∧ Tubule.norm tb' = Np.norm (Tubule.vector tb').
Proof.
  intros Ht H1 H2 Hz. apply sub_self_vec in Hz.
  unfold updateTubule. rewrite Ht. cbn [mbind result_bind].
  rewrite H1, H2. cbn [mbind result_bind mret result_ret].
  do 2 eexists. split; [reflexivity|].
  split.
  { unfold tubule, put_tubule. cbn. apply deref_Ok, list_lookup_insert_eq.
    apply deref_Ok in Ht. eapply lookup_lt_Some, Ht. }
  cbn. unfold Tubule.updated_vector. rewrite Hz. cbn. auto 10.
Qed.

Lemma updateTubule_vector_witness :
  ∃ w' tb',
    updateTubule 0%nat (the wrapped_scene) = Ok w'
    ∧ tubule w' 0%nat = Ok tb'
    ∧ Tubule.vector tb' = (200.10000000000002, 0)%float.
Proof.
  destruct (updateTubule_vector 0%nat (the wrapped_scene)
              (Tubule.mk 0%nat 1%nat 400 1 (-199.9, 0)%float 199.9
                 (-1, 0)%float 0.00005 0.5 true false)
              (Junction.mk (200, 100)%float (0, 0)%float (0, 0)%float false false false
                 (0, -0.0000001)%float 0.99 0 400 [1%nat] true)
              (Junction.mk (0.1, 100)%float (0, 0)%float (0, 0)%float false false false
                 (0, -0.0000001)%float 0.99 0 400 [0%nat] true)
              eq_refl eq_refl eq_refl (conj eq_refl eq_refl))
    as (w' & tb' & Hu & Ht & _ & _ & _ & Hw & Hc & Hv & _).
  exists w', tb'. split; [exact Hu|]. split; [exact Ht|].
  rewrite Hv, Hw, Hc. reflexivity.
Defined.

(** C4, as stated, fails: for the tubule across the boundary from
    (200, 100) to (0.1, 100), [updateTubule] leaves
    [vector[0] = (0.1 + 400) - 200 = 200.10000000000002], while
    [j2.position - j1.position + (crossover * width, 0)] has
    [(0.1 - 200) + 400 = 200.1] there. *)
Lemma updateTubule_vector_not_spec :
  ∃ w w' tb e1 e2,
    wrapped_scene = Ok w
    ∧ updateTubule 0%nat w = Ok w'
    ∧ tubule w' 0%nat = Ok tb
    ∧ junction w' (Tubule.j1 tb) = Ok e1
    ∧ junction w' (Tubule.j2 tb) = Ok e2
    ∧ Tubule.vector tb = (200.10000000000002, 0)%float
    ∧ spec_vector tb (Junction.position e1) (Junction.position e2) = (200.1, 0)%float
    ∧ array_equal (Tubule.vector tb)
        (spec_vector tb (Junction.position e1) (Junction.position e2)) = false.
Proof.
  do 5 eexists. by_running.
Qed.

(** *** Substrate.wrapSubstrate *)

Lemma bump_up_range (z : Z) : in_unit_range z → in_unit_range (bump_up z).
Proof.
  unfold in_unit_range, bump_up. intros H.
  destruct (1 <? z + 1) eqn:E; [lia|]. apply Z.ltb_ge in E. lia.
Qed.

Lemma bump_down_range (z : Z) : in_unit_range z → in_unit_range (bump_down z).
Proof.
  unfold in_unit_range, bump_down. intros H.
  destruct (z - 1 <? -1) eqn:E; [lia|]. apply Z.ltb_ge in E. lia.
Qed.

Lemma cross_after_put (l : list Junction.t) (r q : jref) (j e : Junction.t) (x : Z) :
  l !! q = Some e →
  in_unit_range x → in_unit_range (Junction.cross e) →
  ∃ e', <[r := Junction.set_cross x j]> l !! q = Some e'
        ∧ in_unit_range (Junction.cross e').
Proof.
  intros Hq Rx Re. rewrite list_lookup_insert. case_decide; eauto.
Qed.

Lemma wrap_inv_step (t : tref) (r1 r2 r : jref) (w : World)
    (tb : Tubule.t) (j : Junction.t) (c x : Z) :
  wrap_inv t r1 r2 w →
  tstore w !! t = Some tb →
  in_unit_range c → in_unit_range x →
  wrap_inv t r1 r2
    (put_junction r (Junction.set_cross x j)
       (put_tubule t (Tubule.set_crossover c tb) w)).
Proof.
  intros (tb0 & e1 & e2 & Ht0 & <- & <- & H1 & H2 & _ & R1 & R2) Ht Rc Rx.
  assert (tb0 = tb) as -> by congruence.
  assert (Lt : (t < length (tstore w))%nat) by (eapply lookup_lt_Some; eauto).
  destruct (cross_after_put (jstore w) r (Tubule.j1 tb) j e1 x H1 Rx R1) as (e1' & H1' & R1').
  destruct (cross_after_put (jstore w) r (Tubule.j2 tb) j e2 x H2 Rx R2) as (e2' & H2' & R2').
  exists (Tubule.set_crossover c tb), e1', e2'.
  unfold put_junction, put_tubule. cbn.
  rewrite list_lookup_insert_eq by exact Lt. auto 10.
Qed.

Lemma wrap_end_inv (t : tref) (r1 r2 : jref) (e : Tubule.t → jref)
    (out back : Z → Z) (w : World) :
  wrap_inv t r1 r2 w →
  (∀ tb, e tb = Tubule.j1 tb ∨ e tb = Tubule.j2 tb) →
  (∀ z, in_unit_range z → in_unit_range (out z)) →
  (∀ z, in_unit_range z → in_unit_range (back z)) →
  ∃ w', wrap_end t e out back w = Ok w' ∧ wrap_inv t r1 r2 w'.
Proof.
  intros Hinv He Hout Hback.
  pose proof Hinv as (tb & e1 & e2 & Ht & <- & <- & H1 & H2 & Rc & R1 & R2).
  assert (∃ j, jstore w !! e tb = Some j ∧ in_unit_range (Junction.cross j))
    as (j & Hj & Rj).
  { destruct (He tb) as [-> | ->]; eauto. }
  unfold wrap_end, tubule, junction.
  rewrite (proj2 (deref_Ok _ _ _) Ht). cbn [mbind result_bind].
  rewrite (proj2 (deref_Ok _ _ _) Hj). cbn [mbind result_bind].
  destruct (Np.gtb _ _); [|destruct (PrimFloat.ltb _ _)].
  - unfold modify_junction, junction. cbn [jstore put_tubule set_tstore].
    rewrite (proj2 (deref_Ok _ _ _) Hj). cbn [mbind result_bind mret result_ret].
    eexists. split; [reflexivity|].
    apply wrap_inv_step; auto using bump_up_range.
  - unfold modify_junction, junction. cbn [jstore put_tubule set_tstore].
    rewrite (proj2 (deref_Ok _ _ _) Hj). cbn [mbind result_bind mret result_ret].
    eexists. split; [reflexivity|].
    apply wrap_inv_step; auto using bump_down_range.
  - eexists. split; [reflexivity|exact Hinv].
Qed.

(** C8. If the crossover of a tubule and the crosses of its two ends are
    within [-1, 1], then [wrapSubstrate(t)] returns normally and they are
    within [-1, 1] afterwards; the tubule keeps its ends. *)
Theorem wrapSubstrate_keeps_unit_range (t : tref) (w : World)
    (tb : Tubule.t) (e1 e2 : Junction.t) :
  tubule w t = Ok tb →
  junction w (Tubule.j1 tb) = Ok e1 →
  junction w (Tubule.j2 tb) = Ok e2 →
  in_unit_range (Tubule.crossover tb) →
  in_unit_range (Junction.cross e1) →
  in_unit_range (Junction.cross e2) →
  ∃ w' tb' e1' e2',
    wrapSubstrate t w = Ok w'
    ∧ tubule w' t = Ok tb'
    ∧ Tubule.j1 tb' = Tubule.j1 tb ∧ Tubule.j2 tb' = Tubule.j2 tb
    ∧ junction w' (Tubule.j1 tb) = Ok e1'
    ∧ junction w' (Tubule.j2 tb) = Ok e2'
    ∧ in_unit_range (Tubule.crossover tb')
    ∧ in_unit_range (Junction.cross e1')
    ∧ in_unit_range (Junction.cross e2').
Proof.
  intros Ht H1 H2 Rc R1 R2.
  apply deref_Ok in Ht, H1, H2.
  assert (Hinv : wrap_inv t (Tubule.j1 tb) (Tubule.j2 tb) w).
  { exists tb, e1, e2. auto 10. }
  assert (∃ w', wrapSubstrate t w = Ok w'
                ∧ wrap_inv t (Tubule.j1 tb) (Tubule.j2 tb) w') as (w' & Hw & Hinv').
  { unfold wrapSubstrate. destruct (Substrate.wrap_x (substrate w)).
    - destruct (wrap_end_inv t _ _ Tubule.j1 bump_down bump_up w Hinv)
        as (w1 & E1 & I1); auto using bump_up_range, bump_down_range.
      rewrite E1. cbn [mbind result_bind].
      apply wrap_end_inv; auto using bump_up_range, bump_down_range.
    - unfold tubule. rewrite (proj2 (deref_Ok _ _ _) Ht).
      exists w. split; [reflexivity | exact Hinv]. }
  destruct Hinv' as (tb' & e1' & e2' & Ht' & J1 & J2 & H1' & H2' & Rc' & R1' & R2').
  exists w', tb', e1', e2'. unfold tubule, junction.
  rewrite !deref_Ok. auto 10.
Qed.

Lemma wrapSubstrate_keeps_unit_range_witness :
  ∃ w' tb' e1' e2',
    wrapSubstrate 0%nat (the escaped_scene) = Ok w'
    ∧ tubule w' 0%nat = Ok tb'
    ∧ Tubule.j1 tb' = 0%nat ∧ Tubule.j2 tb' = 1%nat
    ∧ junction w' 0%nat = Ok e1'
    ∧ junction w' 1%nat = Ok e2'
    ∧ in_unit_range (Tubule.crossover tb')
    ∧ in_unit_range (Junction.cross e1')
    ∧ in_unit_range (Junction.cross e2').
Proof.
  refine (wrapSubstrate_keeps_unit_range 0%nat (the escaped_scene) _ _ _
            eq_refl eq_refl eq_refl _ _ _);
    unfold in_unit_range; simpl; lia.
Defined.

(** *** Tubules of length zero *)

(** C6, as amended. Nothing guards a division by a norm of zero, and
    none raises.
    (1) For a tubule whose two ends are at the same finite point
    (crossover 0), the constructor and [updateTubule] set [unit] to
    (NaN, NaN), the value of 0/0.
    (2) In [mergeTubule], for any tubule [t] and a tip at the finite
    position of [t.j1]. Where no wrap correction applies to the
    displacement (crossover 0; or crossover > 0 and the tip not left of
    [t.j2]; or crossover < 0 and the tip not right of [t.j2]): the
    displacement is (0, 0) and its unit [j.vector / j_norm] is
    (NaN, NaN); [mergeTubule] either skips [t] (the tip is adjacent to
    one of its ends) or sets [j.vector] to (0, 0) and finds the
    collinearity test false; either way the tip does not merge into [t].
    Where the correction applies and [t] is not skipped, the displacement
    is not zero but (0 + width, 0), for a positive crossover, or
    (0 - width, 0), for a negative one. *)
Theorem zero_length_unit_is_nan (t : tref) (w : World) (tb : Tubule.t)
    (e1 e2 j : Junction.t) (r : jref) :
  tubule w t = Ok tb →
  junction w (Tubule.j1 tb) = Ok e1 →
  junction w (Tubule.j2 tb) = Ok e2 →
  finite_vec (Junction.position e1) →
  (finite_vec (Tubule.vector tb) → finite (Tubule.width tb) →
   Tubule.crossover tb = 0 →
   Junction.position e2 = Junction.position e1 →
   Tubule.unit (Tubule.init (Tubule.j1 tb) (Tubule.j2 tb)
                  (Junction.position e1) (Junction.position e2))
     = (PrimFloat.nan, PrimFloat.nan)
   ∧ ∃ w' tb',
       updateTubule t w = Ok w'
       ∧ tubule w' t = Ok tb'
       ∧ Tubule.norm tb' = PrimFloat.zero
       ∧ Tubule.unit tb' = (PrimFloat.nan, PrimFloat.nan))
  ∧ (Junction.position j = Junction.position e1 →
     ((0 < Tubule.crossover tb →
       PrimFloat.ltb (fst (Junction.position j)) (fst (Junction.position e2)) = false) →
      (Tubule.crossover tb < 0 →
       Np.gtb (fst (Junction.position j)) (fst (Junction.position e2)) = false) →
      Np.divs (Np.sub (Junction.position j) (Junction.position e1))
        (Np.norm (Np.sub (Junction.position j) (Junction.position e1)))
        = (PrimFloat.nan, PrimFloat.nan)
      ∧ (merge_test (substrate w) r j tb e1 e2 = Attached
         ∨ merge_test (substrate w) r j tb e1 e2 = Miss Np.zeros)
      ∧ ∀ v, merge_test (substrate w) r j tb e1 e2 ≠ Hit v)
     ∧ (0 < Tubule.crossover tb →
        PrimFloat.ltb (fst (Junction.position j)) (fst (Junction.position e2)) = true →
        ∀ v, merge_test (substrate w) r j tb e1 e2 = Miss v
             ∨ merge_test (substrate w) r j tb e1 e2 = Hit v →
             v = (PrimFloat.add PrimFloat.zero (Substrate.width (substrate w)),
                  PrimFloat.zero))
     ∧ (Tubule.crossover tb < 0 →
        Np.gtb (fst (Junction.position j)) (fst (Junction.position e2)) = true →
        ∀ v, merge_test (substrate w) r j tb e1 e2 = Miss v
             ∨ merge_test (substrate w) r j tb e1 e2 = Hit v →
             v = (PrimFloat.sub PrimFloat.zero (Substrate.width (substrate w)),
                  PrimFloat.zero))).
Proof.
  intros Ht H1 H2 Fp. split.
  - intros Fv Fw Hc E2. split.
    + unfold Tubule.init. cbn [Tubule.unit]. rewrite E2, sub_self_vec by exact Fp.
      reflexivity.
    + unfold updateTubule. rewrite Ht. cbn [mbind result_bind].
      rewrite H1, H2. cbn [mbind result_bind mret result_ret].
      assert (Tubule.updated_vector tb (Junction.position e1) (Junction.position e2)
              = Np.zeros) as ->.
      { unfold Tubule.updated_vector, Tubule.correction.
        rewrite E2, Hc, sub_self_vec by exact Fv.
        destruct Fp as [Fx Fy]. destruct (Junction.position e1) as [x y].
        unfold Np.add, Np.add0, Np.sub, Np.zeros. cbn [fst snd] in *.
        change (Np.of_int 0) with PrimFloat.zero.
        rewrite add_sub_cancel by auto using mul_zero_like.
        rewrite add_sub_cancel0 by assumption. reflexivity. }
      do 2 eexists. split; [reflexivity|]. split.
      { unfold tubule, put_tubule. apply deref_Ok, list_lookup_insert_eq.
        apply deref_Ok in Ht. eapply lookup_lt_Some, Ht. }
      split; reflexivity.
  - intros Ej.
    assert (Ez : Np.sub (Junction.position j) (Junction.position e1) = Np.zeros).
    { rewrite Ej. apply sub_self_vec, Fp. }
    assert (Hmiss : ∀ n : float,
              (if Np.gtb (Np.norm Np.zeros) n then Miss Np.zeros
               else if Np.gtb (Np.dot (Np.divs Np.zeros (Np.norm Np.zeros)) (Tubule.unit tb))
                              (col_check (Np.norm Np.zeros))
                    then Hit Np.zeros else Miss Np.zeros) = Miss Np.zeros).
    { intros n. destruct (Np.gtb _ n); [reflexivity|].
      change (Np.norm Np.zeros) with PrimFloat.zero.
      change (Np.divs Np.zeros PrimFloat.zero) with (PrimFloat.nan, PrimFloat.nan).
      unfold Np.dot, Np.gtb. cbn [fst snd]. rewrite !mul_nan.
      change (PrimFloat.add PrimFloat.nan PrimFloat.nan) with PrimFloat.nan.
      rewrite ltb_nan. reflexivity. }
    split; [|split].
    + intros Hpos Hneg.
      assert (Hm : merge_test (substrate w) r j tb e1 e2 = Attached
                   ∨ merge_test (substrate w) r j tb e1 e2 = Miss Np.zeros).
      { unfold merge_test.
        destruct (contains r _); [left; reflexivity|].
        destruct (contains r _); [left; reflexivity|].
        right. rewrite Ez. cbv zeta.
        destruct (0 <? Tubule.crossover tb) eqn:E1.
        - rewrite (Hpos (proj1 (Z.ltb_lt _ _) E1)). apply Hmiss.
        - destruct (Tubule.crossover tb <? 0) eqn:E2'.
          + rewrite (Hneg (proj1 (Z.ltb_lt _ _) E2')). apply Hmiss.
          + apply Hmiss. }
      split; [rewrite Ez; reflexivity|]. split; [exact Hm|].
      intros v. destruct Hm as [-> | ->]; discriminate.
    + intros Hc Hlt v. unfold merge_test.
      destruct (contains r _); [intros [?|?]; discriminate|].
      destruct (contains r _); [intros [?|?]; discriminate|].
      rewrite Ez. cbv zeta. rewrite (proj2 (Z.ltb_lt _ _) Hc), Hlt.
      unfold Np.add0, Np.zeros. cbn [fst snd].
      intros [E|E]; repeat case_match; simplify_eq; reflexivity.
    + intros Hc Hgt v. unfold merge_test.
      destruct (contains r _); [intros [?|?]; discriminate|].
      destruct (contains r _); [intros [?|?]; discriminate|].
      rewrite Ez. cbv zeta.
      assert ((0 <? Tubule.crossover tb) = false) as -> by (apply Z.ltb_ge; lia).
      rewrite (proj2 (Z.ltb_lt _ _) Hc), Hgt.
      unfold Np.zeros. cbn [fst snd].
      intros [E|E]; repeat case_match; simplify_eq; reflexivity.
Qed.

Lemma zero_length_unit_is_nan_witness :
  (∃ w' tb',
      updateTubule 0%nat (the point_scene) = Ok w'
      ∧ tubule w' 0%nat = Ok tb'
      ∧ Tubule.norm tb' = PrimFloat.zero
      ∧ Tubule.unit tb' = (PrimFloat.nan, PrimFloat.nan))
  ∧ (Np.divs (Np.sub (Junction.position (the_junction (the tip_at_end_scene) 3%nat))
                (Junction.position (the_junction (the tip_at_end_scene) 0%nat)))
       (Np.norm (Np.sub (Junction.position (the_junction (the tip_at_end_scene) 3%nat))
                   (Junction.position (the_junction (the tip_at_end_scene) 0%nat))))
     = (PrimFloat.nan, PrimFloat.nan)
     ∧ ∀ v, merge_test (substrate (the tip_at_end_scene)) 3%nat
              (the_junction (the tip_at_end_scene) 3%nat)
              (the_tubule (the tip_at_end_scene) 0%nat)
              (the_junction (the tip_at_end_scene) 0%nat)
              (the_junction (the tip_at_end_scene) 1%nat) ≠ Hit v)
  ∧ (∀ v, merge_test (substrate (the (tip_at_wrapped_end_scene 10 50 1))) 3%nat
            (the_junction (the (tip_at_wrapped_end_scene 10 50 1)) 3%nat)
            (the_tubule (the (tip_at_wrapped_end_scene 10 50 1)) 0%nat)
            (the_junction (the (tip_at_wrapped_end_scene 10 50 1)) 0%nat)
            (the_junction (the (tip_at_wrapped_end_scene 10 50 1)) 1%nat) = Miss v
          ∨ merge_test (substrate (the (tip_at_wrapped_end_scene 10 50 1))) 3%nat
              (the_junction (the (tip_at_wrapped_end_scene 10 50 1)) 3%nat)
              (the_tubule (the (tip_at_wrapped_end_scene 10 50 1)) 0%nat)
              (the_junction (the (tip_at_wrapped_end_scene 10 50 1)) 0%nat)
              (the_junction (the (tip_at_wrapped_end_scene 10 50 1)) 1%nat) = Hit v →
          v = (PrimFloat.add PrimFloat.zero
                 (Substrate.width (substrate (the (tip_at_wrapped_end_scene 10 50 1)))),
               PrimFloat.zero))
  ∧ (∀ v, merge_test (substrate (the (tip_at_wrapped_end_scene 50 10 (-1)))) 3%nat
            (the_junction (the (tip_at_wrapped_end_scene 50 10 (-1))) 3%nat)
            (the_tubule (the (tip_at_wrapped_end_scene 50 10 (-1))) 0%nat)
            (the_junction (the (tip_at_wrapped_end_scene 50 10 (-1))) 0%nat)
            (the_junction (the (tip_at_wrapped_end_scene 50 10 (-1))) 1%nat) = Miss v
          ∨ merge_test (substrate (the (tip_at_wrapped_end_scene 50 10 (-1)))) 3%nat
              (the_junction (the (tip_at_wrapped_end_scene 50 10 (-1))) 3%nat)
              (the_tubule (the (tip_at_wrapped_end_scene 50 10 (-1))) 0%nat)
              (the_junction (the (tip_at_wrapped_end_scene 50 10 (-1))) 0%nat)
              (the_junction (the (tip_at_wrapped_end_scene 50 10 (-1))) 1%nat) = Hit v →
          v = (PrimFloat.sub PrimFloat.zero
                 (Substrate.width (substrate (the (tip_at_wrapped_end_scene 50 10 (-1))))),
               PrimFloat.zero)).
Proof.
  split; [|split; [|split]].
  - refine (proj2 (proj1
      (zero_length_unit_is_nan 0%nat (the point_scene) _ _ _ (Junction.init 1 1) 0%nat
         eq_refl eq_refl eq_refl _) _ _ eq_refl eq_refl));
      try split; reflexivity.
  - pose proof (proj1 (proj2
      (zero_length_unit_is_nan 0%nat (the tip_at_end_scene)
         (the_tubule (the tip_at_end_scene) 0%nat)
         (the_junction (the tip_at_end_scene) 0%nat)
         (the_junction (the tip_at_end_scene) 1%nat)
         (the_junction (the tip_at_end_scene) 3%nat) 3%nat
         eq_refl eq_refl eq_refl (conj eq_refl eq_refl)) eq_refl)) as H.
    destruct H as (Hn & _ & Hh).
    + intros Hc. vm_compute in Hc. discriminate.
    + intros Hc. vm_compute in Hc. discriminate.
    + split; [exact Hn | exact Hh].
  - refine (proj1 (proj2 (proj2
      (zero_length_unit_is_nan 0%nat (the (tip_at_wrapped_end_scene 10 50 1))
         (the_tubule (the (tip_at_wrapped_end_scene 10 50 1)) 0%nat)
         (the_junction (the (tip_at_wrapped_end_scene 10 50 1)) 0%nat)
         (the_junction (the (tip_at_wrapped_end_scene 10 50 1)) 1%nat)
         (the_junction (the (tip_at_wrapped_end_scene 10 50 1)) 3%nat) 3%nat
         eq_refl eq_refl eq_refl (conj eq_refl eq_refl)) eq_refl)) _ _).
    + vm_compute. reflexivity.
    + vm_compute. reflexivity.
  - refine (proj2 (proj2 (proj2
      (zero_length_unit_is_nan 0%nat (the (tip_at_wrapped_end_scene 50 10 (-1)))
         (the_tubule (the (tip_at_wrapped_end_scene 50 10 (-1))) 0%nat)
         (the_junction (the (tip_at_wrapped_end_scene 50 10 (-1))) 0%nat)
         (the_junction (the (tip_at_wrapped_end_scene 50 10 (-1))) 1%nat)
         (the_junction (the (tip_at_wrapped_end_scene 50 10 (-1))) 3%nat) 3%nat
         eq_refl eq_refl eq_refl (conj eq_refl eq_refl)) eq_refl)) _ _).
    + vm_compute. reflexivity.
    + vm_compute. reflexivity.
Defined.

(** C6, as stated, fails: for the tubule between two junctions at (1, 1)
    the constructor and [updateTubule] both leave [unit = (NaN, NaN)], not
    the zero vector. *)
Lemma zero_length_unit_not_zero :
  ∃ w w' tb tb',
    point_scene = Ok w
    ∧ tubule w 0%nat = Ok tb
    ∧ Tubule.norm tb = PrimFloat.zero
    ∧ Tubule.unit tb = (PrimFloat.nan, PrimFloat.nan)
    ∧ array_equal (Tubule.unit tb) Np.zeros = false
    ∧ updateTubule 0%nat w = Ok w'
    ∧ tubule w' 0%nat = Ok tb'
    ∧ Tubule.unit tb' = (PrimFloat.nan, PrimFloat.nan)
    ∧ array_equal (Tubule.unit tb') Np.zeros = false.
Proof.
  do 4 eexists. by_running.
Qed.

(** Where the correction applies the tip can merge at the very position
    of [t.j1]: in the scene with the wrapped strand the displacement is
    (400, 0), the test hits, and [mergeTubule] (called a second time, the
    first call only clears [just_split]) marks the strand and stops the
    tip. *)
Lemma tip_at_wrapped_end_merges :
  ∃ w w1 w2,
    tip_at_wrapped_end_scene 10 50 1 = Ok w
    ∧ merge_test (substrate w) 3%nat (the_junction w 3%nat) (the_tubule w 0%nat)
        (the_junction w 0%nat) (the_junction w 1%nat) = Hit (400, 0)%float
    ∧ mergeTubule 3%nat w = Ok w1
    ∧ mergeTubule 3%nat w1 = Ok w2
    ∧ marked w2 !! 0%nat = Some true
    ∧ Junction.growing <$> jstore w2 !! 3%nat = Some false.
Proof.
  do 3 eexists. by_running.
Qed.

(** In the scene with the ordinary strand the tip at the position of
    [t.j1] stays a tip: [mergeTubule] marks nothing and the tip keeps
    growing. *)
Lemma tip_at_end_stays :
  ∃ w w1 w2,
    tip_at_end_scene = Ok w
    ∧ mergeTubule 3%nat w = Ok w1
    ∧ mergeTubule 3%nat w1 = Ok w2
    ∧ marked w2 = [false; false]
    ∧ Junction.growing <$> jstore w2 !! 3%nat = Some true.
Proof.
  do 3 eexists. by_running.
Qed.

(** *** Substrate.splitTubule *)

Lemma split_at_Ok (t : tref) (split_len : float) (negative : bool) (w : World)
    (tb : Tubule.t) :
  tstore w !! t = Some tb →
  (Tubule.j1 tb < length (jstore w))%nat →
  (Tubule.j2 tb < length (jstore w))%nat →
  ∃ w', split_at t split_len negative w = Ok w' ∧ split_of t w w'.
Proof.
  intros Ht L1 L2. unfold split_at, tubule, junction.
  rewrite (proj2 (deref_Ok _ _ _) Ht). cbn [mbind result_bind].
  destruct (deref_lt _ _ L1) as (e1 & -> & _).
  destruct (deref_lt _ _ L2) as (e2 & -> & _). cbn [mbind result_bind].
  destruct (end_crossovers _ _ _ _) as [c1 c2].
  unfold addJunction. cbn [fst snd jstore tstore substrate].
  rewrite modify_junction_lt by sizes. cbn [mbind result_bind].
  rewrite modify_junction_lt by sizes. cbn [mbind result_bind].
  match goal with |- context [addTubule ?a ?b ?k ?w0] =>
    destruct (addTubule_Ok a b k w0) as (t1 & -> & R1); [sizes | sizes |] end.
  cbn [mbind result_bind].
  match goal with |- context [addTubule ?a ?b ?k ?w0] =>
    destruct (addTubule_Ok a b k w0) as (t2 & -> & R2); [sizes | sizes |] end.
  cbn [mbind result_bind].
  match goal with |- context [addTubule ?a ?b ?k ?w0] =>
    destruct (addTubule_Ok a b k w0) as (t3 & -> & R3); [sizes | sizes |] end.
  cbn [mbind result_bind].
  assert (Lt : (t < length (tstore w))%nat) by (eapply lookup_lt_Some; eauto).
  unfold tubule. cbn [tstore substrate jstore set_jstore].
  assert (Hlook : (((tstore w ++ [t1]) ++ [t2]) ++ [t3]) !! t = Some tb).
  { rewrite !lookup_app_l by sizes. exact Ht. }
  rewrite (proj2 (deref_Ok _ _ _) Hlook). cbn [mbind result_bind mret result_ret].
  eexists. split; [reflexivity|].
  unfold split_of, put_tubule. cbn.
  split; [sizes|]. split; [sizes|].
  split; [rewrite <- !app_assoc; cbn; repeat f_equal; sizes|].
  split; [rewrite <- !app_assoc; cbn; repeat f_equal; sizes|].
  exists tb. split; [exact Ht|].
  apply list_lookup_insert_eq. sizes.
Qed.

Lemma norms_of_cons (w : World) (t : tref) (ts : list tref) (tb : Tubule.t) :
  tstore w !! t = Some tb → norms_of w (t :: ts) = Tubule.norm tb :: norms_of w ts.
Proof. intros H. unfold norms_of. cbn. rewrite H. reflexivity. Qed.

Lemma sum_norms_Ok (w : World) (ts : list tref) (acc : float) :
  (∀ t, t ∈ ts → (t < length (tstore w))%nat) →
  ∃ total, sum_norms w acc ts = Ok total.
Proof.
  revert acc. induction ts as [|t ts IH]; intros acc H; cbn [sum_norms].
  - eexists. reflexivity.
  - destruct (deref_lt (tstore w) t) as (tb & E & _); [apply H; left|].
    unfold tubule. rewrite E. cbn [mbind result_bind].
    apply IH. intros t' Hin. apply H. right. exact Hin.
Qed.

(** The loop of [splitTubule] splits the tubule that [scan_target] names,
    and changes nothing when there is none. *)
Lemma split_scan_spec (ts : list tref) (r : float) (negative : bool) (w : World) :
  (∀ t, t ∈ ts → (t < length (tstore w))%nat) →
  match scan_target (norms_of w ts) r with
  | Some (i, r') =>
      ∃ t, ts !! i = Some t ∧ split_scan ts r negative w = split_at t r' negative w
  | None => split_scan ts r negative w = Ok w
  end.
Proof.
  revert r. induction ts as [|t ts IH]; intros r H; [reflexivity|].
  destruct (deref_lt (tstore w) t) as (tb & E & El); [apply H; left|].
  rewrite (norms_of_cons w t ts tb El). cbn [scan_target split_scan].
  unfold tubule. rewrite E. cbn [mbind result_bind].
  destruct (Np.gtb r (Tubule.norm tb)).
  - specialize (IH (PrimFloat.sub r (Tubule.norm tb))
                   (fun t' Hin => H t' (list_elem_of_further _ _ _ Hin))).
    destruct (scan_target _ _) as [[i r']|]; cbn; [|exact IH].
    destruct IH as (t' & Hi & Hs). exists t'. auto.
  - exists t. auto.
Qed.

(** C5, as amended. [splitTubule] scans the tubules in collection order,
    subtracting each norm from the drawn value r for as long as r exceeds
    it, and splits the first tubule whose norm r does not exceed, at
    offset r: two junctions and three tubules are created and that tubule
    is marked. There is no fallback: when r still exceeds the norm of the
    last tubule, [splitTubule] returns without having changed anything. *)
Theorem splitTubule_outcome (rnd : float) (negative : bool) (w : World) :
  well_formed w →
  ∃ sys_len,
    sum_norms w (Np.of_int 0) (Substrate.tubules (substrate w)) = Ok sys_len
    ∧ match scan_target (norms w) (uniform (Np.of_int 0) sys_len rnd) with
      | Some (i, r) =>
          ∃ t w', Substrate.tubules (substrate w) !! i = Some t
                  ∧ splitTubule rnd negative w = Ok w'
                  ∧ split_at t r negative w = Ok w'
                  ∧ split_of t w w'
      | None => splitTubule rnd negative w = Ok w
      end.
Proof.
  intros [Wt We].
  destruct (sum_norms_Ok w _ (Np.of_int 0) Wt) as (total & Hsum).
  exists total. split; [exact Hsum|].
  unfold splitTubule. rewrite Hsum. cbn [mbind result_bind].
  pose proof (split_scan_spec (Substrate.tubules (substrate w))
                (uniform (Np.of_int 0) total rnd) negative w Wt) as Hscan.
  unfold norms. destruct (scan_target _ _) as [[i r]|]; [|exact Hscan].
  destruct Hscan as (t & Hi & Hs).
  assert (Lt : (t < length (tstore w))%nat).
  { apply Wt. eapply list_elem_of_lookup_2, Hi. }
  destruct (lookup_lt_is_Some_2 _ _ Lt) as [tb Htb].
  destruct (We t tb Htb) as [L1 L2].
  destruct (split_at_Ok t r negative w tb Htb L1 L2) as (w' & Hw' & Hof).
  exists t, w'. rewrite Hs. auto.
Qed.

Lemma splitTubule_outcome_witness :
  ∃ sys_len,
    sum_norms (the three_scene) (Np.of_int 0)
      (Substrate.tubules (substrate (the three_scene))) = Ok sys_len
    ∧ match scan_target (norms (the three_scene))
              (uniform (Np.of_int 0) sys_len 0.5) with
      | Some (i, r) =>
          ∃ t w', Substrate.tubules (substrate (the three_scene)) !! i = Some t
                  ∧ splitTubule 0.5 false (the three_scene) = Ok w'
                  ∧ split_at t r false (the three_scene) = Ok w'
                  ∧ split_of t (the three_scene) w'
      | None => splitTubule 0.5 false (the three_scene) = Ok (the three_scene)
      end.
Proof.
  apply splitTubule_outcome, well_formedb_spec. vm_compute. reflexivity.
Defined.

(** C5, as stated, fails: with tubules of lengths 0.4, 0.8 and 0.3 the
    total is 1.5000000000000002; for the draw 1 - 2^-53 the value r is 1.5,
    then 1.1, then 0.30000000000000004, which exceeds the last norm 0.3,
    and [splitTubule] returns with nothing split. *)
Lemma splitTubule_falls_through :
  ∃ w,
    three_scene = Ok w
    ∧ norms w = [0.4; 0.8; 0.3]%float
    ∧ sum_norms w (Np.of_int 0) (Substrate.tubules (substrate w))
      = Ok 1.5000000000000002%float
    ∧ PrimFloat.ltb 0 1.5000000000000002 = true
    ∧ draw largest_draw
    ∧ uniform (Np.of_int 0) 1.5000000000000002 largest_draw = 1.5%float
    ∧ PrimFloat.sub (PrimFloat.sub 1.5 0.4) 0.8 = 0.30000000000000004%float
    ∧ splitTubule largest_draw false w = Ok w
    ∧ marked w = [false; false; false].
Proof.
  eexists. unfold draw. by_running.
Qed.

(** *** Substrate.splitTubule on a system of length zero *)

Lemma sum_norms_zero (w : World) (ts : list tref) :
  (∀ t, t ∈ ts → (t < length (tstore w))%nat) →
  Forall (fun n => n = PrimFloat.zero) (norms_of w ts) →
  sum_norms w PrimFloat.zero ts = Ok PrimFloat.zero.
Proof.
  induction ts as [|t ts IH]; intros H Hz; [reflexivity|].
  destruct (deref_lt (tstore w) t) as (tb & E & El); [apply H; left|].
  rewrite (norms_of_cons w t ts tb El) in Hz. inversion Hz as [|? ? Hn Hrest]; subst.
  cbn [sum_norms]. unfold tubule. rewrite E. cbn [mbind result_bind].
  rewrite Hn. change (PrimFloat.add PrimFloat.zero PrimFloat.zero) with PrimFloat.zero.
  apply IH; [|exact Hrest]. intros t' Hin. apply H. right. exact Hin.
Qed.

(** C7, as amended. On a system of total length zero [splitTubule] does
    not fault. It is a no-op when there are no tubules. When tubules of
    length zero are present it is not: it splits the first tubule of the
    collection, creating two junctions and three tubules and marking that
    tubule. *)
Theorem splitTubule_zero_length (rnd : float) (negative : bool) (w : World) :
  well_formed w →
  draw rnd →
  Forall (fun n => n = PrimFloat.zero) (norms w) →
  match Substrate.tubules (substrate w) with
  | [] => splitTubule rnd negative w = Ok w
  | t :: _ => ∃ w', splitTubule rnd negative w = Ok w' ∧ split_of t w w'
  end.
Proof.
  intros [Wt We] Hd Hz. unfold splitTubule. cbv zeta.
  change (sum_norms w (Np.of_int 0)) with (sum_norms w PrimFloat.zero).
  rewrite (sum_norms_zero w _ Wt Hz). cbn [mbind result_bind].
  rewrite (draw_of_nothing rnd Hd).
  unfold norms in Hz.
  destruct (Substrate.tubules (substrate w)) as [|t ts]; [reflexivity|].
  destruct (deref_lt (tstore w) t) as (tb & E & El); [apply Wt; left|].
  rewrite (norms_of_cons w t ts tb El) in Hz. inversion Hz as [|? ? Hn _]; subst.
  cbn [split_scan]. unfold tubule. rewrite E. cbn [mbind result_bind].
  rewrite Hn. change (Np.gtb PrimFloat.zero PrimFloat.zero) with false. cbn iota.
  destruct (We t tb El) as [L1 L2].
  apply (split_at_Ok t _ negative w tb El L1 L2).
Qed.

Lemma splitTubule_zero_length_witness :
  match Substrate.tubules (substrate (the point_scene)) with
  | [] => splitTubule 0.5 false (the point_scene) = Ok (the point_scene)
  | t :: _ =>
      ∃ w', splitTubule 0.5 false (the point_scene) = Ok w'
            ∧ split_of t (the point_scene) w'
  end.
Proof.
  apply splitTubule_zero_length.
  - apply well_formedb_spec. vm_compute. reflexivity.
  - split; reflexivity.
  - vm_compute. repeat constructor.
Defined.

(** C7, as stated, fails: in the system whose only tubule joins two
    junctions at (1, 1) the total length is 0, and [splitTubule] adds two
    junctions, at (NaN, NaN), and three tubules, and marks the tubule. *)
Lemma splitTubule_zero_length_not_noop :
  ∃ w w',
    point_scene = Ok w
    ∧ sum_norms w (Np.of_int 0) (Substrate.tubules (substrate w)) = Ok PrimFloat.zero
    ∧ length (jstore w) = 2%nat
    ∧ marked w = [false]
    ∧ splitTubule 0.5 false w = Ok w'
    ∧ Junction.position <$> jstore w'
      = [(1, 1); (1, 1); (PrimFloat.nan, PrimFloat.nan);
         (PrimFloat.nan, PrimFloat.nan)]%float
    ∧ Substrate.tubules (substrate w') = [0; 1; 2; 3]%nat
    ∧ marked w' = [true; false; false; false].
Proof.
  do 2 eexists. by_running.
Qed.

(** ** Further properties of the engine *)

(** *** Every write of a tick is an edit *)

Lemma junction_step_refl (j : Junction.t) : junction_step j j.
Proof. split; auto. Qed.

Lemma junction_step_trans (j1 j2 j3 : Junction.t) :
  junction_step j1 j2 → junction_step j2 j3 → junction_step j1 j3.
Proof. intros [A1 C1] [A2 C2]. split; auto. Qed.

Lemma tubule_step_refl (tb : Tubule.t) : tubule_step tb tb.
Proof. unfold tubule_step. intuition. Qed.

Lemma tubule_step_trans (t1 t2 t3 : Tubule.t) :
  tubule_step t1 t2 → tubule_step t2 t3 → tubule_step t1 t3.
Proof.
  unfold tubule_step. intuition congruence.
Qed.

Lemma soundb_spec (w : World) : soundb w = true → sound w.
Proof.
  unfold soundb. rewrite andb_true_iff, forallb_forall. intros [Hw Hj]. split.
  - apply well_formedb_spec, Hw.
  - intros r Hin. apply Nat.ltb_lt, Hj, list_elem_of_In, Hin.
Qed.

Lemma ranges_okb_spec (w : World) : ranges_okb w = true → ranges_ok w.
Proof.
  unfold ranges_okb. rewrite andb_true_iff, !forallb_forall. intros [Hj Ht]. split.
  - intros r j Hl. specialize (Hj j). rewrite andb_true_iff, !Z.leb_le in Hj.
    apply Hj, list_elem_of_In. eapply list_elem_of_lookup_2, Hl.
  - intros t tb Hl. specialize (Ht tb). rewrite andb_true_iff, !Z.leb_le in Ht.
    apply Ht, list_elem_of_In. eapply list_elem_of_lookup_2, Hl.
Qed.

Lemma set_tubules_id (s : Substrate.t) :
  Substrate.set_tubules (Substrate.tubules s ++ []) s = s.
Proof. rewrite app_nil_r. destruct s. reflexivity. Qed.

(** An edit leaves the number of junctions and the substrate as they
    are, up to tubules appended to the store and to the collection. *)
Lemma edit_frame (w w' : World) :
  edit w w' →
  length (jstore w') = length (jstore w)
  ∧ ∃ (more : list Tubule.t) (refs : list tref),
      length (tstore w') = (length (tstore w) + length more)%nat
      ∧ substrate w'
        = Substrate.set_tubules (Substrate.tubules (substrate w) ++ refs) (substrate w).
Proof.
  intros [w0 r j j' Hj _ | w0 t tb tb' Ht _ | w0 w1 r1 r2 k t Ha _].
  - split; [apply length_insert|]. exists [], []. cbn.
    rewrite set_tubules_id. auto.
  - split; [reflexivity|]. exists [], []. cbn.
    rewrite length_insert, set_tubules_id. auto.
  - assert ((r1 < length (jstore w0))%nat ∧ (r2 < length (jstore w0))%nat) as [L1 L2].
    { unfold addTubule, junction in Ha. inv_bind Ha.
      apply deref_Ok in E, E0. split; eapply lookup_lt_Some; eauto. }
    destruct (addTubule_Ok r1 r2 k w0 L1 L2) as (tb & E & _).
    rewrite E in Ha. injection Ha as <- _. cbn.
    split; [sizes|]. exists [tb], [length (tstore w0)]. split; [sizes|reflexivity].
Qed.

(** What [addTubule] leaves, read off a call that returned. *)
Lemma addTubule_new (r1 r2 : jref) (k : tubule_kargs) (w w' : World) (t : tref) :
  addTubule r1 r2 k w = Ok (w', t) →
  (r1 < length (jstore w))%nat ∧ (r2 < length (jstore w))%nat
  ∧ t = length (tstore w)
  ∧ jstore w' = adjoin r1 r2 (jstore w)
  ∧ substrate w'
    = Substrate.set_tubules (Substrate.tubules (substrate w) ++ [t]) (substrate w)
  ∧ ∃ tb, tstore w' = tstore w ++ [tb]
          ∧ Tubule.j1 tb = r1 ∧ Tubule.j2 tb = r2
          ∧ Tubule.crossover tb = default 0 (ka_crossover k)
          ∧ Tubule.to_remove tb = false.
Proof.
  intros Ha.
  assert ((r1 < length (jstore w))%nat ∧ (r2 < length (jstore w))%nat) as [L1 L2].
  { unfold addTubule, junction in Ha. inv_bind Ha.
    apply deref_Ok in E, E0. split; eapply lookup_lt_Some; eauto. }
  split; [exact L1|]. split; [exact L2|].
  revert Ha. unfold addTubule.
  destruct (deref_lt _ _ L1) as (e1 & E1 & _).
  destruct (deref_lt _ _ L2) as (e2 & E2 & _).
  unfold junction. rewrite E1, E2. cbn [mbind result_bind].
  rewrite (modify_junction_lt r1 _ w L1). cbn [mbind result_bind].
  rewrite modify_junction_lt by sizes.
  cbn. intros Ha. injection Ha as <- <-. cbn.
  split; [reflexivity|]. split; [reflexivity|]. split; [reflexivity|].
  eexists. split; [reflexivity|]. cbn. auto.
Qed.

Lemma adjoin_lookup (r1 r2 r : jref) (js : list Junction.t) (j : Junction.t) :
  js !! r = Some j →
  ∃ j', adjoin r1 r2 js !! r = Some j'
        ∧ Junction.anchor j' = Junction.anchor j
        ∧ Junction.cross j' = Junction.cross j.
Proof.
  intros H. unfold adjoin. rewrite !list_lookup_alter.
  repeat case_decide; subst; rewrite ?H; cbn; eexists; (split; [reflexivity|]);
    cbn; auto.
Qed.

Lemma edit_junction_kept (w w' : World) (r : jref) (j : Junction.t) :
  edit w w' → jstore w !! r = Some j →
  ∃ j', jstore w' !! r = Some j' ∧ junction_step j j'.
Proof.
  intros [w0 r0 j0 j0' Hj0 Hs | w0 t tb tb' Ht _ | w0 w1 r1 r2 k t Ha _] Hj.
  - cbn. rewrite list_lookup_insert. case_decide as D.
    + destruct D as [-> _]. exists j0'. split; [reflexivity|]. congruence.
    + exists j. auto using junction_step_refl.
  - exists j. auto using junction_step_refl.
  - apply addTubule_new in Ha as (_ & _ & _ & -> & _).
    destruct (adjoin_lookup r1 r2 r _ j Hj) as (j' & E & Ea & Ec).
    exists j'. split; [exact E|]. split; congruence.
Qed.

Lemma edit_tubule_kept (w w' : World) (t : tref) (tb : Tubule.t) :
  edit w w' → tstore w !! t = Some tb →
  ∃ tb', tstore w' !! t = Some tb' ∧ tubule_step tb tb'.
Proof.
  intros [w0 r0 j0 j0' Hj0 _ | w0 t0 tb0 tb0' Ht0 Hs | w0 w1 r1 r2 k t1 Ha _] Ht.
  - exists tb. auto using tubule_step_refl.
  - cbn. rewrite list_lookup_insert. case_decide as D.
    + destruct D as [-> _]. exists tb0'. split; [reflexivity|]. congruence.
    + exists tb. auto using tubule_step_refl.
  - apply addTubule_new in Ha as (_ & _ & _ & _ & _ & tb1 & -> & _).
    exists tb. split; [apply lookup_app_l_Some, Ht | apply tubule_step_refl].
Qed.

(** A tubule found after an edit was there before, or [addTubule] has
    just made it between two junctions of the store. *)
Lemma edit_tubule_origin (w w' : World) (t : tref) (tb' : Tubule.t) :
  edit w w' → tstore w' !! t = Some tb' →
  (∃ tb, tstore w !! t = Some tb ∧ tubule_step tb tb')
  ∨ (tstore w !! t = None
     ∧ (Tubule.j1 tb' < length (jstore w))%nat
     ∧ (Tubule.j2 tb' < length (jstore w))%nat
     ∧ in_unit_range (Tubule.crossover tb')).
Proof.
  intros He Ht'. destruct (tstore w !! t) as [tb|] eqn:Ht.
  - left. destruct (edit_tubule_kept w w' t tb He Ht) as (tb'' & E & Hs).
    exists tb. split; [reflexivity|]. congruence.
  - right. split; [reflexivity|].
    destruct He as [w0 r0 j0 j0' Hj0 _ | w0 t0 tb0 tb0' Ht0 Hs | w0 w1 r1 r2 k t1 Ha Hk].
    + cbn in Ht'. congruence.
    + cbn in Ht'. apply lookup_lt_Some in Ht'. rewrite length_insert in Ht'.
      apply lookup_ge_None in Ht. lia.
    + apply addTubule_new in Ha as (L1 & L2 & _ & _ & _ & tb1 & E & <- & <- & Ec & _).
      rewrite E in Ht'. apply lookup_ge_None in Ht.
      rewrite lookup_app_r in Ht' by exact Ht.
      destruct (t - length (tstore w0))%nat as [|n]; [|destruct n; discriminate].
      injection Ht' as <-. rewrite Ec. auto.
Qed.

Lemma edit_sound (w w' : World) : edit w w' → sound w → sound w'.
Proof.
  intros He [[Wt We] Wj].
  destruct (edit_frame w w' He) as (Lj & more & refs & Lt & Es).
  split; [split|].
  - intros t Hin. rewrite Es in Hin. cbn in Hin. rewrite Lt.
    apply elem_of_app in Hin as [Hin|Hin]; [apply Wt in Hin; lia|].
    destruct He as [w0 r0 j0 j0' Hj0 _ | w0 t0 tb0 tb0' Ht0 Hs | w0 w1 r1 r2 k t1 Ha Hk].
    + cbn in Es. apply (f_equal Substrate.tubules) in Es. cbn in Es.
      rewrite <- (app_nil_r (Substrate.tubules (substrate w0))) in Es at 1.
      apply app_inv_head in Es. subst refs. by apply not_elem_of_nil in Hin.
    + cbn in Es. apply (f_equal Substrate.tubules) in Es. cbn in Es.
      rewrite <- (app_nil_r (Substrate.tubules (substrate w0))) in Es at 1.
      apply app_inv_head in Es. subst refs. by apply not_elem_of_nil in Hin.
    + apply addTubule_new in Ha as (_ & _ & -> & _ & Es' & tb1 & E & _).
      rewrite Es' in Es. apply (f_equal Substrate.tubules) in Es. cbn in Es.
      apply app_inv_head in Es. subst refs.
      apply list_elem_of_singleton in Hin as ->.
      rewrite E, length_app in Lt. cbn in Lt. lia.
  - intros t tb' Ht'. rewrite Lj.
    destruct (edit_tubule_origin w w' t tb' He Ht')
      as [(tb & Ht & E1 & E2 & _) | (_ & L1 & L2 & _)]; [|auto].
    rewrite E1, E2. eapply We, Ht.
  - intros r Hin. rewrite Es in Hin. cbn in Hin. rewrite Lj. auto.
Qed.

Lemma edit_ranges (w w' : World) : edit w w' → ranges_ok w → ranges_ok w'.
Proof.
  intros He [Rj Rt]. destruct (edit_frame w w' He) as (Lj & _). split.
  - intros r j' Hj'.
    assert (Lr : (r < length (jstore w))%nat).
    { rewrite <- Lj. eapply lookup_lt_Some, Hj'. }
    destruct (lookup_lt_is_Some_2 _ _ Lr) as [j Hj].
    destruct (edit_junction_kept w w' r j He Hj) as (j'' & E & _ & Hc).
    assert (j'' = j') as -> by congruence. eauto.
  - intros t tb' Ht'.
    destruct (edit_tubule_origin w w' t tb' He Ht')
      as [(tb & Ht & _ & _ & _ & Hc) | (_ & _ & _ & Hc)]; eauto.
Qed.

Lemma edits_sound (w w' : World) : edits w w' → sound w → sound w'.
Proof. induction 1; eauto using edit_sound. Qed.

Lemma edits_ranges (w w' : World) : edits w w' → ranges_ok w → ranges_ok w'.
Proof. induction 1; eauto using edit_ranges. Qed.

Lemma edits_junction_kept (w w' : World) (r : jref) (j : Junction.t) :
  edits w w' → jstore w !! r = Some j →
  ∃ j', jstore w' !! r = Some j' ∧ junction_step j j'.
Proof.
  intros H. revert j. induction H as [w|w w1 w2 He _ IH]; intros j Hj.
  - exists j. auto using junction_step_refl.
  - destruct (edit_junction_kept _ _ r j He Hj) as (j1 & H1 & S1).
    destruct (IH j1 H1) as (j2 & H2 & S2).
    exists j2. eauto using junction_step_trans.
Qed.

Lemma edits_tubule_kept (w w' : World) (t : tref) (tb : Tubule.t) :
  edits w w' → tstore w !! t = Some tb →
  ∃ tb', tstore w' !! t = Some tb' ∧ tubule_step tb tb'.
Proof.
  intros H. revert tb. induction H as [w|w w1 w2 He _ IH]; intros tb Ht.
  - exists tb. auto using tubule_step_refl.
  - destruct (edit_tubule_kept _ _ t tb He Ht) as (t1 & H1 & S1).
    destruct (IH t1 H1) as (t2 & H2 & S2).
    exists t2. eauto using tubule_step_trans.
Qed.

Lemma edits_frame (w w' : World) :
  edits w w' →
  length (jstore w') = length (jstore w)
  ∧ ∃ (more : list Tubule.t) (refs : list tref),
      length (tstore w') = (length (tstore w) + length more)%nat
      ∧ substrate w'
        = Substrate.set_tubules (Substrate.tubules (substrate w) ++ refs) (substrate w).
Proof.
  induction 1 as [w|w w1 w2 He _ IH].
  - split; [reflexivity|]. exists [], []. cbn. rewrite set_tubules_id. auto.
  - destruct (edit_frame _ _ He) as (L1 & m1 & f1 & T1 & S1).
    destruct IH as (L2 & m2 & f2 & T2 & S2).
    split; [congruence|]. exists (m1 ++ m2), (f1 ++ f2).
    split; [rewrite T2, T1, length_app; lia|].
    rewrite S2, S1. cbn. rewrite app_assoc. reflexivity.
Qed.

(** *** Every operation of the pipeline returns, and only edits *)

Lemma modify_junction_edit (r : jref) (f : Junction.t → Junction.t) (w : World) :
  (r < length (jstore w))%nat →
  (∀ j, junction_step j (f j)) →
  ∃ w', modify_junction r f w = Ok w' ∧ edit w w'.
Proof.
  intros L Hf. destruct (deref_lt _ _ L) as (j & E & El).
  exists (put_junction r (f j) w). split.
  - unfold modify_junction, junction. rewrite E. reflexivity.
  - apply (edit_junction w r j (f j) El (Hf j)).
Qed.

Lemma moveJunction_step (j : Junction.t) : junction_step j (Junction.moveJunction j).
Proof.
  destruct j as [p v vec fl gr an fr dr c wd adj js].
  unfold junction_step, Junction.moveJunction, Junction.wrap, in_unit_range.
  destruct an, fl; cbn; destruct (0 <? c) eqn:E1; cbn;
    try destruct (c <? 0) eqn:E2; cbn; split; intros; auto; lia.
Qed.

Lemma pin_step (set : Np.vec → float → Np.vec) (k : float) (j : Junction.t) :
  junction_step j (pin set k j).
Proof. split; intros; cbn; auto. Qed.

Lemma boundSubstrate_edit (r : jref) (w : World) :
  (r < length (jstore w))%nat →
  ∃ w', boundSubstrate r w = Ok w' ∧ edit w w'.
Proof.
  intros L. apply modify_junction_edit; [exact L|]. intros j. cbv beta zeta.
  match goal with
  | |- junction_step j (if _ then pin _ _ ?j1 else _) =>
      apply (junction_step_trans j j1)
  end; repeat case_match; first [apply pin_step | apply junction_step_refl].
Qed.

Lemma sound_tubule (w : World) (t : tref) :
  sound w → (t < length (tstore w))%nat →
  ∃ tb e1 e2,
    tstore w !! t = Some tb
    ∧ jstore w !! Tubule.j1 tb = Some e1
    ∧ jstore w !! Tubule.j2 tb = Some e2.
Proof.
  intros [[_ We] _] L. destruct (lookup_lt_is_Some_2 _ _ L) as [tb Ht].
  destruct (We t tb Ht) as [L1 L2].
  destruct (lookup_lt_is_Some_2 _ _ L1) as [e1 H1].
  destruct (lookup_lt_is_Some_2 _ _ L2) as [e2 H2]. eauto 10.
Qed.

Lemma junction_after_edit (w w' : World) (r : jref) :
  edit w w' → (r < length (jstore w))%nat → ∃ e, junction w' r = Ok e.
Proof.
  intros He L. destruct (edit_frame _ _ He) as (Lj & _).
  rewrite <- Lj in L. destruct (deref_lt _ _ L) as (e & E & _). eauto.
Qed.

Lemma updateTubule_edit (t : tref) (w : World) :
  sound w → (t < length (tstore w))%nat →
  ∃ w', updateTubule t w = Ok w' ∧ edits w w'.
Proof.
  intros Hs L. destruct (sound_tubule w t Hs L) as (tb & e1 & e2 & Ht & H1 & H2).
  unfold updateTubule, tubule, junction.
  rewrite (proj2 (deref_Ok _ _ _) Ht). cbn [mbind result_bind].
  rewrite (proj2 (deref_Ok _ _ _) H1). cbn [mbind result_bind].
  rewrite (proj2 (deref_Ok _ _ _) H2). cbn [mbind result_bind mret result_ret].
  eexists. split; [reflexivity|].
  apply rtc_once, (edit_tubule w t tb _ Ht). unfold tubule_step. cbn. auto.
Qed.

(** Two conditional writes to the ends of a tubule, one after the other,
    as [contractTubule] and [growTubule] make them. *)
Lemma two_writes_edits (w : World) (r1 r2 : jref) (c1 : Junction.t → bool)
    (c2 : Junction.t → bool) (f1 f2 : Junction.t → Junction.t) :
  (r1 < length (jstore w))%nat → (r2 < length (jstore w))%nat →
  (∀ j, junction_step j (f1 j)) → (∀ j, junction_step j (f2 j)) →
  ∃ w',
    (e1 ← junction w r1;
     w1 ← (if c1 e1 then modify_junction r1 f1 w else mret w);
     e2 ← junction w1 r2;
     if c2 e2 then modify_junction r2 f2 w1 else mret w1) = Ok w'
    ∧ edits w w'.
Proof.
  intros L1 L2 F1 F2. destruct (deref_lt _ _ L1) as (e1 & E1 & _).
  unfold junction. rewrite E1. cbn [mbind result_bind].
  assert (∃ w1, (if c1 e1 then modify_junction r1 f1 w else mret w) = Ok w1
                ∧ edits w w1) as (w1 & -> & H1).
  { destruct (c1 e1).
    - destruct (modify_junction_edit r1 f1 w L1 F1) as (w1 & E & He).
      exists w1. split; [exact E | apply rtc_once, He].
    - exists w. split; [reflexivity | apply rtc_refl]. }
  cbn [mbind result_bind].
  destruct (edits_frame _ _ H1) as (Lj & _).
  assert (L2' : (r2 < length (jstore w1))%nat) by lia.
  destruct (deref_lt _ _ L2') as (e2 & E2 & _).
  rewrite E2. cbn [mbind result_bind].
  destruct (c2 e2).
  - destruct (modify_junction_edit r2 f2 w1 L2' F2) as (w2 & E & He).
    exists w2. split; [exact E | eapply rtc_r; eauto].
  - exists w1. split; [reflexivity | exact H1].
Qed.

Lemma contractTubule_edit (t : tref) (w : World) :
  sound w → (t < length (tstore w))%nat →
  ∃ w', contractTubule t w = Ok w' ∧ edits w w'.
Proof.
  intros Hs L. destruct (sound_tubule w t Hs L) as (tb & e1 & e2 & Ht & H1 & H2).
  unfold contractTubule, tubule.
  rewrite (proj2 (deref_Ok _ _ _) Ht). cbn [mbind result_bind]. cbv zeta.
  apply (two_writes_edits w (Tubule.j1 tb) (Tubule.j2 tb)
           (fun e => negb (Junction.anchor e) && Tubule.contracting tb)
           (fun e => negb (Junction.anchor e) && Tubule.contracting tb));
    try (eapply lookup_lt_Some; eassumption); intros j; split; cbn; auto.
Qed.

Lemma growTubule_edit (t : tref) (w : World) :
  sound w → (t < length (tstore w))%nat →
  ∃ w', growTubule t w = Ok w' ∧ edits w w'.
Proof.
  intros Hs L. destruct (sound_tubule w t Hs L) as (tb & e1 & e2 & Ht & H1 & H2).
  unfold growTubule, tubule.
  rewrite (proj2 (deref_Ok _ _ _) Ht). cbn [mbind result_bind]. cbv zeta.
  apply (two_writes_edits w (Tubule.j1 tb) (Tubule.j2 tb)
           Junction.growing Junction.growing);
    try (eapply lookup_lt_Some; eassumption); intros j; split; cbn; auto.
Qed.

Lemma wrap_end_edit (t : tref) (e : Tubule.t → jref) (out back : Z → Z) (w : World) :
  sound w → (t < length (tstore w))%nat →
  (∀ tb, e tb = Tubule.j1 tb ∨ e tb = Tubule.j2 tb) →
  (∀ z, in_unit_range z → in_unit_range (out z)) →
  (∀ z, in_unit_range z → in_unit_range (back z)) →
  ∃ w', wrap_end t e out back w = Ok w' ∧ edits w w'.
Proof.
  intros Hs L He Hout Hback.
  destruct (sound_tubule w t Hs L) as (tb & e1 & e2 & Ht & H1 & H2).
  assert (Le : (e tb < length (jstore w))%nat).
  { destruct (He tb) as [-> | ->]; eapply lookup_lt_Some; eassumption. }
  destruct (deref_lt _ _ Le) as (j & Ej & _).
  unfold wrap_end, tubule, junction.
  rewrite (proj2 (deref_Ok _ _ _) Ht). cbn [mbind result_bind].
  rewrite Ej. cbn [mbind result_bind].
  assert (Hw : ∀ f g,
    (∀ z, in_unit_range z → in_unit_range (f z)) →
    (∀ z, in_unit_range z → in_unit_range (g z)) →
    ∃ w', modify_junction (e tb)
            (fun j => Junction.set_cross (g (Junction.cross j)) j)
            (put_tubule t (Tubule.set_crossover (f (Tubule.crossover tb)) tb) w) = Ok w'
          ∧ edits w w').
  { intros f g Hf Hg.
    destruct (modify_junction_edit (e tb)
                (fun j => Junction.set_cross (g (Junction.cross j)) j)
                (put_tubule t (Tubule.set_crossover (f (Tubule.crossover tb)) tb) w))
      as (w' & E & Hed).
    - exact Le.
    - intros j0. split; cbn; auto.
    - exists w'. split; [exact E|]. eapply rtc_l; [|apply rtc_once, Hed].
      apply (edit_tubule w t tb _ Ht). unfold tubule_step. cbn. auto. }
  destruct (Np.gtb _ _); [|destruct (PrimFloat.ltb _ _)].
  - apply (Hw out bump_up); auto using bump_up_range.
  - apply (Hw back bump_down); auto using bump_down_range.
  - exists w. split; [reflexivity | apply rtc_refl].
Qed.

Lemma wrapSubstrate_edit (t : tref) (w : World) :
  sound w → (t < length (tstore w))%nat →
  ∃ w', wrapSubstrate t w = Ok w' ∧ edits w w'.
Proof.
  intros Hs L. unfold wrapSubstrate. destruct (Substrate.wrap_x (substrate w)).
  - destruct (wrap_end_edit t Tubule.j1 bump_down bump_up w Hs L)
      as (w1 & -> & H1); auto using bump_up_range, bump_down_range.
    cbn [mbind result_bind].
    destruct (edits_frame _ _ H1) as (_ & more & _ & Lt & _).
    destruct (wrap_end_edit t Tubule.j2 bump_up bump_down w1)
      as (w2 & -> & H2); eauto using bump_up_range, bump_down_range, edits_sound;
      [lia|].
    exists w2. split; [reflexivity | etransitivity; eassumption].
  - destruct (deref_lt _ _ L) as (tb & E & _). unfold tubule. rewrite E.
    exists w. split; [reflexivity | apply rtc_refl].
Qed.

(** *** [mergeTubule] returns: its [remove] calls find what they look for *)

Lemma list_remove_elem (x : jref) (l : list jref) :
  x ∈ l → ∃ l', list_remove x l = Ok l'.
Proof.
  intros H. apply list_elem_of_split_l in H as (l1 & l2 & -> & N).
  rewrite (list_remove_app x l1 l2 N). eauto.
Qed.

Lemma list_remove_front (x y : jref) (p q : list jref) :
  x ∈ p → ∃ p', list_remove x (p ++ y :: q) = Ok (p' ++ y :: q).
Proof.
  intros H. apply list_elem_of_split_l in H as (l1 & l2 & -> & N).
  exists (l1 ++ l2). rewrite <- !app_assoc. cbn.
  apply (list_remove_app x l1 (l2 ++ y :: q) N).
Qed.

Lemma end_crossovers_range (c : Z) (x x1 x2 : float) :
  in_unit_range (fst (end_crossovers c x x1 x2))
  ∧ in_unit_range (snd (end_crossovers c x x1 x2)).
Proof.
  unfold end_crossovers, in_unit_range.
  repeat case_match; cbn; lia.
Qed.

Lemma merge_into_edits (r : jref) (t : tref) (w : World) :
  sound w → (r < length (jstore w))%nat → (t < length (tstore w))%nat →
  ∃ w', merge_into r t w = Ok w' ∧ edits w w'.
Proof.
  intros Hs Lr Lt.
  destruct (sound_tubule w t Hs Lt) as (tb & e1 & e2 & Ht & H1 & H2).
  destruct (lookup_lt_is_Some_2 _ _ Lr) as [j Hj].
  assert (L1 : (Tubule.j1 tb < length (jstore w))%nat) by (eapply lookup_lt_Some; eauto).
  assert (L2 : (Tubule.j2 tb < length (jstore w))%nat) by (eapply lookup_lt_Some; eauto).
  unfold merge_into, tubule, junction.
  rewrite (proj2 (deref_Ok _ _ _) Ht). cbn [mbind result_bind].
  rewrite (proj2 (deref_Ok _ _ _) Hj). cbn [mbind result_bind].
  rewrite (proj2 (deref_Ok _ _ _) H1). cbn [mbind result_bind].
  rewrite (proj2 (deref_Ok _ _ _) H2). cbn [mbind result_bind].
  pose proof (end_crossovers_range (Tubule.crossover tb) (fst (Junction.position j))
                (fst (Junction.position e1)) (fst (Junction.position e2))) as [R1 R2].
  destruct (end_crossovers _ _ _ _) as [c1 c2]. cbn [fst snd] in R1, R2.
  destruct (addTubule_Ok r (Tubule.j1 tb) (kw_crossover c1) w Lr L1) as (t1 & A1 & _).
  pose proof (edit_add _ _ _ _ _ _ A1 R1) as E1.
  rewrite A1. cbn [mbind result_bind].
  match goal with |- context [addTubule ?a ?b ?k ?w0] =>
    destruct (addTubule_Ok a b k w0) as (t2 & A2 & _); [sizes | sizes |];
    pose proof (edit_add _ _ _ _ _ _ A2 R2) as E2; rewrite A2
  end.
  match type of E2 with edit _ ?x => set (w2 := x) in * end.
  cbn [mbind result_bind].
  set (js := adjoin r (Tubule.j2 tb) (adjoin r (Tubule.j1 tb) (jstore w))).
  change (jstore w2) with js.
  assert (Hadj : ∃ p q, Junction.adjacent <$> js !! r
                        = Some (p ++ Tubule.j2 tb :: q) ∧ Tubule.j1 tb ∈ p).
  { exists ((Junction.adjacent j ++ [Tubule.j1 tb])
             ++ (if decide (r = Tubule.j1 tb) then [r] else [])),
           (if decide (r = Tubule.j2 tb) then [r] else []).
    split.
    - unfold js. rewrite !adjoin_adjacent, Hj. cbn.
      destruct (decide (r = r)) as [_|N]; [|congruence].
      rewrite <- !app_assoc. reflexivity.
    - rewrite !elem_of_app, list_elem_of_singleton. auto. }
  destruct Hadj as (p & q & Hadj & Hin).
  destruct (js !! r) as [jr|] eqn:Er; [|discriminate].
  cbn in Hadj. injection Hadj as Hadj.
  assert (Ljs : (r < length js)%nat) by (eapply lookup_lt_Some; eauto).
  rewrite (proj2 (deref_Ok _ _ _) Er). cbn [mbind result_bind].
  rewrite Hadj. destruct (list_remove_front _ (Tubule.j2 tb) p q Hin) as (p' & ->).
  cbn [mbind result_bind].
  set (j3 := Junction.set_adjacent (p' ++ Tubule.j2 tb :: q) jr).
  assert (E3 : edit w2 (put_junction r j3 w2)).
  { apply (edit_junction w2 r jr j3 Er). split; cbn; auto. }
  set (w3 := put_junction r j3 w2) in *.
  assert (H3 : jstore w3 !! r = Some j3).
  { cbn. apply list_lookup_insert_eq, Ljs. }
  rewrite (proj2 (deref_Ok _ _ _) H3). cbn [mbind result_bind].
  destruct (list_remove_elem (Tubule.j2 tb) (Junction.adjacent j3)) as (a4 & ->).
  { cbn. rewrite elem_of_app, elem_of_cons. auto. }
  cbn [mbind result_bind].
  set (j4 := Junction.set_adjacent a4 j3).
  assert (E4 : edit w3 (put_junction r j4 w3)).
  { apply (edit_junction w3 r j3 j4 H3). split; cbn; auto. }
  set (w4 := put_junction r j4 w3) in *.
  destruct (modify_junction_edit r (Junction.set_growing false) w4)
    as (w5 & -> & E5).
  { cbn. rewrite !length_insert. exact Ljs. }
  { intros j0. split; cbn; auto. }
  cbn [mbind result_bind].
  assert (H05 : edits w w5).
  { eapply rtc_l; [exact E1|]. eapply rtc_l; [exact E2|].
    eapply rtc_l; [exact E3|]. eapply rtc_l; [exact E4|]. apply rtc_once, E5. }
  destruct (edits_tubule_kept _ _ t tb H05 Ht) as (tb5 & Ht5 & _).
  rewrite (proj2 (deref_Ok _ _ _) Ht5). cbn [mbind result_bind mret result_ret].
  eexists. split; [reflexivity|].
  eapply rtc_r; [exact H05|].
  apply (edit_tubule w5 t tb5 _ Ht5). unfold tubule_step. cbn. auto.
Qed.

Lemma edits_valid_junction (w w' : World) (r : jref) :
  edits w w' → (r < length (jstore w))%nat → (r < length (jstore w'))%nat.
Proof. intros E L. destruct (edits_frame _ _ E) as [-> _]. exact L. Qed.

Lemma edits_valid_tubule (w w' : World) (t : tref) :
  edits w w' → (t < length (tstore w))%nat → (t < length (tstore w'))%nat.
Proof. intros E L. destruct (edits_frame _ _ E) as (_ & more & refs & -> & _). lia. Qed.

Lemma merge_scan_edits (r : jref) (ts : list tref) (w : World) :
  sound w → (r < length (jstore w))%nat →
  Forall (λ t, (t < length (tstore w))%nat) ts →
  ∃ w', merge_scan r ts w = Ok w' ∧ edits w w'.
Proof.
  revert w. induction ts as [|t ts IH]; intros w Hs Lr Hts.
  - exists w. split; [reflexivity | apply rtc_refl].
  - apply Forall_cons in Hts as [Lt Hts].
    destruct (sound_tubule w t Hs Lt) as (tb & e1 & e2 & Ht & H1 & H2).
    destruct (lookup_lt_is_Some_2 _ _ Lr) as [j Hj].
    cbn [merge_scan]. unfold tubule, junction.
    rewrite (proj2 (deref_Ok _ _ _) Ht). cbn [mbind result_bind].
    rewrite (proj2 (deref_Ok _ _ _) Hj). cbn [mbind result_bind].
    rewrite (proj2 (deref_Ok _ _ _) H1). cbn [mbind result_bind].
    rewrite (proj2 (deref_Ok _ _ _) H2). cbn [mbind result_bind].
    destruct (merge_test _ _ _ _ _ _) as [|v|v].
    + apply IH; assumption.
    + assert (E : edit w (put_junction r (Junction.set_vector v j) w)).
      { apply (edit_junction w r j _ Hj). split; cbn; auto. }
      destruct (IH (put_junction r (Junction.set_vector v j) w)) as (w' & R & E').
      * eapply edit_sound; eauto.
      * cbn. rewrite length_insert. exact Lr.
      * exact Hts.
      * exists w'. split; [exact R|]. eapply rtc_l; eauto.
    + assert (E : edit w (put_junction r (Junction.set_vector v j) w)).
      { apply (edit_junction w r j _ Hj). split; cbn; auto. }
      destruct (merge_into_edits r t (put_junction r (Junction.set_vector v j) w))
        as (w' & R & E').
      * eapply edit_sound; eauto.
      * cbn. rewrite length_insert. exact Lr.
      * exact Lt.
      * exists w'. split; [exact R|]. eapply rtc_l; eauto.
Qed.

Lemma mergeTubule_edits (r : jref) (w : World) :
  sound w → (r < length (jstore w))%nat →
  ∃ w', mergeTubule r w = Ok w' ∧ edits w w'.
Proof.
  intros Hs Lr.
  destruct (lookup_lt_is_Some_2 _ _ Lr) as [j Hj].
  unfold mergeTubule, junction.
  rewrite (proj2 (deref_Ok _ _ _) Hj). cbn [mbind result_bind].
  destruct (Junction.growing j); [destruct (Junction.just_split j)|].
  - eexists. split; [reflexivity|]. apply rtc_once.
    apply (edit_junction w r j _ Hj). split; cbn; auto.
  - apply merge_scan_edits; [assumption..|].
    apply Forall_forall. intros t Ht. apply Hs, Ht.
  - exists w. split; [reflexivity | apply rtc_refl].
Qed.

Lemma run_jfunction_edits (f : jfunction) (r : jref) (w : World) :
  sound w → (r < length (jstore w))%nat →
  ∃ w', run_jfunction f r w = Ok w' ∧ edits w w'.
Proof.
  intros Hs Lr. destruct f; cbn [run_jfunction].
  - destruct (modify_junction_edit r Junction.moveJunction w Lr moveJunction_step)
      as (w' & R & E).
    exists w'. split; [exact R | apply rtc_once, E].
  - destruct (boundSubstrate_edit r w Lr) as (w' & R & E).
    exists w'. split; [exact R | apply rtc_once, E].
  - apply mergeTubule_edits; assumption.
Qed.

Lemma run_tfunction_edits (f : tfunction) (t : tref) (w : World) :
  sound w → (t < length (tstore w))%nat →
  ∃ w', run_tfunction f t w = Ok w' ∧ edits w w'.
Proof.
  intros Hs Lt. destruct f; cbn [run_tfunction].
  - apply updateTubule_edit; assumption.
  - apply contractTubule_edit; assumption.
  - apply growTubule_edit; assumption.
  - exists w. split; [reflexivity | apply rtc_refl].
  - apply wrapSubstrate_edit; assumption.
Qed.

(** A loop whose body only edits, over items that stay valid under edits. *)
Lemma for_each_edits {A : Type} (f : A → World → result World)
    (ok : A → World → Prop) (xs : list A) (w : World) :
  (∀ x w, sound w → ok x w → ∃ w', f x w = Ok w' ∧ edits w w') →
  (∀ x w w', edits w w' → ok x w → ok x w') →
  sound w → Forall (λ x, ok x w) xs →
  ∃ w', for_each f xs w = Ok w' ∧ edits w w'.
Proof.
  intros Hf Hok. revert w. induction xs as [|x xs IH]; intros w Hs Hxs.
  - exists w. split; [reflexivity | apply rtc_refl].
  - apply Forall_cons in Hxs as [Hx Hxs].
    destruct (Hf x w Hs Hx) as (w1 & R1 & E1).
    destruct (IH w1) as (w2 & R2 & E2).
    + eapply edits_sound; eauto.
    + eapply Forall_impl; [exact Hxs|]. intros y Hy. eapply Hok; eauto.
    + exists w2. split.
      * cbn [for_each]. rewrite R1. exact R2.
      * etrans; eauto.
Qed.

Lemma junction_pass_edits (f : jfunction) (w : World) :
  sound w →
  ∃ w', for_each (run_jfunction f) (Substrate.junctions (substrate w)) w = Ok w'
        ∧ edits w w'.
Proof.
  intros Hs.
  apply (for_each_edits _ (λ r w, (r < length (jstore w))%nat)).
  - intros; apply run_jfunction_edits; assumption.
  - intros; eapply edits_valid_junction; eauto.
  - exact Hs.
  - apply Forall_forall. intros r Hr. apply Hs, Hr.
Qed.

Lemma tubule_pass_edits (f : tfunction) (w : World) :
  sound w →
  ∃ w', for_each (run_tfunction f) (Substrate.tubules (substrate w)) w = Ok w'
        ∧ edits w w'.
Proof.
  intros Hs.
  apply (for_each_edits _ (λ t w, (t < length (tstore w))%nat)).
  - intros; apply run_tfunction_edits; assumption.
  - intros; eapply edits_valid_tubule; eauto.
  - exact Hs.
  - apply Forall_forall. intros t Ht. apply Hs, Ht.
Qed.

Lemma updateSubstrate_edits (w : World) :
  sound w → ∃ w', updateSubstrate w = Ok w' ∧ edits w w'.
Proof.
  intros Hs. unfold updateSubstrate.
  destruct (for_each_edits
              (λ f w, for_each (run_jfunction f) (Substrate.junctions (substrate w)) w)
              (λ _ _, True) (Substrate.j_functions (substrate w)) w)
    as (w1 & R1 & E1).
  - intros f w0 Hs0 _. apply junction_pass_edits, Hs0.
  - auto.
  - exact Hs.
  - apply Forall_forall. auto.
  - rewrite R1. cbn [mbind result_bind].
    destruct (for_each_edits
                (λ f w, for_each (run_tfunction f) (Substrate.tubules (substrate w)) w)
                (λ _ _, True) (Substrate.t_functions (substrate w1)) w1)
      as (w2 & R2 & E2).
    + intros f w0 Hs0 _. apply tubule_pass_edits, Hs0.
    + auto.
    + eapply edits_sound; eauto.
    + apply Forall_forall. auto.
    + exists w2. split; [exact R2|]. etrans; eauto.
Qed.

Lemma ticks_edits (n : nat) (w : World) :
  sound w → ∃ w', ticks n w = Ok w' ∧ edits w w'.
Proof.
  revert w. induction n as [|n IH]; intros w Hs.
  - exists w. split; [reflexivity | apply rtc_refl].
  - destruct (updateSubstrate_edits w Hs) as (w1 & R1 & E1).
    destruct (IH w1) as (w2 & R2 & E2); [eapply edits_sound; eauto|].
    exists w2. split.
    + cbn [ticks]. rewrite R1. exact R2.
    + etrans; eauto.
Qed.

(** *** What a tick can and cannot do *)

(** X1. From a world in which every reference points to an object, any
    number of ticks of [updateSubstrate], with any registered pipeline,
    returns normally (no [remove] misses its element, no reference
    dangles), and every reference still points to an object afterwards. *)
Theorem ticks_never_raise (n : nat) (w : World) :
  sound w → ∃ w', ticks n w = Ok w' ∧ sound w'.
Proof.
  intros Hs. destruct (ticks_edits n w Hs) as (w' & R & E).
  exists w'. split; [exact R|]. eapply edits_sound; eauto.
Qed.

Lemma ticks_never_raise_witness :
  ∃ w', ticks 3 (the main_scene) = Ok w' ∧ sound w'.
Proof.
  apply ticks_never_raise. apply soundb_spec. vm_compute. reflexivity.
Defined.

(** X2. [mergeTubule(j)] returns normally in every world whose references
    point to objects: the two [j.adjacent.remove] calls always find the
    entry that [addTubule] has just appended. *)
Theorem mergeTubule_never_raises (r : jref) (w : World) :
  sound w → (r < length (jstore w))%nat →
  ∃ w', mergeTubule r w = Ok w' ∧ sound w'.
Proof.
  intros Hs Lr. destruct (mergeTubule_edits r w Hs Lr) as (w' & R & E).
  exists w'. split; [exact R|]. eapply edits_sound; eauto.
Qed.

Lemma mergeTubule_never_raises_witness :
  ∃ w', mergeTubule 3%nat (the merge_scene) = Ok w' ∧ sound w'.
Proof.
  apply mergeTubule_never_raises.
  - apply soundb_spec. vm_compute. reflexivity.
  - vm_compute. lia.
Defined.

(** X3. No tick releases an anchor: a junction that is anchored stays
    anchored through any number of ticks, whatever the pipeline. *)
Theorem ticks_keep_anchors (n : nat) (w w' : World) (r : jref) (j : Junction.t) :
  sound w → ticks n w = Ok w' →
  jstore w !! r = Some j → Junction.anchor j = true →
  ∃ j', jstore w' !! r = Some j' ∧ Junction.anchor j' = true.
Proof.
  intros Hs R Hj Ha. destruct (ticks_edits n w Hs) as (w'' & R' & E).
  rewrite R in R'. injection R' as <-.
  destruct (edits_junction_kept _ _ r j E Hj) as (j' & Hj' & Hstep & _).
  exists j'. auto.
Qed.

Lemma ticks_keep_anchors_witness :
  ∃ j', jstore (the (ticks 3 (the main_scene))) !! 0%nat = Some j'
        ∧ Junction.anchor j' = true.
Proof.
  apply (ticks_keep_anchors 3 (the main_scene) _ 0%nat (the_junction (the main_scene) 0%nat)).
  - apply soundb_spec. vm_compute. reflexivity.
  - vm_compute. reflexivity.
  - vm_compute. reflexivity.
  - vm_compute. reflexivity.
Defined.

(** X4. The engine removes nothing. Through any number of ticks the
    junction collection is what it was, the tubule collection is only
    appended to, and every tubule keeps its two ends and, once marked for
    removal, its mark: removal is left to the driver. *)
Theorem ticks_remove_nothing (n : nat) (w w' : World) :
  sound w → ticks n w = Ok w' →
  Substrate.junctions (substrate w') = Substrate.junctions (substrate w)
  ∧ length (jstore w') = length (jstore w)
  ∧ (∃ refs, Substrate.tubules (substrate w')
             = Substrate.tubules (substrate w) ++ refs)
  ∧ ∀ t tb, tstore w !! t = Some tb →
      ∃ tb', tstore w' !! t = Some tb'
             ∧ Tubule.j1 tb' = Tubule.j1 tb ∧ Tubule.j2 tb' = Tubule.j2 tb
             ∧ (Tubule.to_remove tb = true → Tubule.to_remove tb' = true).
Proof.
  intros Hs R. destruct (ticks_edits n w Hs) as (w'' & R' & E).
  rewrite R in R'. injection R' as <-.
  destruct (edits_frame _ _ E) as (Hl & more & refs & _ & Hsub).
  rewrite Hsub. repeat split.
  - exact Hl.
  - exists refs. reflexivity.
  - intros t tb Ht.
    destruct (edits_tubule_kept _ _ t tb E Ht) as (tb' & Ht' & H1 & H2 & H3 & _).
    exists tb'. auto.
Qed.

Lemma ticks_remove_nothing_witness :
  Substrate.junctions (substrate (the (ticks 3 (the main_scene))))
  = Substrate.junctions (substrate (the main_scene))
  ∧ length (jstore (the (ticks 3 (the main_scene)))) = length (jstore (the main_scene))
  ∧ (∃ refs, Substrate.tubules (substrate (the (ticks 3 (the main_scene))))
             = Substrate.tubules (substrate (the main_scene)) ++ refs)
  ∧ ∀ t tb, tstore (the main_scene) !! t = Some tb →
      ∃ tb', tstore (the (ticks 3 (the main_scene))) !! t = Some tb'
             ∧ Tubule.j1 tb' = Tubule.j1 tb ∧ Tubule.j2 tb' = Tubule.j2 tb
             ∧ (Tubule.to_remove tb = true → Tubule.to_remove tb' = true).
Proof.
  apply (ticks_remove_nothing 3).
  - apply soundb_spec. vm_compute. reflexivity.
  - vm_compute. reflexivity.
Defined.

(** X5. If every [cross] and every [crossover] is within [-1, 1], this is
    still so after any number of ticks, for the tubules that merges have
    added as well. *)
Theorem ticks_keep_unit_range (n : nat) (w w' : World) :
  sound w → ranges_ok w → ticks n w = Ok w' → ranges_ok w'.
Proof.
  intros Hs Hr R. destruct (ticks_edits n w Hs) as (w'' & R' & E).
  rewrite R in R'. injection R' as <-.
  eapply edits_ranges; eauto.
Qed.

Lemma ticks_keep_unit_range_witness :
  ranges_ok (the (ticks 3 (the main_scene))).
Proof.
  apply (ticks_keep_unit_range 3 (the main_scene)).
  - apply soundb_spec. vm_compute. reflexivity.
  - apply ranges_okb_spec. vm_compute. reflexivity.
  - vm_compute. reflexivity.
Defined.

(** *** Splitting and seeding: changes that add junctions *)

Lemma addJunction_sound (x y : float) (k : junction_kargs) (w : World) :
  sound w → sound (fst (addJunction x y k w)).
Proof.
  intros [[Ht He] Hj]. split; [split|]; cbn.
  - exact Ht.
  - intros t tb Hl. rewrite length_app. cbn. destruct (He t tb Hl). lia.
  - intros r Hr. rewrite length_app. cbn.
    apply elem_of_app in Hr as [Hr|Hr].
    + specialize (Hj r Hr). lia.
    + apply list_elem_of_singleton in Hr. lia.
Qed.

Lemma addJunction_ranges (x y : float) (k : junction_kargs) (w : World) :
  in_unit_range (default 0 (ka_cross k)) →
  ranges_ok w → ranges_ok (fst (addJunction x y k w)).
Proof.
  intros Hk [Hj Ht]. split; cbn.
  - intros r j Hl. apply lookup_app_Some in Hl as [Hl|[_ Hl]]; [eauto|].
    apply list_lookup_singleton_Some in Hl as [_ <-]. exact Hk.
  - exact Ht.
Qed.

Lemma change_sound (w w' : World) : change w w' → sound w → sound w'.
Proof.
  intros [w0 w1 E | w0 x y k _].
  - apply edit_sound, E.
  - apply addJunction_sound.
Qed.

Lemma change_ranges (w w' : World) : change w w' → ranges_ok w → ranges_ok w'.
Proof.
  intros [w0 w1 E | w0 x y k Hk].
  - apply edit_ranges, E.
  - apply addJunction_ranges, Hk.
Qed.

Lemma change_junction_kept (w w' : World) (r : jref) (j : Junction.t) :
  change w w' → jstore w !! r = Some j →
  ∃ j', jstore w' !! r = Some j' ∧ junction_step j j'.
Proof.
  intros [w0 w1 E | w0 x y k _] Hj.
  - eapply edit_junction_kept; eauto.
  - exists j. split; [|apply junction_step_refl].
    cbn. apply lookup_app_l_Some, Hj.
Qed.

Lemma change_tubule_kept (w w' : World) (t : tref) (tb : Tubule.t) :
  change w w' → tstore w !! t = Some tb →
  ∃ tb', tstore w' !! t = Some tb' ∧ tubule_step tb tb'.
Proof.
  intros [w0 w1 E | w0 x y k _] Ht.
  - eapply edit_tubule_kept; eauto.
  - exists tb. split; [exact Ht | apply tubule_step_refl].
Qed.

Lemma changes_sound (w w' : World) : changes w w' → sound w → sound w'.
Proof. induction 1; eauto using change_sound. Qed.

Lemma changes_ranges (w w' : World) : changes w w' → ranges_ok w → ranges_ok w'.
Proof. induction 1; eauto using change_ranges. Qed.

Lemma changes_junction_kept (w w' : World) (r : jref) (j : Junction.t) :
  changes w w' → jstore w !! r = Some j →
  ∃ j', jstore w' !! r = Some j' ∧ junction_step j j'.
Proof.
  intros E. revert j. induction E as [w0 | w0 w1 w2 E1 _ IH]; intros j Hj.
  - exists j. split; [exact Hj | apply junction_step_refl].
  - destruct (change_junction_kept _ _ r j E1 Hj) as (j1 & Hj1 & S1).
    destruct (IH j1 Hj1) as (j2 & Hj2 & S2).
    exists j2. split; [exact Hj2 | eapply junction_step_trans; eauto].
Qed.

Lemma changes_tubule_kept (w w' : World) (t : tref) (tb : Tubule.t) :
  changes w w' → tstore w !! t = Some tb →
  ∃ tb', tstore w' !! t = Some tb' ∧ tubule_step tb tb'.
Proof.
  intros E. revert tb. induction E as [w0 | w0 w1 w2 E1 _ IH]; intros tb Ht.
  - exists tb. split; [exact Ht | apply tubule_step_refl].
  - destruct (change_tubule_kept _ _ t tb E1 Ht) as (t1 & Ht1 & S1).
    destruct (IH t1 Ht1) as (t2 & Ht2 & S2).
    exists t2. split; [exact Ht2 | eapply tubule_step_trans; eauto].
Qed.


(** A change only appends to the two collections of the substrate. *)
Lemma change_collections (w w' : World) :
  change w w' →
  ∃ (jrefs : list jref) (trefs : list tref),
    Substrate.junctions (substrate w') = Substrate.junctions (substrate w) ++ jrefs
    ∧ Substrate.tubules (substrate w') = Substrate.tubules (substrate w) ++ trefs.
Proof.
  intros [w0 w1 E | w0 x y k _].
  - destruct (edit_frame _ _ E) as (_ & more & refs & _ & ->).
    exists [], refs. cbn. rewrite app_nil_r. auto.
  - exists [length (jstore w0)], []. cbn. rewrite app_nil_r. auto.
Qed.

Lemma changes_collections (w w' : World) :
  changes w w' →
  ∃ (jrefs : list jref) (trefs : list tref),
    Substrate.junctions (substrate w') = Substrate.junctions (substrate w) ++ jrefs
    ∧ Substrate.tubules (substrate w') = Substrate.tubules (substrate w) ++ trefs.
Proof.
  induction 1 as [w0 | w0 w1 w2 E _ IH].
  - exists [], []. rewrite !app_nil_r. auto.
  - destruct (change_collections _ _ E) as (j1 & t1 & Ej1 & Et1).
    destruct IH as (j2 & t2 & Ej2 & Et2).
    exists (j1 ++ j2), (t1 ++ t2). rewrite Ej2, Et2, Ej1, Et1, !app_assoc. auto.
Qed.

Lemma set_adjacent_step (a : list jref) (j : Junction.t) :
  junction_step j (Junction.set_adjacent a j).
Proof. split; cbn; auto. Qed.

Lemma changes_step (w1 w2 w3 : World) : changes w1 w2 → change w2 w3 → changes w1 w3.
Proof. intros E C. eapply rtc_r; eauto. Qed.

Lemma changes_valid_junction (w w' : World) (r : jref) :
  changes w w' → (r < length (jstore w))%nat → (r < length (jstore w'))%nat.
Proof.
  intros E L. destruct (lookup_lt_is_Some_2 _ _ L) as [j Hj].
  destruct (changes_junction_kept _ _ r j E Hj) as (j' & Hj' & _).
  eapply lookup_lt_Some, Hj'.
Qed.

Lemma changes_valid_tubule (w w' : World) (t : tref) :
  changes w w' → (t < length (tstore w))%nat → (t < length (tstore w'))%nat.
Proof.
  intros E L. destruct (lookup_lt_is_Some_2 _ _ L) as [tb Ht].
  destruct (changes_tubule_kept _ _ t tb E Ht) as (tb' & Ht' & _).
  eapply lookup_lt_Some, Ht'.
Qed.

(** One more step of a run of changes: a write to a junction. *)
Lemma changes_modify (w0 w : World) (r : jref) (f : Junction.t → Junction.t) :
  changes w0 w → (r < length (jstore w))%nat → (∀ j, junction_step j (f j)) →
  ∃ w', modify_junction r f w = Ok w' ∧ changes w0 w'
        ∧ length (jstore w') = length (jstore w) ∧ tstore w' = tstore w.
Proof.
  intros E L Hf. destruct (lookup_lt_is_Some_2 _ _ L) as [j Hj].
  exists (put_junction r (f j) w). repeat split.
  - unfold modify_junction, junction. rewrite (proj2 (deref_Ok _ _ _) Hj). reflexivity.
  - eapply changes_step; [exact E|]. apply change_edit.
    apply (edit_junction w r j _ Hj), Hf.
  - cbn. apply length_insert.
Qed.

(** One more step of a run of changes: a new tubule. *)
Lemma changes_addTubule (w0 w : World) (r1 r2 : jref) (k : tubule_kargs) :
  changes w0 w → (r1 < length (jstore w))%nat → (r2 < length (jstore w))%nat →
  in_unit_range (default 0 (ka_crossover k)) →
  ∃ w' t, addTubule r1 r2 k w = Ok (w', t) ∧ changes w0 w'
          ∧ length (jstore w') = length (jstore w).
Proof.
  intros E L1 L2 Hc. destruct (addTubule_Ok r1 r2 k w L1 L2) as (tb & A & _).
  eexists _, _. split; [exact A|]. split.
  - eapply changes_step; [exact E|]. apply change_edit. eapply edit_add; [exact A | exact Hc].
  - sizes.
Qed.

Lemma split_at_changes (t : tref) (split_len : float) (negative : bool) (w : World) :
  sound w → (t < length (tstore w))%nat →
  ∃ w', split_at t split_len negative w = Ok w' ∧ changes w w'.
Proof.
  intros Hs Lt.
  destruct (sound_tubule w t Hs Lt) as (tb & e1 & e2 & Ht & H1 & H2).
  assert (L1 : (Tubule.j1 tb < length (jstore w))%nat) by (eapply lookup_lt_Some; eauto).
  assert (L2 : (Tubule.j2 tb < length (jstore w))%nat) by (eapply lookup_lt_Some; eauto).
  unfold split_at, tubule, junction.
  rewrite (proj2 (deref_Ok _ _ _) Ht). cbn [mbind result_bind].
  rewrite (proj2 (deref_Ok _ _ _) H1). cbn [mbind result_bind].
  rewrite (proj2 (deref_Ok _ _ _) H2). cbn [mbind result_bind].
  cbv zeta.
  match goal with |- context [end_crossovers ?c ?x ?x1 ?x2] =>
    pose proof (end_crossovers_range c x x1 x2) as [R1 R2];
    destruct (end_crossovers c x x1 x2) as [c1 c2] end.
  cbn [fst snd] in R1, R2.
  match goal with |- context [addTubule _ _ (kw_crossover ?c) _] =>
    lazymatch c with
    | c1 => fail | c2 => fail
    | _ => assert (R3 : in_unit_range c)
             by (unfold in_unit_range; repeat case_match; lia);
           generalize dependent c; intros c3 R3
    end end.
  match goal with |- context [addJunction ?x ?y ?k w] =>
    pose proof (change_new w x y k) as C1;
    pose proof (addJunction_sound x y k w Hs) as Hs1;
    assert (N1 : snd (addJunction x y k w) = length (jstore w)) by reflexivity;
    assert (M1 : length (jstore (fst (addJunction x y k w))) = S (length (jstore w)))
      by (cbn; rewrite length_app; cbn; lia);
    assert (T1 : tstore (fst (addJunction x y k w)) = tstore w) by reflexivity;
    destruct (addJunction x y k w) as [w1 s1]
  end.
  cbn [fst snd] in *. specialize (C1 ltac:(unfold in_unit_range; cbn; lia)).
  match goal with |- context [addJunction ?x ?y ?k w1] =>
    pose proof (change_new w1 x y k) as C2;
    assert (N2 : snd (addJunction x y k w1) = length (jstore w1)) by reflexivity;
    assert (M2 : length (jstore (fst (addJunction x y k w1))) = S (length (jstore w1)))
      by (cbn; rewrite length_app; cbn; lia);
    assert (T2 : tstore (fst (addJunction x y k w1)) = tstore w1) by reflexivity;
    destruct (addJunction x y k w1) as [w2 s2]
  end.
  cbn [fst snd] in *. specialize (C2 ltac:(unfold in_unit_range; cbn; lia)).
  assert (E2 : changes w w2).
  { eapply rtc_l; [exact C1|]. apply rtc_once, C2. }
  destruct (changes_modify w w2 (Tubule.j1 tb)
              (fun j => Junction.set_adjacent
                          (try_remove (Tubule.j2 tb) (Junction.adjacent j)) j) E2)
    as (w3 & -> & E3 & M3 & T3); [lia | intros; apply set_adjacent_step |].
  cbn [mbind result_bind].
  destruct (changes_modify w w3 (Tubule.j2 tb)
              (fun j => Junction.set_adjacent
                          (try_remove (Tubule.j1 tb) (Junction.adjacent j)) j) E3)
    as (w4 & -> & E4 & M4 & T4); [lia | intros; apply set_adjacent_step |].
  cbn [mbind result_bind].
  destruct (changes_addTubule w w4 s1 (Tubule.j1 tb) (kw_crossover c1) E4) as (w5 & t5 & -> & E5 & M5);
    [lia | lia | exact R1 |].
  cbn [mbind result_bind].
  destruct (changes_addTubule w w5 s1 (Tubule.j2 tb) (kw_crossover c2) E5) as (w6 & t6 & -> & E6 & M6);
    [lia | lia | exact R2 |].
  cbn [mbind result_bind].
  destruct (changes_addTubule w w6 s1 s2 (kw_crossover c3) E6) as (w7 & t7 & -> & E7 & M7);
    [lia | lia | exact R3 |].
  cbn [mbind result_bind].
  destruct (changes_tubule_kept _ _ t tb E7 Ht) as (tb7 & Ht7 & _).
  rewrite (proj2 (deref_Ok _ _ _) Ht7). cbn [mbind result_bind mret result_ret].
  eexists. split; [reflexivity|].
  eapply changes_step; [exact E7|]. apply change_edit.
  apply (edit_tubule w7 t tb7 _ Ht7). unfold tubule_step. cbn. auto.
Qed.

Lemma split_scan_changes (ts : list tref) (r : float) (negative : bool) (w : World) :
  sound w → Forall (λ t, (t < length (tstore w))%nat) ts →
  ∃ w', split_scan ts r negative w = Ok w' ∧ changes w w'.
Proof.
  intros Hs. revert r. induction ts as [|t ts IH]; intros r Hts.
  - exists w. split; [reflexivity | apply rtc_refl].
  - apply Forall_cons in Hts as [Lt Hts].
    destruct (lookup_lt_is_Some_2 _ _ Lt) as [tb Ht].
    cbn [split_scan]. unfold tubule.
    rewrite (proj2 (deref_Ok _ _ _) Ht). cbn [mbind result_bind].
    destruct (Np.gtb r (Tubule.norm tb)).
    + apply IH, Hts.
    + apply split_at_changes; assumption.
Qed.

Lemma splitTubule_changes (rnd : float) (negative : bool) (w : World) :
  sound w → ∃ w', splitTubule rnd negative w = Ok w' ∧ changes w w'.
Proof.
  intros Hs. unfold splitTubule. cbv zeta.
  destruct (sum_norms_Ok w (Substrate.tubules (substrate w)) (Np.of_int 0))
    as (total & ->); [apply Hs|].
  cbn [mbind result_bind].
  apply split_scan_changes; [exact Hs|].
  apply Forall_forall. intros t Ht. apply Hs, Ht.
Qed.

(** Name the world and the reference that [addJunction] returns on [w0]. *)
Ltac new_junction w0 w1 r1 C M N :=
  match goal with |- context [addJunction ?x ?y ?k w0] =>
    pose proof (change_new w0 x y k ltac:(unfold in_unit_range; cbn; lia)) as C;
    assert (N : snd (addJunction x y k w0) = length (jstore w0)) by reflexivity;
    assert (M : length (jstore (fst (addJunction x y k w0))) = S (length (jstore w0)))
      by (cbn; rewrite length_app; cbn; lia);
    destruct (addJunction x y k w0) as [w1 r1]; cbn [fst snd] in *
  end.

Lemma initSubstrate_changes (b1 b2 t1 t2 : float) (w : World) :
  ∃ w', initSubstrate b1 b2 t1 t2 w = Ok w' ∧ changes w w'
        ∧ length (jstore w') = (length (jstore w) + 4)%nat.
Proof.
  unfold initSubstrate. cbv zeta.
  new_junction w w1 r1 C1 M1 N1.
  new_junction w1 w2 r2 C2 M2 N2.
  new_junction w2 w3 r3 C3 M3 N3.
  new_junction w3 w4 r4 C4 M4 N4.
  assert (E4 : changes w w4).
  { eapply rtc_l; [exact C1|]. eapply rtc_l; [exact C2|].
    eapply rtc_l; [exact C3|]. apply rtc_once, C4. }
  destruct (changes_addTubule w w4 r1 r3 no_tubule_kargs E4) as (w5 & t5 & -> & E5 & M5);
    [lia | lia | unfold in_unit_range; cbn; lia |].
  cbn [mbind result_bind].
  destruct (changes_addTubule w w5 r2 r4 no_tubule_kargs E5) as (w6 & t6 & -> & E6 & M6);
    [lia | lia | unfold in_unit_range; cbn; lia |].
  cbn [mbind result_bind mret result_ret].
  exists w6. split; [reflexivity|]. split; [exact E6 | lia].
Qed.

(** *** The driver's removal of marked tubules *)

Lemma clear_unmarked (tb : Tubule.t) :
  Tubule.to_remove tb = false → clear_to_remove tb = tb.
Proof. destruct tb. cbn. intros ->. reflexivity. Qed.

Lemma filter_ext_in {A : Type} (P Q : A → Prop)
    `{∀ x, Decision (P x)} `{∀ x, Decision (Q x)} (l : list A) :
  (∀ x, x ∈ l → (P x ↔ Q x)) → filter P l = filter Q l.
Proof.
  induction l as [|a l IH]; intros Hl; [reflexivity|].
  rewrite !filter_cons.
  rewrite IH by (intros x Hx; apply Hl; right; exact Hx).
  destruct (decide (P a)), (decide (Q a)); try reflexivity;
    exfalso; pose proof (Hl a ltac:(left)); tauto.
Qed.

(** After the first loop over [ts]: the collected tubules are the marked
    ones of [ts]; every tubule of [ts] has lost its mark and nothing else
    has changed. *)
Lemma collect_marks_spec (ts : list tref) (w : World) :
  Forall (λ t, (t < length (tstore w))%nat) ts →
  ∃ doomed w',
    collect_marks ts w = Ok (doomed, w')
    ∧ jstore w' = jstore w ∧ substrate w' = substrate w
    ∧ (∀ t, tstore w' !! t
            = (if decide (t ∈ ts) then clear_to_remove else id) <$> tstore w !! t)
    ∧ (∀ t, t ∈ doomed ↔ t ∈ ts ∧ marked w !! t = Some true)
    ∧ (NoDup ts → doomed = filter (λ t, marked w !! t = Some true) ts).
Proof.
  revert w. induction ts as [|t ts IH]; intros w Hts.
  - exists [], w. split_and!; try reflexivity.
    + intros t. destruct (tstore w !! t); reflexivity.
    + intros t. rewrite elem_of_nil. tauto.
  - apply Forall_cons in Hts as [Lt Hts].
    destruct (lookup_lt_is_Some_2 _ _ Lt) as [tb Ht].
    cbn [collect_marks]. unfold tubule.
    rewrite (proj2 (deref_Ok _ _ _) Ht). cbn [mbind result_bind].
    assert (Hm : marked w !! t = Some (Tubule.to_remove tb)).
    { unfold marked. rewrite list_lookup_fmap, Ht. reflexivity. }
    destruct (Tubule.to_remove tb) eqn:Em.
    + destruct (IH (put_tubule t (clear_to_remove tb) w))
        as (doomed & w' & -> & Hj & Hsub & Hst & Hd & Hn).
      { cbn. rewrite length_insert. exact Hts. }
      cbn [mbind result_bind mret result_ret].
      assert (Hother : ∀ u, u ≠ t →
                marked (put_tubule t (clear_to_remove tb) w) !! u = marked w !! u).
      { intros u Hu. unfold marked. rewrite !list_lookup_fmap. cbn.
        rewrite list_lookup_insert_ne by congruence. reflexivity. }
      assert (Hself : marked (put_tubule t (clear_to_remove tb) w) !! t = Some false).
      { unfold marked. rewrite list_lookup_fmap. cbn.
        rewrite list_lookup_insert_eq by exact Lt. reflexivity. }
      exists (t :: doomed), w'. split_and!; try reflexivity; try assumption.
      * intros u. rewrite Hst. cbn.
        destruct (decide (u = t)) as [->|Hu].
        -- rewrite list_lookup_insert_eq by exact Lt. rewrite Ht. cbn.
           rewrite (decide_True (P := t ∈ t :: ts)) by left.
           case_decide; reflexivity.
        -- rewrite list_lookup_insert_ne by congruence.
           destruct (decide (u ∈ ts)) as [Hin|Hin].
           ++ rewrite (decide_True (P := u ∈ t :: ts)) by (right; exact Hin). reflexivity.
           ++ rewrite (decide_False (P := u ∈ t :: ts)); [reflexivity|].
              rewrite elem_of_cons. intuition.
      * intros u. rewrite !elem_of_cons, Hd.
        destruct (decide (u = t)) as [->|Hu]; [intuition|].
        rewrite (Hother u Hu). intuition.
      * intros Hnd. apply NoDup_cons in Hnd as [Hnt Hnd].
        rewrite filter_cons_True by exact Hm. f_equal.
        rewrite (Hn Hnd). apply filter_ext_in.
        intros u Hu. rewrite Hother; [reflexivity|]. intros ->. contradiction.
    + destruct (IH w Hts) as (doomed & w' & -> & Hj & Hsub & Hst & Hd & Hn).
      exists doomed, w'. split_and!; try reflexivity; try assumption.
      * intros u. rewrite Hst.
        destruct (decide (u = t)) as [->|Hu].
        -- rewrite (decide_True (P := t ∈ t :: ts)) by left.
           rewrite Ht. case_decide; cbn; rewrite ?(clear_unmarked tb Em); reflexivity.
        -- destruct (decide (u ∈ ts)) as [Hin|Hin].
           ++ rewrite (decide_True (P := u ∈ t :: ts)) by (right; exact Hin). reflexivity.
           ++ rewrite (decide_False (P := u ∈ t :: ts)); [reflexivity|].
              rewrite elem_of_cons. intuition.
      * intros u. rewrite elem_of_cons, Hd.
        destruct (decide (u = t)) as [->|Hu]; [|intuition].
        rewrite Hm. intuition congruence.
      * intros Hnd. apply NoDup_cons in Hnd as [Hnt Hnd].
        rewrite filter_cons_False by congruence. apply Hn, Hnd.
Qed.

Lemma list_remove_sub (x : jref) (l l' : list jref) :
  list_remove x l = Ok l' → ∀ y, y ∈ l' → y ∈ l.
Proof.
  revert l'. induction l as [|a l IH]; intros l' H y Hy; [discriminate|].
  cbn in H. destruct (decide (x = a)) as [->|N].
  - injection H as <-. right. exact Hy.
  - destruct (list_remove x l) as [r|e]; [|discriminate].
    injection H as <-. apply elem_of_cons in Hy as [->|Hy]; [left|right; eauto].
Qed.

Lemma filter_all {A : Type} (P : A → Prop) `{∀ x, Decision (P x)} (l : list A) :
  (∀ x, x ∈ l → P x) → filter P l = l.
Proof.
  induction l as [|a l IH]; intros Hl; [reflexivity|].
  rewrite filter_cons_True by (apply Hl; left).
  rewrite IH by (intros x Hx; apply Hl; right; exact Hx). reflexivity.
Qed.

Lemma filter_absent (x : jref) (l : list jref) :
  x ∉ l → filter (λ y, y ≠ x) l = l.
Proof.
  intros Hx. apply filter_all. intros y Hy ->. contradiction.
Qed.

Lemma list_remove_NoDup (x : jref) (l : list jref) :
  NoDup l → x ∈ l → list_remove x l = Ok (filter (λ y, y ≠ x) l).
Proof.
  induction l as [|a l IH]; intros Hnd Hin; [inversion Hin|].
  apply NoDup_cons in Hnd as [Ha Hnd]. cbn [list_remove].
  destruct (decide (x = a)) as [->|N].
  - rewrite filter_cons_False by auto. rewrite filter_absent by exact Ha. reflexivity.
  - apply elem_of_cons in Hin as [->|Hin]; [congruence|].
    rewrite (IH Hnd Hin). rewrite filter_cons_True by congruence. reflexivity.
Qed.

(** The second loop never raises, and only removes. *)
Lemma remove_all_Ok (doomed ts : list tref) :
  ∃ ts', remove_all doomed ts = Ok ts' ∧ ∀ t, t ∈ ts' → t ∈ ts.
Proof.
  revert ts. induction doomed as [|d doomed IH]; intros ts.
  - exists ts. split; [reflexivity | auto].
  - cbn [remove_all]. unfold contains. destruct (bool_decide_reflect (d ∈ ts)) as [Hin|Hin].
    + destruct (list_remove_elem d ts Hin) as (ts1 & E1). rewrite E1.
      cbn [mbind result_bind].
      destruct (IH ts1) as (ts' & -> & Hsub).
      exists ts'. split; [reflexivity|].
      intros t Ht. eapply list_remove_sub; eauto.
    + cbn [mbind result_bind mret result_ret]. apply IH.
Qed.

(** On a collection without repetitions it removes exactly the doomed. *)
Lemma remove_all_NoDup (doomed ts : list tref) :
  NoDup ts → remove_all doomed ts = Ok (filter (λ t, t ∉ doomed) ts).
Proof.
  revert ts. induction doomed as [|d doomed IH]; intros ts Hnd.
  - cbn [remove_all]. rewrite filter_all; [reflexivity|].
    intros t _. apply not_elem_of_nil.
  - cbn [remove_all].
    assert (E : (if contains d ts then list_remove d ts else mret ts)
                = Ok (filter (λ y, y ≠ d) ts)).
    { unfold contains. destruct (bool_decide_reflect (d ∈ ts)) as [Hin|Hin].
      - apply list_remove_NoDup; assumption.
      - rewrite filter_absent by exact Hin. reflexivity. }
    rewrite E. cbn [mbind result_bind].
    rewrite IH by (apply NoDup_filter, Hnd).
    f_equal. rewrite list_filter_filter. apply filter_ext_in.
    intros t _. rewrite not_elem_of_cons. tauto.
Qed.

Lemma sweep_spec (w : World) :
  sound w →
  ∃ w' ts',
    sweep w = Ok w'
    ∧ jstore w' = jstore w
    ∧ substrate w' = Substrate.set_tubules ts' (substrate w)
    ∧ (∀ t, t ∈ ts' → t ∈ Substrate.tubules (substrate w))
    ∧ (∀ t, tstore w' !! t
            = (if decide (t ∈ Substrate.tubules (substrate w))
               then clear_to_remove else id) <$> tstore w !! t)
    ∧ (NoDup (Substrate.tubules (substrate w)) →
       ts' = filter (λ t, marked w !! t ≠ Some true) (Substrate.tubules (substrate w))).
Proof.
  intros Hs. unfold sweep. cbv zeta.
  destruct (collect_marks_spec (Substrate.tubules (substrate w)) w)
    as (doomed & w1 & -> & Hj & Hsub & Hst & Hd & Hn).
  { apply Forall_forall. intros t Ht. apply Hs, Ht. }
  cbn [mbind result_bind].
  destruct (remove_all_Ok doomed (Substrate.tubules (substrate w))) as (ts' & E & Hin).
  rewrite E. cbn [mbind result_bind mret result_ret].
  exists (set_substrate (Substrate.set_tubules ts' (substrate w1)) w1), ts'.
  split_and!; try reflexivity; try assumption.
  - cbn. rewrite Hsub. reflexivity.
  - intros Hnd. rewrite (remove_all_NoDup _ _ Hnd) in E. injection E as <-.
    apply filter_ext_in. intros t Ht. rewrite Hd. tauto.
Qed.



Lemma swept_lookup (w w' : World) (ts : list tref) (t : tref) (tb' : Tubule.t) :
  (∀ t, tstore w' !! t = (if decide (t ∈ ts) then clear_to_remove else id) <$> tstore w !! t) →
  tstore w' !! t = Some tb' →
  ∃ tb, tstore w !! t = Some tb
        ∧ Tubule.j1 tb' = Tubule.j1 tb ∧ Tubule.j2 tb' = Tubule.j2 tb
        ∧ Tubule.crossover tb' = Tubule.crossover tb
        ∧ (t ∈ ts → Tubule.to_remove tb' = false).
Proof.
  intros Hst Ht. rewrite Hst in Ht.
  destruct (tstore w !! t) as [tb|]; [|discriminate].
  exists tb. split; [reflexivity|].
  cbn in Ht. injection Ht as <-. case_decide; cbn; intuition.
Qed.

Lemma sweep_carries (w : World) :
  sound w → ∃ w', sweep w = Ok w' ∧ carries w w'.
Proof.
  intros Hs. destruct (sweep_spec w Hs) as (w' & ts' & R & Hj & Hsub & Hin & Hst & _).
  exists w'. split; [exact R|]. split_and!.
  - destruct Hs as [[Ht He] Hjs]. split; [split|].
    + intros t Htin. rewrite Hsub in Htin. cbn in Htin.
      specialize (Ht t (Hin t Htin)).
      destruct (lookup_lt_is_Some_2 _ _ Ht) as [tb Htb].
      apply lookup_lt_is_Some. rewrite Hst, Htb. eexists. reflexivity.
    + intros t tb' Htb'. rewrite Hj.
      destruct (swept_lookup _ _ _ _ _ Hst Htb') as (tb & Htb & -> & -> & _).
      eauto.
    + intros r Hr. rewrite Hsub in Hr. cbn in Hr. rewrite Hj. apply Hjs, Hr.
  - intros [Rj Rt]. split.
    + intros r j. rewrite Hj. apply Rj.
    + intros t tb' Htb'.
      destruct (swept_lookup _ _ _ _ _ Hst Htb') as (tb & Htb & _ & _ & -> & _).
      eauto.
  - intros r j Hr. exists j. rewrite Hj. split; [exact Hr | apply junction_step_refl].
Qed.




(** *** Clamping at the walls *)

Lemma ltb_irrefl (x : float) : PrimFloat.ltb x x = false.
Proof.
  rewrite FloatAxioms.ltb_spec. unfold SFltb, SFcompare.
  destruct (Prim2SF x) as [s| [] | |[] m e]; try reflexivity;
    rewrite Z.compare_refl; rewrite ?Pos.compare_refl, ?Pos.compare_cont_refl; reflexivity.
Qed.

Lemma boundSubstrate_clamp (r : jref) (w : World) :
  boundSubstrate r w = modify_junction r (clamp (substrate w)) w.
Proof. reflexivity. Qed.

Lemma clamp_inside (self : Substrate.t) (j : Junction.t) :
  walls_ok self → inside self (clamp self j).
Proof.
  intros [Hh Hw]. unfold inside, clamp, Np.gtb in *.
  destruct (Substrate.bound_x self); cbv zeta.
  - specialize (Hw eq_refl).
    destruct (PrimFloat.ltb (Substrate.width self) (fst (Junction.position j))) eqn:E1;
      [|destruct (PrimFloat.ltb (fst (Junction.position j)) (Np.of_int 0)) eqn:E2];
      cbn [pin Junction.position Junction.set_growing Junction.set_anchor
           Junction.set_position Np.set0 Np.set1 fst snd];
      (destruct (PrimFloat.ltb (Substrate.height self) (snd (Junction.position j))) eqn:E3;
       [|destruct (PrimFloat.ltb (snd (Junction.position j)) (Np.of_int 0)) eqn:E4]);
      cbn [pin Junction.position Junction.set_growing Junction.set_anchor
           Junction.set_position Np.set0 Np.set1 fst snd];
      rewrite ?ltb_irrefl, ?Hh, ?Hw, ?E1, ?E2, ?E3, ?E4; auto.
  - destruct (PrimFloat.ltb (Substrate.height self) (snd (Junction.position j))) eqn:E3;
      [|destruct (PrimFloat.ltb (snd (Junction.position j)) (Np.of_int 0)) eqn:E4];
      cbn [pin Junction.position Junction.set_growing Junction.set_anchor
           Junction.set_position Np.set0 Np.set1 fst snd];
      rewrite ?ltb_irrefl, ?Hh, ?E3, ?E4; split_and!; auto; discriminate.
Qed.

Lemma clamp_of_inside (self : Substrate.t) (j : Junction.t) :
  inside self j → clamp self j = j.
Proof.
  intros (H1 & H2 & H3). unfold clamp.
  destruct (Substrate.bound_x self); cbv zeta.
  - destruct (H3 eq_refl) as [H4 H5]. rewrite H4, H5, H1, H2. reflexivity.
  - rewrite H1, H2. reflexivity.
Qed.

Lemma clamp_pins (self : Substrate.t) (j : Junction.t) :
  clamp self j = j
  ∨ (Junction.anchor (clamp self j) = true ∧ Junction.growing (clamp self j) = false).
Proof.
  unfold clamp. cbv zeta.
  repeat match goal with
         | |- context [if ?c then _ else _] =>
             lazymatch c with context [if _ then _ else _] => fail | _ => destruct c end
         end; cbn; auto.
Qed.

(** X12. Where the walls are not below or left of the origin,
    [boundSubstrate(j)] leaves the junction between the walls that are
    switched on, and a junction it has moved is anchored and no longer
    growing. *)
Theorem boundSubstrate_inside (r : jref) (w w' : World) (j j' : Junction.t) :
  walls_ok (substrate w) →
  jstore w !! r = Some j →
  boundSubstrate r w = Ok w' → jstore w' !! r = Some j' →
  inside (substrate w) j'
  ∧ (j' = j ∨ (Junction.anchor j' = true ∧ Junction.growing j' = false)).
Proof.
  intros Hw Hj H Hj'. rewrite boundSubstrate_clamp in H.
  apply modify_junction_Ok in H as (j0 & Hj0 & ->).
  rewrite Hj in Hj0. injection Hj0 as <-.
  cbn in Hj'. rewrite list_lookup_insert_eq in Hj' by (eapply lookup_lt_Some; eauto).
  injection Hj' as <-.
  split; [apply clamp_inside, Hw | apply clamp_pins].
Qed.

Lemma put_junction_same (r : jref) (j : Junction.t) (w : World) :
  jstore w !! r = Some j → put_junction r j w = w.
Proof.
  intros H. destruct w as [js ts s]. unfold put_junction, set_jstore. cbn in *.
  rewrite list_insert_id by exact H. reflexivity.
Qed.

(** X13. Under the same condition on the walls, [boundSubstrate(j)] run
    a second time changes nothing. *)
Theorem boundSubstrate_idempotent (r : jref) (w w' : World) :
  walls_ok (substrate w) →
  boundSubstrate r w = Ok w' → boundSubstrate r w' = Ok w'.
Proof.
  intros Hw H. rewrite boundSubstrate_clamp in *.
  apply modify_junction_Ok in H as (j & Hj & ->).
  assert (L : (r < length (jstore w))%nat) by (eapply lookup_lt_Some; eauto).
  unfold modify_junction, junction.
  cbn [jstore put_junction set_jstore substrate].
  assert (E : <[r := clamp (substrate w) j]> (jstore w) !! r
              = Some (clamp (substrate w) j)) by (apply list_lookup_insert_eq, L).
  rewrite (proj2 (deref_Ok _ _ _) E). cbn [mbind result_bind mret result_ret].
  rewrite (clamp_of_inside _ _ (clamp_inside _ j Hw)).
  f_equal. apply (put_junction_same r _ (put_junction r (clamp (substrate w) j) w)), E.
Qed.

Lemma boundSubstrate_inside_witness :
  inside (substrate overshoot_scene)
    (the_junction (the (boundSubstrate 0%nat overshoot_scene)) 0%nat)
  ∧ (the_junction (the (boundSubstrate 0%nat overshoot_scene)) 0%nat
     = the_junction overshoot_scene 0%nat
     ∨ (Junction.anchor (the_junction (the (boundSubstrate 0%nat overshoot_scene)) 0%nat)
        = true
        ∧ Junction.growing (the_junction (the (boundSubstrate 0%nat overshoot_scene)) 0%nat)
          = false)).
Proof.
  apply (boundSubstrate_inside 0%nat overshoot_scene
           (the (boundSubstrate 0%nat overshoot_scene))).
  - split; [vm_compute; reflexivity | intros _; vm_compute; reflexivity].
  - vm_compute. reflexivity.
  - vm_compute. reflexivity.
  - vm_compute. reflexivity.
Defined.

Lemma boundSubstrate_idempotent_witness :
  boundSubstrate 0%nat (the (boundSubstrate 0%nat overshoot_scene))
  = Ok (the (boundSubstrate 0%nat overshoot_scene)).
Proof.
  apply (boundSubstrate_idempotent 0%nat overshoot_scene).
  - split; [vm_compute; reflexivity | intros _; vm_compute; reflexivity].
  - vm_compute. reflexivity.
Defined.

(** *** Splitting *)

(** X6. [splitTubule()] returns normally in every world whose references
    point to objects, whatever is drawn, and every reference points to an
    object afterwards. *)
Theorem splitTubule_never_raises (rnd : float) (negative : bool) (w : World) :
  sound w → ∃ w', splitTubule rnd negative w = Ok w' ∧ sound w'.
Proof.
  intros Hs. destruct (splitTubule_changes rnd negative w Hs) as (w' & R & E).
  exists w'. split; [exact R|]. eapply changes_sound; eauto.
Qed.

Lemma splitTubule_never_raises_witness :
  ∃ w', splitTubule 0.5 true (the three_scene) = Ok w' ∧ sound w'.
Proof.
  apply splitTubule_never_raises. apply soundb_spec. vm_compute. reflexivity.
Defined.

(** X7. [splitTubule()] keeps every [cross] and [crossover] within
    [-1, 1]: the crossovers it gives the three tubules it creates are
    -1, 0 or 1. *)
Theorem splitTubule_keeps_unit_range (rnd : float) (negative : bool) (w w' : World) :
  sound w → ranges_ok w → splitTubule rnd negative w = Ok w' → ranges_ok w'.
Proof.
  intros Hs Hr R. destruct (splitTubule_changes rnd negative w Hs) as (w'' & R' & E).
  rewrite R in R'. injection R' as <-. eapply changes_ranges; eauto.
Qed.

Lemma splitTubule_keeps_unit_range_witness :
  ranges_ok (the (splitTubule 0.5 true (the wrapped_scene))).
Proof.
  apply (splitTubule_keeps_unit_range 0.5 true (the wrapped_scene)).
  - apply soundb_spec. vm_compute. reflexivity.
  - apply ranges_okb_spec. vm_compute. reflexivity.
  - vm_compute. reflexivity.
Defined.

(** X8. [splitTubule()] removes nothing and releases no anchor: the
    junction collection and the tubule collection of the substrate are
    what they were with entries appended at the end; every junction is
    still there, anchored if it was, and every tubule keeps its two ends
    and, once marked for removal, its mark. *)
Theorem splitTubule_removes_nothing (rnd : float) (negative : bool) (w w' : World) :
  sound w → splitTubule rnd negative w = Ok w' →
  (∃ jrefs, Substrate.junctions (substrate w')
            = Substrate.junctions (substrate w) ++ jrefs)
  ∧ (∃ trefs, Substrate.tubules (substrate w')
              = Substrate.tubules (substrate w) ++ trefs)
  ∧ (∀ r j, jstore w !! r = Some j →
       ∃ j', jstore w' !! r = Some j'
             ∧ (Junction.anchor j = true → Junction.anchor j' = true))
  ∧ (∀ t tb, tstore w !! t = Some tb →
       ∃ tb', tstore w' !! t = Some tb'
              ∧ Tubule.j1 tb' = Tubule.j1 tb ∧ Tubule.j2 tb' = Tubule.j2 tb
              ∧ (Tubule.to_remove tb = true → Tubule.to_remove tb' = true)).
Proof.
  intros Hs R. destruct (splitTubule_changes rnd negative w Hs) as (w'' & R' & E).
  rewrite R in R'. injection R' as <-.
  destruct (changes_collections _ _ E) as (jrefs & trefs & Ej & Et).
  split_and!.
  - exists jrefs. exact Ej.
  - exists trefs. exact Et.
  - intros r j Hj. destruct (changes_junction_kept _ _ r j E Hj) as (j' & Hj' & Ha & _).
    exists j'. auto.
  - intros t tb Ht.
    destruct (changes_tubule_kept _ _ t tb E Ht) as (tb' & Ht' & H1 & H2 & H3 & _).
    exists tb'. auto.
Qed.

Lemma splitTubule_removes_nothing_witness :
  (∃ jrefs, Substrate.junctions (substrate (the (splitTubule 0.5 true (the three_scene))))
            = Substrate.junctions (substrate (the three_scene)) ++ jrefs)
  ∧ (∃ trefs, Substrate.tubules (substrate (the (splitTubule 0.5 true (the three_scene))))
              = Substrate.tubules (substrate (the three_scene)) ++ trefs)
  ∧ (∀ r j, jstore (the three_scene) !! r = Some j →
       ∃ j', jstore (the (splitTubule 0.5 true (the three_scene))) !! r = Some j'
             ∧ (Junction.anchor j = true → Junction.anchor j' = true))
  ∧ (∀ t tb, tstore (the three_scene) !! t = Some tb →
       ∃ tb', tstore (the (splitTubule 0.5 true (the three_scene))) !! t = Some tb'
              ∧ Tubule.j1 tb' = Tubule.j1 tb ∧ Tubule.j2 tb' = Tubule.j2 tb
              ∧ (Tubule.to_remove tb = true → Tubule.to_remove tb' = true)).
Proof.
  apply (splitTubule_removes_nothing 0.5 true).
  - apply soundb_spec. vm_compute. reflexivity.
  - vm_compute. reflexivity.
Defined.

(** *** The driver's loop *)

(** X9. The driver's removal, on a tubule collection without repetitions:
    the collection afterwards is the unmarked tubules in their order; no
    tubule of it carries a mark; the junctions are untouched. *)
Theorem sweep_removes_marked (w w' : World) :
  sound w → NoDup (Substrate.tubules (substrate w)) → sweep w = Ok w' →
  Substrate.tubules (substrate w')
  = filter (λ t, marked w !! t ≠ Some true) (Substrate.tubules (substrate w))
  ∧ (∀ t, t ∈ Substrate.tubules (substrate w') → marked w' !! t = Some false)
  ∧ jstore w' = jstore w
  ∧ Substrate.junctions (substrate w') = Substrate.junctions (substrate w).
Proof.
  intros Hs Hnd R.
  destruct (sweep_spec w Hs) as (w'' & ts' & R' & Hj & Hsub & Hin & Hst & Hf).
  rewrite R in R'. injection R' as <-.
  rewrite Hsub. cbn [Substrate.tubules Substrate.junctions Substrate.set_tubules].
  split_and!; [apply Hf, Hnd | | exact Hj | reflexivity].
  intros t Ht. specialize (Hin t Ht).
  assert (Lt : (t < length (tstore w))%nat) by (apply Hs, Hin).
  destruct (lookup_lt_is_Some_2 _ _ Lt) as [tb Htb].
  unfold marked. rewrite list_lookup_fmap, Hst, Htb.
  rewrite decide_True by exact Hin. reflexivity.
Qed.

Lemma sweep_removes_marked_witness :
  Substrate.tubules (substrate (the (sweep (the main_scene))))
  = filter (λ t, marked (the main_scene) !! t ≠ Some true)
      (Substrate.tubules (substrate (the main_scene)))
  ∧ (∀ t, t ∈ Substrate.tubules (substrate (the (sweep (the main_scene)))) →
          marked (the (sweep (the main_scene))) !! t = Some false)
  ∧ jstore (the (sweep (the main_scene))) = jstore (the main_scene)
  ∧ Substrate.junctions (substrate (the (sweep (the main_scene))))
    = Substrate.junctions (substrate (the main_scene)).
Proof.
  apply sweep_removes_marked.
  - apply soundb_spec. vm_compute. reflexivity.
  - apply (@bool_decide_unpack _ (NoDup_dec _)). vm_compute. exact I.
  - vm_compute. reflexivity.
Defined.

(** X10. The driver's removal, run a second time, changes nothing. *)
Theorem sweep_idempotent (w w' : World) :
  sound w → sweep w = Ok w' → sweep w' = Ok w'.
Proof.
  intros Hs R.
  destruct (sweep_spec w Hs) as (w1 & ts' & R' & Hj & Hsub & Hin & Hst & _).
  rewrite R in R'. injection R' as <-.
  assert (Hs' : sound w').
  { destruct (sweep_carries w Hs) as (w2 & R2 & C). rewrite R in R2.
    injection R2 as <-. apply C. }
  assert (Hts : Substrate.tubules (substrate w') = ts') by (rewrite Hsub; reflexivity).
  unfold sweep. cbv zeta. rewrite Hts.
  destruct (collect_marks_spec ts' w') as (doomed & w2 & -> & Hj2 & Hsub2 & Hst2 & Hd & _).
  { apply Forall_forall. intros t Ht. apply Hs'. rewrite Hts. exact Ht. }
  cbn [mbind result_bind].
  assert (Hclean : ∀ t, t ∈ ts' → marked w' !! t ≠ Some true).
  { intros t Ht. unfold marked. rewrite list_lookup_fmap, Hst.
    rewrite decide_True by (apply Hin, Ht).
    destruct (tstore w !! t); cbn; congruence. }
  assert (doomed = []) as ->.
  { apply elem_of_nil_inv. intros t Ht. apply Hd in Ht as [Ht Hm].
    exact (Hclean t Ht Hm). }
  cbn [remove_all mbind result_bind mret result_ret]. f_equal.
  assert (Hsame : tstore w2 = tstore w').
  { apply list_eq. intros t. rewrite Hst2.
    destruct (tstore w' !! t) as [tb|] eqn:Etb; [|reflexivity].
    case_decide as Ht; [|reflexivity]. cbn. f_equal.
    apply clear_unmarked.
    specialize (Hclean t Ht). unfold marked in Hclean.
    rewrite list_lookup_fmap, Etb in Hclean. cbn in Hclean.
    destruct (Tubule.to_remove tb); congruence. }
  destruct w2 as [js2 ts2 s2], w' as [js' tss' s']. cbn in *. subst.
  reflexivity.
Qed.

Lemma sweep_idempotent_witness :
  sweep (the (sweep (the main_scene))) = Ok (the (sweep (the main_scene))).
Proof.
  apply (sweep_idempotent (the main_scene)).
  - apply soundb_spec. vm_compute. reflexivity.
  - vm_compute. reflexivity.
Defined.



(** *** Registration and motion *)

(** X14. [addFunctions] appends to the junction pipeline the junction
    operations named in the list, and to the tubule pipeline the tubule
    operations named, each in the order of the list; names it does not
    know are skipped, and nothing else of the substrate changes. *)
Theorem addFunctions_spec (function_list : list string) (self : Substrate.t) :
  Substrate.addFunctions function_list self
  = Substrate.set_functions
      (Substrate.j_functions self
         ++ omap (λ func, match Substrate.function_dict func with
                          | Some (inl f) => Some f
                          | _ => None
                          end) function_list)
      (Substrate.t_functions self
         ++ omap (λ func, match Substrate.function_dict func with
                          | Some (inr f) => Some f
                          | _ => None
                          end) function_list)
      self.
Proof.
  revert self. induction function_list as [|func rest IH]; intros self.
  - cbn. rewrite !app_nil_r. destruct self. reflexivity.
  - cbn [Substrate.addFunctions omap list_omap]. rewrite IH.
    destruct (Substrate.function_dict func) as [[f|f]|]; cbn;
      rewrite <- ?app_assoc; reflexivity.
Qed.

(** X15. [moveJunction()] writes position, velocity and cross only: an
    anchored junction keeps its cross, any other ends with cross 0; the
    flags, the adjacency list and the parameters are as they were. *)
Theorem moveJunction_touches (j : Junction.t) :
  Junction.cross (Junction.moveJunction j)
  = (if Junction.anchor j then Junction.cross j else 0)
  ∧ Junction.anchor (Junction.moveJunction j) = Junction.anchor j
  ∧ Junction.growing (Junction.moveJunction j) = Junction.growing j
  ∧ Junction.flowing (Junction.moveJunction j) = Junction.flowing j
  ∧ Junction.just_split (Junction.moveJunction j) = Junction.just_split j
  ∧ Junction.adjacent (Junction.moveJunction j) = Junction.adjacent j
  ∧ Junction.vector (Junction.moveJunction j) = Junction.vector j
  ∧ Junction.width (Junction.moveJunction j) = Junction.width j
  ∧ Junction.dragrate (Junction.moveJunction j) = Junction.dragrate j
  ∧ Junction.flowrate (Junction.moveJunction j) = Junction.flowrate j.
Proof.
  destruct j as [p v vec fl gr an fr dr c wd adj js].
  unfold Junction.moveJunction. cbn.
  destruct an; cbn.
  - destruct fl; cbn; split_and!; reflexivity.
  - destruct (0 <? c) eqn:E1; cbn.
    + destruct fl; cbn; split_and!; reflexivity.
    + destruct (c <? 0) eqn:E2; cbn.
      * destruct fl; cbn; split_and!; reflexivity.
      * destruct fl; cbn; split_and!; try reflexivity;
          apply Z.ltb_ge in E1, E2; lia.
Qed.

(** *** Seeding *)

Lemma SFcompare_antisym (x y : spec_float) :
  SFcompare y x = option_map CompOpp (SFcompare x y).
Proof.
  destruct x as [s| [] | |[] m e], y as [s'| [] | |[] m' e']; try reflexivity;
    try (destruct s; reflexivity); try (destruct s'; reflexivity);
    cbn; change (Pos.compare_cont Eq) with Pos.compare;
    rewrite (Z.compare_antisym e e'), (Pos.compare_antisym m m');
    destruct (e ?= e')%Z, (m ?= m')%positive; reflexivity.
Qed.

Lemma ltb_asym (x y : float) : PrimFloat.ltb x y = true → PrimFloat.ltb y x = false.
Proof.
  rewrite !FloatAxioms.ltb_spec. unfold SFltb.
  rewrite (SFcompare_antisym (Prim2SF x) (Prim2SF y)).
  destruct (SFcompare (Prim2SF x) (Prim2SF y)) as [[]|]; cbn; congruence.
Qed.

Lemma sorted2_ordered (a b : float) :
  PrimFloat.ltb (snd (sorted2 a b)) (fst (sorted2 a b)) = false.
Proof.
  unfold sorted2. destruct (PrimFloat.ltb b a) eqn:E; cbn [fst snd].
  - apply ltb_asym, E.
  - exact E.
Qed.

Lemma alter_at {A : Type} (f : A → A) (l l2 : list A) (i n : nat) :
  n = (length l + i)%nat → alter f n (l ++ l2) = l ++ alter f i l2.
Proof. intros ->. apply alter_app_r. Qed.

(** What [addJunction] returns. *)
Lemma addJunction_new (x y : float) (k : junction_kargs) (w : World) :
  ∃ j,
    addJunction x y k w
    = (mkWorld (jstore w ++ [j]) (tstore w)
         (Substrate.set_junctions
            (Substrate.junctions (substrate w) ++ [length (jstore w)]) (substrate w)),
       length (jstore w))
    ∧ Junction.position j = (x, y)
    ∧ Junction.anchor j = default false (ka_anchor k)
    ∧ Junction.growing j = default false (ka_growing k)
    ∧ Junction.cross j = default 0 (ka_cross k)
    ∧ Junction.adjacent j = []
    ∧ Junction.just_split j = true.
Proof. eexists. split; [reflexivity|]. cbn. auto 10. Qed.

(** X16. [initSubstrate()] returns normally in every state and appends
    four junctions and two tubules: the junctions are anchored and not
    growing, two on the lower wall and two on the upper wall, each pair
    from left to right; the first tubule joins the left pair and the
    second the right pair, and the adjacency lists say so. *)
Theorem initSubstrate_seeds (b1 b2 t1 t2 : float) (w : World) :
  ∃ w' ja jb jc jd ta tb,
    initSubstrate b1 b2 t1 t2 w = Ok w'
    ∧ jstore w' = jstore w ++ [ja; jb; jc; jd]
    ∧ tstore w' = tstore w ++ [ta; tb]
    ∧ Substrate.junctions (substrate w')
      = Substrate.junctions (substrate w)
          ++ ((λ i, length (jstore w) + i)%nat <$> [0; 1; 2; 3]%nat)
    ∧ Substrate.tubules (substrate w')
      = Substrate.tubules (substrate w)
          ++ ((λ i, length (tstore w) + i)%nat <$> [0; 1]%nat)
    ∧ Forall (λ j, Junction.anchor j = true ∧ Junction.growing j = false)
        [ja; jb; jc; jd]
    ∧ Junction.position <$> [ja; jb; jc; jd]
      = [(fst (sorted2 b1 b2), Np.of_int 0); (snd (sorted2 b1 b2), Np.of_int 0);
         (fst (sorted2 t1 t2), Substrate.height (substrate w));
         (snd (sorted2 t1 t2), Substrate.height (substrate w))]
    ∧ PrimFloat.ltb (fst (Junction.position jb)) (fst (Junction.position ja)) = false
    ∧ PrimFloat.ltb (fst (Junction.position jd)) (fst (Junction.position jc)) = false
    ∧ Junction.adjacent <$> [ja; jb; jc; jd]
      = (λ i, [(length (jstore w) + i)%nat]) <$> [2; 3; 0; 1]%nat
    ∧ (λ t, (Tubule.j1 t, Tubule.j2 t)) <$> [ta; tb]
      = (λ i, (length (jstore w) + i, length (jstore w) + i + 2)%nat) <$> [0; 1]%nat.
Proof.
  unfold initSubstrate. cbv zeta.
  destruct (addJunction_new (fst (sorted2 b1 b2)) (Np.of_int 0) (kw_anchor true) w)
    as (ja & -> & Pa & Aa & Ga & _ & Da & _).
  cbv beta iota.
  match goal with |- context [addJunction ?x ?y ?k ?w0] =>
    destruct (addJunction_new x y k w0) as (jb & -> & Pb & Ab & Gb & _ & Db & _) end.
  cbv beta iota.
  match goal with |- context [addJunction ?x ?y ?k ?w0] =>
    destruct (addJunction_new x y k w0) as (jc & -> & Pc & Ac & Gc & _ & Dc & _) end.
  cbv beta iota.
  match goal with |- context [addJunction ?x ?y ?k ?w0] =>
    destruct (addJunction_new x y k w0) as (jd & -> & Pd & Ad & Gd & _ & Dd & _) end.
  cbv beta iota. cbn [jstore tstore substrate] in *.
  set (l := jstore w) in *.
  assert (N1 : length (l ++ [ja]) = (length l + 1)%nat) by sizes.
  assert (N2 : length ((l ++ [ja]) ++ [jb]) = (length l + 2)%nat) by sizes.
  assert (N3 : length (((l ++ [ja]) ++ [jb]) ++ [jc]) = (length l + 3)%nat) by sizes.
  rewrite N1, N2, N3.
  rewrite <- !(app_assoc l). cbn [app].
  match goal with |- context [addTubule ?a ?b ?k ?w0] =>
    pose proof (addTubule_new a b k w0) as Hna;
    destruct (addTubule_Ok a b k w0) as (ta & E & _); [sizes | sizes |] end.
  rewrite E. specialize (Hna _ _ E). clear E.
  destruct Hna as (_ & _ & _ & _ & _ & ta' & Hta & Ja1 & Ja2 & _).
  cbn [tstore] in Hta. apply app_inj_tail in Hta as [_ <-].
  cbn [mbind result_bind jstore tstore substrate].
  match goal with |- context [addTubule ?a ?b ?k ?w0] =>
    pose proof (addTubule_new a b k w0) as Hnb;
    destruct (addTubule_Ok a b k w0) as (tb & E & _); [sizes | sizes |] end.
  rewrite E. specialize (Hnb _ _ E). clear E.
  destruct Hnb as (_ & _ & _ & _ & _ & tb' & Htb & Jb1 & Jb2 & _).
  cbn [tstore] in Htb. apply app_inj_tail in Htb as [_ <-].
  cbn [mbind result_bind mret result_ret jstore tstore substrate].
  unfold adjoin.
  rewrite (alter_at _ l _ 0) by lia. cbn [alter list_alter].
  rewrite (alter_at _ l _ 2) by lia. cbn [alter list_alter].
  rewrite (alter_at _ l _ 1) by lia. cbn [alter list_alter].
  rewrite (alter_at _ l _ 3) by lia. cbn [alter list_alter].
  eexists _, _, _, _, _, ta, tb. split; [reflexivity|].
  cbn [jstore tstore substrate Substrate.junctions Substrate.tubules
       Substrate.set_junctions Substrate.set_tubules fmap list_fmap].
  split_and!.
  - reflexivity.
  - rewrite <- app_assoc. reflexivity.
  - rewrite <- !app_assoc. cbn [app]. rewrite ?Nat.add_0_r. reflexivity.
  - rewrite <- !app_assoc. cbn [app]. rewrite ?length_app, ?Nat.add_0_r. reflexivity.
  - repeat constructor; cbn; assumption.
  - cbn. rewrite Pa, Pb, Pc, Pd. reflexivity.
  - cbn. rewrite Pa, Pb. apply sorted2_ordered.
  - cbn. rewrite Pc, Pd. apply sorted2_ordered.
  - cbn. rewrite Da, Db, Dc, Dd. rewrite ?Nat.add_0_r. reflexivity.
  - rewrite Ja1, Ja2, Jb1, Jb2. rewrite ?Nat.add_0_r.
    rewrite <- !Nat.add_assoc. reflexivity.
Qed.

(** *** Adjacency stays balanced under splits *)

Lemma balancedb_spec (w : World) : balancedb w = true → balanced w.
Proof.
  unfold balancedb, balanced, balanced_store. rewrite forallb_forall.
  intros H a b ja jb Ha Hb.
  assert (La : (a < length (jstore w))%nat) by (eapply lookup_lt_Some; eauto).
  assert (Lb : (b < length (jstore w))%nat) by (eapply lookup_lt_Some; eauto).
  specialize (H a ltac:(apply in_seq; lia)).
  rewrite forallb_forall in H. specialize (H b ltac:(apply in_seq; lia)).
  apply Nat.eqb_eq in H. unfold the_junction in H. rewrite Ha, Hb in H. exact H.
Qed.

Lemma closedb_spec (w : World) : closedb w = true → closed w.
Proof.
  unfold closedb, closed, closed_store. rewrite forallb_forall.
  intros H r j a Hj Ha.
  specialize (H j ltac:(apply list_elem_of_In; eapply list_elem_of_lookup_2; eauto)).
  rewrite forallb_forall in H. apply Nat.ltb_lt, H, list_elem_of_In, Ha.
Qed.

Lemma occurrences_pos (a : jref) (l : list jref) : a ∈ l ↔ (0 < occurrences a l)%nat.
Proof. unfold occurrences. rewrite list_elem_of_In. apply count_occ_In. Qed.

Lemma balanced_symmetric (w : World) : balanced w → symmetric w.
Proof.
  intros H a b ja jb Ha Hb. rewrite !occurrences_pos, (H a b ja jb Ha Hb). reflexivity.
Qed.

Lemma occurrences_app (a : jref) (l1 l2 : list jref) :
  occurrences a (l1 ++ l2) = (occurrences a l1 + occurrences a l2)%nat.
Proof. apply count_occ_app. Qed.

Lemma occurrences_one (a x : jref) :
  occurrences a [x] = if decide (x = a) then 1%nat else 0%nat.
Proof.
  unfold occurrences. cbn. destruct (Nat.eq_dec x a), (decide (x = a)); congruence.
Qed.

Lemma try_remove_cons (x a : jref) (l : list jref) :
  try_remove x (a :: l) = if decide (x = a) then l else a :: try_remove x l.
Proof.
  unfold try_remove. cbn. destruct (decide (x = a)); [reflexivity|].
  destruct (list_remove x l); reflexivity.
Qed.

Lemma occurrences_try_remove (y x : jref) (l : list jref) :
  occurrences y (try_remove x l)
  = if decide (y = x) then Nat.pred (occurrences y l) else occurrences y l.
Proof.
  induction l as [|a l IH].
  - cbn. destruct (decide (y = x)); reflexivity.
  - rewrite try_remove_cons. unfold occurrences in *. cbn [count_occ].
    destruct (decide (x = a)) as [E|N].
    + subst a. destruct (Nat.eq_dec x y) as [E|N']; destruct (decide (y = x));
        try congruence; reflexivity.
    + cbn [count_occ]. rewrite IH.
      destruct (Nat.eq_dec a y) as [E|N']; destruct (decide (y = x)) as [E'|N''];
        try congruence; reflexivity.
Qed.

Lemma elem_of_try_remove (y x : jref) (l : list jref) : y ∈ try_remove x l → y ∈ l.
Proof.
  rewrite !occurrences_pos, occurrences_try_remove. destruct (decide (y = x)); lia.
Qed.

(** A new junction with an empty list. *)
Lemma balanced_fresh (js : list Junction.t) (j : Junction.t) :
  Junction.adjacent j = [] → closed_store js → balanced_store js →
  balanced_store (js ++ [j]) ∧ closed_store (js ++ [j]).
Proof.
  intros Hj Hc Hb. split.
  - intros a b ja jb Ha Hb'.
    apply lookup_app_Some in Ha as [Ha|[La Ha]], Hb' as [Hb'|[Lb Hb']].
    + eapply Hb; eauto.
    + apply list_lookup_singleton_Some in Hb' as [Eb <-]. rewrite Hj. cbn.
      destruct (decide (b ∈ Junction.adjacent ja)) as [Hin|Hin].
      * specialize (Hc a ja b Ha Hin). lia.
      * apply count_occ_not_In. rewrite <- list_elem_of_In. exact Hin.
    + apply list_lookup_singleton_Some in Ha as [Ea <-]. rewrite Hj. cbn.
      destruct (decide (a ∈ Junction.adjacent jb)) as [Hin|Hin].
      * specialize (Hc b jb a Hb' Hin). lia.
      * symmetry. apply count_occ_not_In. rewrite <- list_elem_of_In. exact Hin.
    + apply list_lookup_singleton_Some in Ha as [_ <-].
      apply list_lookup_singleton_Some in Hb' as [_ <-]. rewrite Hj. reflexivity.
  - intros r j0 a Hr Ha. rewrite length_app. cbn.
    apply lookup_app_Some in Hr as [Hr|[_ Hr]].
    + specialize (Hc r j0 a Hr Ha). lia.
    + apply list_lookup_singleton_Some in Hr as [_ <-]. rewrite Hj in Ha. inversion Ha.
Qed.

Lemma unlink_adjacent (r1 r2 q : jref) (js : list Junction.t) :
  Junction.adjacent <$> unlink r1 r2 js !! q
  = (fun l => (if decide (q = r2) then try_remove r1 else id)
                ((if decide (q = r1) then try_remove r2 else id) l))
      <$> (Junction.adjacent <$> js !! q).
Proof.
  unfold unlink. rewrite !list_lookup_alter.
  repeat case_decide; subst; try congruence;
    destruct (js !! q) as [j|]; reflexivity.
Qed.

Lemma balanced_unlink (r1 r2 : jref) (js : list Junction.t) :
  balanced_store js → balanced_store (unlink r1 r2 js).
Proof.
  intros Hb a b ja' jb' Ha Hb'.
  pose proof (unlink_adjacent r1 r2 a js) as Ea. rewrite Ha in Ea.
  pose proof (unlink_adjacent r1 r2 b js) as Eb. rewrite Hb' in Eb.
  destruct (js !! a) as [ja|] eqn:Ha0; [|discriminate].
  destruct (js !! b) as [jb|] eqn:Hb0; [|discriminate].
  cbn in Ea, Eb. injection Ea as ->. injection Eb as ->.
  specialize (Hb a b ja jb Ha0 Hb0).
  repeat case_decide; subst; unfold id;
    rewrite ?occurrences_try_remove; repeat case_decide; try congruence; lia.
Qed.

Lemma closed_unlink (r1 r2 : jref) (js : list Junction.t) :
  closed_store js → closed_store (unlink r1 r2 js).
Proof.
  intros Hc r j' a Hr Ha.
  pose proof (unlink_adjacent r1 r2 r js) as E. rewrite Hr in E.
  destruct (js !! r) as [j|] eqn:Hr0; [|discriminate].
  cbn in E. injection E as E. rewrite E in Ha.
  unfold unlink. rewrite !length_alter. apply (Hc r j a Hr0).
  repeat case_decide; unfold id in Ha; repeat apply elem_of_try_remove in Ha; exact Ha.
Qed.

Lemma balanced_adjoin (r1 r2 : jref) (js : list Junction.t) :
  balanced_store js → balanced_store (adjoin r1 r2 js).
Proof.
  intros Hb a b ja' jb' Ha Hb'.
  pose proof (adjoin_adjacent r1 r2 a js) as Ea. rewrite Ha in Ea.
  pose proof (adjoin_adjacent r1 r2 b js) as Eb. rewrite Hb' in Eb.
  destruct (js !! a) as [ja|] eqn:Ha0; [|discriminate].
  destruct (js !! b) as [jb|] eqn:Hb0; [|discriminate].
  cbn in Ea, Eb. injection Ea as ->. injection Eb as ->.
  specialize (Hb a b ja jb Ha0 Hb0).
  rewrite !occurrences_app.
  repeat case_decide; subst; rewrite ?occurrences_one; cbn;
    repeat case_decide; try congruence; lia.
Qed.

Lemma closed_adjoin (r1 r2 : jref) (js : list Junction.t) :
  (r1 < length js)%nat → (r2 < length js)%nat →
  closed_store js → closed_store (adjoin r1 r2 js).
Proof.
  intros L1 L2 Hc r j' a Hr Ha.
  pose proof (adjoin_adjacent r1 r2 r js) as E. rewrite Hr in E.
  destruct (js !! r) as [j|] eqn:Hr0; [|discriminate].
  cbn in E. injection E as E. rewrite E in Ha.
  unfold adjoin. rewrite !length_alter.
  apply elem_of_adjoined in Ha as [Ha|[[_ ->]|[_ ->]]]; [|assumption..].
  apply (Hc r j a Hr0 Ha).
Qed.

(** The junction store a split leaves: two junctions appended, the two
    ends of the tubule unlinked, and the first new junction joined to
    both ends and to the second. *)
Lemma split_at_store (t : tref) (split_len : float) (negative : bool) (w : World)
    (tb : Tubule.t) :
  tstore w !! t = Some tb →
  (Tubule.j1 tb < length (jstore w))%nat →
  (Tubule.j2 tb < length (jstore w))%nat →
  ∃ w' s1 s2 t1 t2 t3,
    split_at t split_len negative w = Ok w'
    ∧ Junction.adjacent s1 = [] ∧ Junction.adjacent s2 = []
    ∧ jstore w'
      = adjoin (length (jstore w)) (S (length (jstore w)))
          (adjoin (length (jstore w)) (Tubule.j2 tb)
             (adjoin (length (jstore w)) (Tubule.j1 tb)
                (unlink (Tubule.j1 tb) (Tubule.j2 tb) ((jstore w ++ [s1]) ++ [s2]))))
    ∧ tstore w' = <[t := Tubule.set_to_remove tb]> (tstore w ++ [t1; t2; t3])
    ∧ Forall (λ x, Tubule.to_remove x = false) [t1; t2; t3]
    ∧ Substrate.tubules (substrate w')
      = Substrate.tubules (substrate w)
          ++ ((λ i, length (tstore w) + i)%nat <$> [0; 1; 2]%nat).
Proof.
  intros Ht L1 L2. unfold split_at, tubule, junction.
  rewrite (proj2 (deref_Ok _ _ _) Ht). cbn [mbind result_bind].
  destruct (deref_lt _ _ L1) as (e1 & -> & _).
  destruct (deref_lt _ _ L2) as (e2 & -> & _). cbn [mbind result_bind].
  destruct (end_crossovers _ _ _ _) as [c1 c2].
  cbv zeta.
  match goal with |- context [addJunction ?x ?y ?k w] =>
    destruct (addJunction_new x y k w) as (s1 & -> & _ & _ & _ & _ & D1 & _) end.
  cbv beta iota.
  match goal with |- context [addJunction ?x ?y ?k ?w0] =>
    destruct (addJunction_new x y k w0) as (s2 & -> & _ & _ & _ & _ & D2 & _) end.
  cbv beta iota. cbn [jstore tstore substrate].
  rewrite modify_junction_lt by sizes. cbn [mbind result_bind].
  rewrite modify_junction_lt by sizes. cbn [mbind result_bind].
  match goal with |- context [addTubule ?a ?b ?k ?w0] =>
    destruct (addTubule_Ok a b k w0) as (t1 & -> & R1); [sizes | sizes |] end.
  cbn [mbind result_bind].
  match goal with |- context [addTubule ?a ?b ?k ?w0] =>
    destruct (addTubule_Ok a b k w0) as (t2 & -> & R2); [sizes | sizes |] end.
  cbn [mbind result_bind].
  match goal with |- context [addTubule ?a ?b ?k ?w0] =>
    destruct (addTubule_Ok a b k w0) as (t3 & -> & R3); [sizes | sizes |] end.
  cbn [mbind result_bind].
  assert (Lt : (t < length (tstore w))%nat) by (eapply lookup_lt_Some; eauto).
  unfold tubule. cbn [tstore substrate jstore set_jstore].
  assert (Hlook : (((tstore w ++ [t1]) ++ [t2]) ++ [t3]) !! t = Some tb).
  { rewrite !lookup_app_l by sizes. exact Ht. }
  rewrite (proj2 (deref_Ok _ _ _) Hlook). cbn [mbind result_bind mret result_ret].
  eexists _, s1, s2, t1, t2, t3.
  split; [reflexivity|]. split; [exact D1|]. split; [exact D2|].
  cbn [jstore tstore substrate put_tubule set_tstore Substrate.tubules
       Substrate.set_tubules Substrate.set_junctions].
  split_and!.
  - unfold unlink. rewrite (length_app (jstore w) [s1]). cbn [length].
    rewrite Nat.add_1_r. reflexivity.
  - rewrite <- !app_assoc. reflexivity.
  - repeat constructor; assumption.
  - rewrite <- !app_assoc. cbn [app fmap list_fmap].
    rewrite !length_app. cbn [length]. rewrite ?Nat.add_0_r, <- ?Nat.add_assoc.
    reflexivity.
Qed.

Lemma split_scan_cases (ts : list tref) (r : float) (negative : bool) (w w' : World) :
  split_scan ts r negative w = Ok w' →
  w' = w ∨ ∃ t r', t ∈ ts ∧ split_at t r' negative w = Ok w'.
Proof.
  revert r. induction ts as [|t ts IH]; intros r H.
  - left. injection H as <-. reflexivity.
  - cbn [split_scan] in H. destruct (tubule w t) as [tb|e]; [|discriminate].
    cbn [mbind result_bind] in H. destruct (Np.gtb r (Tubule.norm tb)).
    + destruct (IH _ H) as [->|(u & r' & Hu & Hsp)]; [left; reflexivity|].
      right. exists u, r'. split; [right; exact Hu | exact Hsp].
    + right. exists t, r. split; [left | exact H].
Qed.

(** X17. Where the adjacency lists are balanced ([b] stands in the list
    of [a] as often as [a] in the list of [b]) and name existing junctions
    only, [splitTubule()] leaves them so; in particular [adjacent] is
    symmetric afterwards. *)
Theorem splitTubule_keeps_balance (rnd : float) (negative : bool) (w w' : World) :
  sound w → balanced w → closed w →
  splitTubule rnd negative w = Ok w' →
  balanced w' ∧ closed w' ∧ symmetric w'.
Proof.
  intros Hs Hb Hc H.
  assert (balanced w' ∧ closed w') as [Hb' Hc'];
    [|split_and!; [assumption.. | apply balanced_symmetric; assumption]].
  unfold splitTubule in H. cbv zeta in H.
  destruct (sum_norms w _ _) as [total|e]; [|discriminate].
  cbn [mbind result_bind] in H.
  apply split_scan_cases in H as [->|(t & r' & _ & H)]; [auto|].
  assert (∃ tb, tstore w !! t = Some tb) as [tb Ht].
  { unfold split_at in H. destruct (tubule w t) as [tb|e] eqn:E; [|discriminate].
    apply deref_Ok in E. eauto. }
  destruct Hs as [[_ He] _]. destruct (He t tb Ht) as [L1 L2].
  destruct (split_at_store t r' negative w tb Ht L1 L2)
    as (w'' & s1 & s2 & _ & _ & _ & R & D1 & D2 & E & _).
  rewrite R in H. injection H as <-.
  unfold balanced, closed. rewrite E.
  destruct (balanced_fresh (jstore w) s1 D1 Hc Hb) as [B1 C1].
  destruct (balanced_fresh (jstore w ++ [s1]) s2 D2 C1 B1) as [B2 C2].
  set (js := (jstore w ++ [s1]) ++ [s2]) in *.
  assert (Ljs : length js = S (S (length (jstore w)))) by (unfold js; sizes).
  pose proof (balanced_unlink (Tubule.j1 tb) (Tubule.j2 tb) js B2) as B3.
  pose proof (closed_unlink (Tubule.j1 tb) (Tubule.j2 tb) js C2) as C3.
  set (js3 := unlink _ _ js) in *.
  assert (L3 : length js3 = length js) by (unfold js3, unlink; rewrite !length_alter; reflexivity).
  split.
  - repeat apply balanced_adjoin. exact B3.
  - repeat apply closed_adjoin; try exact C3;
      unfold adjoin; rewrite ?length_alter; lia.
Qed.

Lemma splitTubule_keeps_balance_witness :
  balanced (the (splitTubule 0.5 true (the three_scene)))
  ∧ closed (the (splitTubule 0.5 true (the three_scene)))
  ∧ symmetric (the (splitTubule 0.5 true (the three_scene))).
Proof.
  apply (splitTubule_keeps_balance 0.5 true (the three_scene)).
  - apply soundb_spec. vm_compute. reflexivity.
  - apply balancedb_spec. vm_compute. reflexivity.
  - apply closedb_spec. vm_compute. reflexivity.
  - vm_compute. reflexivity.
Defined.

(** X18. [addTubule] keeps the adjacency lists balanced and within the
    store, whichever two junctions it joins (the same one twice
    included). *)
Theorem addTubule_keeps_balance (r1 r2 : jref) (k : tubule_kargs) (w w' : World)
    (t : tref) :
  balanced w → closed w → addTubule r1 r2 k w = Ok (w', t) →
  balanced w' ∧ closed w'.
Proof.
  intros Hb Hc H. destruct (addTubule_new _ _ _ _ _ _ H) as (L1 & L2 & _ & E & _).
  unfold balanced, closed. rewrite E. split.
  - apply balanced_adjoin, Hb.
  - apply closed_adjoin; assumption.
Qed.

Lemma addTubule_keeps_balance_witness :
  balanced (fst (the_pair (addTubule 0%nat 0%nat no_tubule_kargs two_junctions)))
  ∧ closed (fst (the_pair (addTubule 0%nat 0%nat no_tubule_kargs two_junctions))).
Proof.
  apply (addTubule_keeps_balance 0%nat 0%nat no_tubule_kargs two_junctions _ 0%nat).
  - apply balancedb_spec. vm_compute. reflexivity.
  - apply closedb_spec. vm_compute. reflexivity.
  - vm_compute. reflexivity.
Defined.

(** *** What is not finite stays so *)

Lemma is_finite_SF (x : float) :
  PrimFloat.is_finite x
  = match Prim2SF x with
    | S754_nan | S754_infinity _ => false
    | _ => true
    end.
Proof.
  unfold PrimFloat.is_finite, PrimFloat.is_nan, PrimFloat.is_infinity.
  rewrite !FloatAxioms.eqb_spec, FloatAxioms.abs_spec.
  change (Prim2SF infinity) with (S754_infinity false).
  destruct (Prim2SF x) as [s| [] | |[] m e]; try reflexivity;
    unfold SFeqb, SFcompare, SFabs;
    rewrite Z.compare_refl; change (Pos.compare_cont Eq) with Pos.compare;
    rewrite Pos.compare_refl; reflexivity.
Qed.

Lemma nonfinite_SF (x : float) :
  ¬ finite x ↔ Prim2SF x = S754_nan ∨ ∃ s, Prim2SF x = S754_infinity s.
Proof.
  unfold finite. rewrite is_finite_SF.
  destruct (Prim2SF x) as [s|s| |s m e]; split; try congruence; eauto;
    intros [H|[s' H]]; discriminate.
Qed.

Lemma nan_SF (x : float) : Prim2SF x = S754_nan → x = PrimFloat.nan.
Proof. intros H. apply Prim2SF_inj. rewrite H. reflexivity. Qed.

Lemma sub_self_nonfinite (x : float) : ¬ finite x → PrimFloat.sub x x = PrimFloat.nan.
Proof.
  intros H. apply nan_SF. rewrite sub_spec.
  apply nonfinite_SF in H as [->|[[] ->]]; reflexivity.
Qed.

Lemma add_nan_l (y : float) : PrimFloat.add PrimFloat.nan y = PrimFloat.nan.
Proof. apply nan_SF. rewrite add_spec. reflexivity. Qed.

Lemma sub_nan_l (y : float) : PrimFloat.sub PrimFloat.nan y = PrimFloat.nan.
Proof. apply nan_SF. rewrite sub_spec. reflexivity. Qed.

Lemma div_nan_r (y : float) : PrimFloat.div y PrimFloat.nan = PrimFloat.nan.
Proof.
  apply nan_SF. rewrite div_spec. change (Prim2SF nan) with S754_nan.
  destruct (Prim2SF y); reflexivity.
Qed.

Lemma add_nonfinite_r (a b : float) : ¬ finite b → ¬ finite (PrimFloat.add a b).
Proof.
  rewrite !nonfinite_SF, add_spec. unfold SF64add, SFadd.
  intros [->|[[] ->]]; destruct (Prim2SF a) as [sa| [] | |sa m e]; eauto.
Qed.

Lemma sub_nonfinite_r (a b : float) : ¬ finite b → ¬ finite (PrimFloat.sub a b).
Proof.
  rewrite !nonfinite_SF, sub_spec. unfold SF64sub, SFsub.
  intros [->|[[] ->]]; destruct (Prim2SF a) as [sa| [] | |sa m e]; eauto.
Qed.

Lemma div_zero_nonfinite (x n : float) : zero_like n → ¬ finite (PrimFloat.div x n).
Proof.
  rewrite nonfinite_SF, div_spec. unfold SF64div, SFdiv.
  intros [->| ->]; [change (Prim2SF PrimFloat.zero) with (S754_zero false)
                   |change (Prim2SF PrimFloat.neg_zero) with (S754_zero true)];
    destruct (Prim2SF x) as [sa|sa| |sa m e]; eauto.
Qed.

(** X19. A vector component that is not finite is never repaired:
    [self.vector -= self.vector] turns it into NaN, so that after
    [updateTubule()] the component is NaN whatever the positions of the
    two ends are, and the norm and the unit vector are NaN with it. *)
Theorem updateTubule_nonfinite_sticks (t : tref) (w : World) (tb : Tubule.t)
    (e1 e2 : Junction.t) :
  tubule w t = Ok tb →
  junction w (Tubule.j1 tb) = Ok e1 →
  junction w (Tubule.j2 tb) = Ok e2 →
  ¬ finite (fst (Tubule.vector tb)) →
  ∃ w' tb',
    updateTubule t w = Ok w'
    ∧ tubule w' t = Ok tb'
    ∧ fst (Tubule.vector tb') = PrimFloat.nan
    ∧ Tubule.norm tb' = PrimFloat.nan
    ∧ Tubule.unit tb' = (PrimFloat.nan, PrimFloat.nan).
Proof.
  intros Ht H1 H2 Hx. unfold updateTubule.
  rewrite Ht. cbn [mbind result_bind]. rewrite H1, H2.
  cbn [mbind result_bind mret result_ret]. cbv zeta.
  apply deref_Ok in Ht.
  assert (Lt : (t < length (tstore w))%nat) by (eapply lookup_lt_Some; eauto).
  eexists _, _. split; [reflexivity|]. split.
  { unfold tubule. apply deref_Ok. cbn [tstore put_tubule set_tstore].
    apply list_lookup_insert_eq, Lt. }
  assert (Ex : fst (Tubule.updated_vector tb (Junction.position e1) (Junction.position e2))
               = PrimFloat.nan).
  { unfold Tubule.updated_vector, Np.sub, Np.add, Np.add0. cbn [fst snd].
    rewrite (sub_self_nonfinite _ Hx), !add_nan_l, sub_nan_l. reflexivity. }
  assert (En : Np.norm (Tubule.updated_vector tb (Junction.position e1)
                          (Junction.position e2)) = PrimFloat.nan).
  { unfold Np.norm, Np.dot. rewrite Ex, mul_nan, add_nan_l. reflexivity. }
  cbn [Tubule.vector Tubule.norm Tubule.unit Tubule.set_geometry].
  rewrite En. split; [exact Ex|]. split; [reflexivity|].
  unfold Np.divs. rewrite !div_nan_r. reflexivity.
Qed.

Lemma updateTubule_nonfinite_sticks_witness :
  ∃ w' tb',
    updateTubule 0%nat (the drifted_scene) = Ok w'
    ∧ tubule w' 0%nat = Ok tb'
    ∧ fst (Tubule.vector tb') = PrimFloat.nan
    ∧ Tubule.norm tb' = PrimFloat.nan
    ∧ Tubule.unit tb' = (PrimFloat.nan, PrimFloat.nan).
Proof.
  apply (updateTubule_nonfinite_sticks 0%nat (the drifted_scene)
           (the_tubule (the drifted_scene) 0%nat)
           (the_junction (the drifted_scene) 0%nat)
           (the_junction (the drifted_scene) 1%nat)).
  - vm_compute. reflexivity.
  - vm_compute. reflexivity.
  - vm_compute. reflexivity.
  - apply nonfinite_SF. right. exists false. vm_compute. reflexivity.
Defined.

(** X20. Nothing guards the division by the norm in [growTubule()]
    either: on a tubule whose norm is zero and whose second end is
    growing, it returns normally and leaves both coordinates of that end
    infinite or NaN. *)
Theorem growTubule_zero_length (t : tref) (w : World) (tb : Tubule.t)
    (e1 e2 : Junction.t) :
  tubule w t = Ok tb →
  junction w (Tubule.j1 tb) = Ok e1 →
  junction w (Tubule.j2 tb) = Ok e2 →
  zero_like (Tubule.norm tb) →
  Junction.growing e2 = true →
  ∃ w' e2',
    growTubule t w = Ok w'
    ∧ junction w' (Tubule.j2 tb) = Ok e2'
    ∧ ¬ finite (fst (Junction.position e2'))
    ∧ ¬ finite (snd (Junction.position e2')).
Proof.
  intros Ht H1 H2 Hn Hg. unfold growTubule.
  rewrite Ht. cbn [mbind result_bind]. cbv zeta. rewrite H1. cbn [mbind result_bind].
  apply deref_Ok in H1, H2.
  assert (L1 : (Tubule.j1 tb < length (jstore w))%nat) by (eapply lookup_lt_Some; eauto).
  assert (L2 : (Tubule.j2 tb < length (jstore w))%nat) by (eapply lookup_lt_Some; eauto).
  set (step := Np.divs (Np.scale (Tubule.growth tb) (Tubule.vector tb)) (Tubule.norm tb)).
  match goal with |- context [mbind _ (if Junction.growing e1 then ?m else mret w)] =>
    assert (∃ w1 e,
              (if Junction.growing e1 then m else mret w) = Ok w1
              ∧ jstore w1 !! Tubule.j2 tb = Some e ∧ Junction.growing e = true
              ∧ length (jstore w1) = length (jstore w))
      as (w1 & e & -> & He & Hge & Hl) end.
  { destruct (Junction.growing e1).
    - unfold modify_junction, junction. rewrite (proj2 (deref_Ok _ _ _) H1).
      cbn [mbind result_bind mret result_ret].
      destruct (decide (Tubule.j2 tb = Tubule.j1 tb)) as [E|N].
      + eexists _, _. split; [reflexivity|]. cbn. rewrite E.
        rewrite list_lookup_insert_eq by exact L1. split; [reflexivity|].
        rewrite E, H1 in H2. injection H2 as <-. split; [exact Hg|].
        apply length_insert.
      + eexists _, e2. split; [reflexivity|]. cbn.
        rewrite list_lookup_insert_ne by congruence.
        split; [exact H2|]. split; [exact Hg | apply length_insert].
    - exists w, e2. auto. }
  cbn [mbind result_bind]. unfold junction at 1.
  rewrite (proj2 (deref_Ok _ _ _) He). cbn [mbind result_bind]. rewrite Hge.
  unfold modify_junction, junction. rewrite (proj2 (deref_Ok _ _ _) He).
  cbn [mbind result_bind mret result_ret].
  eexists _, _. split; [reflexivity|]. split.
  { apply deref_Ok. cbn [jstore put_junction set_jstore].
    apply list_lookup_insert_eq. rewrite Hl. exact L2. }
  cbn [Junction.position Junction.set_position Junction.set_velocity Np.add fst snd].
  split; apply add_nonfinite_r; unfold step, Np.divs; cbn [fst snd];
    apply div_zero_nonfinite, Hn.
Qed.

Lemma growTubule_zero_length_witness :
  ∃ w' e2',
    growTubule 0%nat (the tip_at_root_scene) = Ok w'
    ∧ junction w' 1%nat = Ok e2'
    ∧ ¬ finite (fst (Junction.position e2'))
    ∧ ¬ finite (snd (Junction.position e2')).
Proof.
  apply (growTubule_zero_length 0%nat (the tip_at_root_scene)
           (the_tubule (the tip_at_root_scene) 0%nat)
           (the_junction (the tip_at_root_scene) 0%nat)
           (the_junction (the tip_at_root_scene) 1%nat)).
  - vm_compute. reflexivity.
  - vm_compute. reflexivity.
  - vm_compute. reflexivity.
  - left. vm_compute. reflexivity.
  - vm_compute. reflexivity.
Defined.

Lemma finite_nan : ¬ finite PrimFloat.nan.
Proof. unfold finite. vm_compute. discriminate. Qed.

(** If what [updateTubule] leaves in a component is finite, the
    component it started from was finite. *)
Lemma updated_finite (x p c q : float) :
  finite (PrimFloat.sub (PrimFloat.add (PrimFloat.add (PrimFloat.sub x x) p) c) q) →
  finite x.
Proof.
  intros H. destruct (PrimFloat.is_finite x) eqn:E; [exact E|]. exfalso.
  assert (Hx : ¬ finite x) by (unfold finite; congruence).
  rewrite (sub_self_nonfinite x Hx), !add_nan_l, sub_nan_l in H.
  exact (finite_nan H).
Qed.

Lemma updated_finite' (x p q : float) :
  finite (PrimFloat.sub (PrimFloat.add (PrimFloat.sub x x) p) q) → finite x.
Proof.
  intros H. destruct (PrimFloat.is_finite x) eqn:E; [exact E|]. exfalso.
  assert (Hx : ¬ finite x) by (unfold finite; congruence).
  rewrite (sub_self_nonfinite x Hx), !add_nan_l, sub_nan_l in H.
  exact (finite_nan H).
Qed.

Lemma put_tubule_same (t : tref) (tb : Tubule.t) (w : World) :
  tstore w !! t = Some tb → put_tubule t tb w = w.
Proof.
  intros H. destruct w as [js ts s]. unfold put_tubule, set_tstore. cbn in *.
  rewrite list_insert_id by exact H. reflexivity.
Qed.

(** X21. While the vector it computes is finite, [updateTubule()] run a
    second time changes nothing. *)
Theorem updateTubule_idempotent (t : tref) (w w' : World) (tb' : Tubule.t) :
  updateTubule t w = Ok w' →
  tubule w' t = Ok tb' →
  finite_vec (Tubule.vector tb') →
  updateTubule t w' = Ok w'.
Proof.
  intros H Ht' [Fx Fy]. unfold updateTubule in H. inv_bind H.
  rename a into tb, a0 into e1, a1 into e2, E into Ht, E0 into H1, E1 into H2.
  cbv zeta in H. subst w'.
  pose proof Ht as Ht0. apply deref_Ok in Ht0.
  assert (Lt : (t < length (tstore w))%nat) by (eapply lookup_lt_Some; eauto).
  set (v := Tubule.updated_vector tb (Junction.position e1) (Junction.position e2)) in *.
  set (tb1 := Tubule.set_geometry v (Np.norm v) (Np.divs v (Np.norm v)) tb) in *.
  assert (E1 : tstore (put_tubule t tb1 w) !! t = Some tb1).
  { cbn [tstore put_tubule set_tstore]. apply list_lookup_insert_eq, Lt. }
  unfold tubule in Ht'. rewrite (proj2 (deref_Ok _ _ _) E1) in Ht'. injection Ht' as <-.
  cbn [Tubule.vector tb1 Tubule.set_geometry] in Fx, Fy.
  assert (Fx0 : finite (fst (Tubule.vector tb))).
  { unfold v, Tubule.updated_vector, Np.sub, Np.add, Np.add0 in Fx. cbn [fst snd] in Fx.
    eapply updated_finite, Fx. }
  assert (Fy0 : finite (snd (Tubule.vector tb))).
  { unfold v, Tubule.updated_vector, Np.sub, Np.add, Np.add0 in Fy. cbn [fst snd] in Fy.
    eapply updated_finite', Fy. }
  assert (Ev : Tubule.updated_vector tb1 (Junction.position e1) (Junction.position e2) = v).
  { unfold v, Tubule.updated_vector, Np.sub at 2 4.
    cbn [Tubule.vector tb1 Tubule.set_geometry Tubule.width Tubule.crossover fst snd].
    fold v. unfold Np.sub at 2. cbn [fst snd].
    rewrite (sub_self _ Fx), (sub_self _ Fy), (sub_self _ Fx0), (sub_self _ Fy0).
    reflexivity. }
  unfold updateTubule, tubule, junction.
  rewrite (proj2 (deref_Ok _ _ _) E1). cbn [mbind result_bind].
  cbn [jstore put_tubule set_tstore Tubule.j1 Tubule.j2 tb1 Tubule.set_geometry].
  unfold junction in H1, H2. rewrite H1, H2.
  cbn [mbind result_bind mret result_ret]. cbv zeta. rewrite Ev.
  f_equal. apply put_tubule_same. rewrite E1. reflexivity.
Qed.

Lemma updateTubule_idempotent_witness :
  updateTubule 0%nat (the (updateTubule 0%nat (the wrapped_scene)))
  = Ok (the (updateTubule 0%nat (the wrapped_scene))).
Proof.
  apply (updateTubule_idempotent 0%nat (the wrapped_scene) _
           (the_tubule (the (updateTubule 0%nat (the wrapped_scene))) 0%nat)).
  - vm_compute. reflexivity.
  - vm_compute. reflexivity.
  - split; vm_compute; reflexivity.
Defined.

(** *** A click and the removal that follows *)

(** X22. A click followed by the driver's removal, on a tubule
    collection without repetitions: either nothing was split and the
    removal drops the tubules that were marked before, or one tubule of
    the collection was split and the removal drops it as well, and the
    three tubules the split created stand at the end of the collection. *)
Theorem split_then_sweep (rnd : float) (negative : bool) (w w1 w2 : World) :
  sound w → NoDup (Substrate.tubules (substrate w)) →
  splitTubule rnd negative w = Ok w1 → sweep w1 = Ok w2 →
  Substrate.tubules (substrate w2)
  = filter (λ u, marked w !! u ≠ Some true) (Substrate.tubules (substrate w))
  ∨ ∃ t, t ∈ Substrate.tubules (substrate w)
         ∧ Substrate.tubules (substrate w2)
           = filter (λ u, u ≠ t ∧ marked w !! u ≠ Some true)
               (Substrate.tubules (substrate w))
             ++ ((λ i, length (tstore w) + i)%nat <$> [0; 1; 2]%nat).
Proof.
  intros Hs Hnd H1 H2.
  assert (Hs1 : sound w1).
  { destruct (splitTubule_changes rnd negative w Hs) as (w' & R & E).
    rewrite H1 in R. injection R as <-. eapply changes_sound; eauto. }
  destruct (sweep_spec w1 Hs1) as (w2' & ts' & R & _ & Hsub & _ & _ & Hf).
  rewrite H2 in R. injection R as <-.
  rewrite Hsub. cbn [Substrate.tubules Substrate.set_tubules].
  unfold splitTubule in H1. cbv zeta in H1.
  destruct (sum_norms w _ _) as [total|e]; [|discriminate].
  cbn [mbind result_bind] in H1.
  apply split_scan_cases in H1 as [->|(t & r' & Hin & H1)].
  - left. apply Hf, Hnd.
  - right. exists t. split; [exact Hin|].
    assert (Lt : (t < length (tstore w))%nat) by (apply Hs, Hin).
    destruct (lookup_lt_is_Some_2 _ _ Lt) as [tb Ht].
    destruct Hs as [[Hwt He] _]. destruct (He t tb Ht) as [L1 L2].
    destruct (split_at_store t r' negative w tb Ht L1 L2)
      as (w' & s1 & s2 & t1 & t2 & t3 & R & _ & _ & _ & Ets & Hnew & Etub).
    rewrite H1 in R. injection R as <-.
    apply Forall_cons in Hnew as [M1 Hnew]. apply Forall_cons in Hnew as [M2 Hnew].
    apply Forall_cons in Hnew as [M3 _].
    assert (Hold : ∀ u, (u < length (tstore w))%nat →
              marked w1 !! u = if decide (u = t) then Some true else marked w !! u).
    { intros u Lu. unfold marked. rewrite !list_lookup_fmap, Ets.
      destruct (decide (u = t)) as [->|N].
      - rewrite list_lookup_insert_eq by sizes. reflexivity.
      - rewrite list_lookup_insert_ne by congruence.
        rewrite lookup_app_l by exact Lu. reflexivity. }
    assert (Hfresh : ∀ i, (i < 3)%nat →
              marked w1 !! (length (tstore w) + i)%nat = Some false).
    { intros i Li. unfold marked. rewrite list_lookup_fmap, Ets.
      rewrite list_lookup_insert_ne by lia.
      rewrite lookup_app_r by lia.
      replace (length (tstore w) + i - length (tstore w))%nat with i by lia.
      destruct i as [|[|[|i]]]; cbn; rewrite ?M1, ?M2, ?M3; try reflexivity; lia. }
    rewrite Hf.
    + rewrite Etub, filter_app. f_equal.
      * apply filter_ext_in. intros u Hu. rewrite (Hold u (Hwt u Hu)).
        destruct (decide (u = t)); [subst; intuition congruence | tauto].
      * apply filter_all. intros u Hu.
        apply list_elem_of_fmap_1 in Hu as (i & -> & Hi).
        rewrite Hfresh; [congruence|].
        repeat (apply elem_of_cons in Hi as [->|Hi]; [lia|]). inversion Hi.
    + rewrite Etub. apply NoDup_app. split_and!.
      * exact Hnd.
      * intros u Hu Hu'. apply list_elem_of_fmap_1 in Hu' as (i & -> & _).
        specialize (Hwt _ Hu). lia.
      * cbn. repeat constructor; rewrite ?elem_of_cons, ?elem_of_nil; lia.
Qed.

Lemma split_then_sweep_witness :
  Substrate.tubules (substrate (the (sweep (the main_scene))))
  = filter (λ u, marked (the seeded_scene) !! u ≠ Some true)
      (Substrate.tubules (substrate (the seeded_scene)))
  ∨ ∃ t, t ∈ Substrate.tubules (substrate (the seeded_scene))
         ∧ Substrate.tubules (substrate (the (sweep (the main_scene))))
           = filter (λ u, u ≠ t ∧ marked (the seeded_scene) !! u ≠ Some true)
               (Substrate.tubules (substrate (the seeded_scene)))
             ++ ((λ i, length (tstore (the seeded_scene)) + i)%nat <$> [0; 1; 2]%nat).
Proof.
  apply (split_then_sweep 0.25 false (the seeded_scene) (the main_scene)).
  - apply soundb_spec. vm_compute. reflexivity.
  - apply (@bool_decide_unpack _ (NoDup_dec _)). vm_compute. exact I.
  - vm_compute. reflexivity.
  - vm_compute. reflexivity.
Defined.
